(** * Career-Adviser-System: recommendation scorer, roadmap generator and
      the routes built on them

    A shallow embedding of [app.py], [app_demo.py], [recommender.py],
    [seed_db.py] and the part of [models.py] they read, followed by the
    properties the specification states about them and by further properties
    of the same code.

    Conventions of the embedding.
    - A Python [str] is a [string] (a sequence of bytes); [str.lower] folds
      the ASCII letters only and [str.strip] removes the ASCII white space
      Python removes.  On ASCII text this is Python's behaviour exactly.
    - A score is a Python float, a binary64 number: a [spec_float] of the
      Standard Library with precision 53 and maximal exponent 1024, whose
      sum and product round to nearest, ties to even. An [int] that meets a
      float is converted to a float first.
    - The database is an explicit state: tables are lists in row order, an
      ORM relationship is a field holding the related rows.
    - A dict keeps Python's meaning: a later store under an equal key
      replaces the earlier one ([gmap]); a dict whose iteration order is
      observed is an association list. *)

From Stdlib Require Import Ascii String ZArith SpecFloat.
From stdpp Require Import base numbers list strings gmap sorting.

#[local] Set Warnings "-clear-no-such-hyp".

(** ** Python string primitives *)

Definition ascii_lower (c : ascii) : ascii :=
  let n := nat_of_ascii c in
  if (65 <=? n)%nat && (n <=? 90)%nat then ascii_of_nat (n + 32) else c.

(** [s.lower()] *)
Fixpoint str_lower (s : string) : string :=
  match s with
  | EmptyString => EmptyString
  | String c s' => String (ascii_lower c) (str_lower s')
  end.

(** The ASCII characters for which [str.isspace] holds: TAB, LF, VT, FF, CR,
    FS, GS, RS, US and the space. *)
Definition is_space (c : ascii) : bool :=
  let n := nat_of_ascii c in
  ((9 <=? n)%nat && (n <=? 13)%nat) || ((28 <=? n)%nat && (n <=? 32)%nat).

Fixpoint str_lstrip (s : string) : string :=
  match s with
  | EmptyString => EmptyString
  | String c s' => if is_space c then str_lstrip s' else s
  end.

Fixpoint str_rstrip (s : string) : string :=
  match s with
  | EmptyString => EmptyString
  | String c s' =>
      match str_rstrip s' with
      | EmptyString => if is_space c then EmptyString else String c EmptyString
      | r => String c r
      end
  end.

(** [s.strip()] *)
Definition str_strip (s : string) : string := str_rstrip (str_lstrip s).

(** [s.split(sep)] for a one-character separator: one more piece than there
    are separators. *)
Fixpoint str_split (sep : ascii) (s : string) : list string :=
  match s with
  | EmptyString => [EmptyString]
  | String c s' =>
      if decide (c = sep) then EmptyString :: str_split sep s'
      else match str_split sep s' with
           | [] => [String c EmptyString]
           | w :: ws => String c w :: ws
           end
  end.

Fixpoint str_startswith (p s : string) : bool :=
  match p, s with
  | EmptyString, _ => true
  | String _ _, EmptyString => false
  | String a p', String b s' => bool_decide (a = b) && str_startswith p' s'
  end.

(** [sub in s] on strings *)
Fixpoint str_in (sub s : string) : bool :=
  str_startswith sub s ||
  match s with
  | EmptyString => false
  | String _ s' => str_in sub s'
  end.

(** [sep.join(l)] *)
Fixpoint str_join (sep : string) (l : list string) : string :=
  match l with
  | [] => EmptyString
  | [x] => x
  | x :: l' => x +:+ sep +:+ str_join sep l'
  end.

(** Truth value of a string, [x or y] on strings. *)
Definition str_truthy (s : string) : bool :=
  match s with EmptyString => false | _ => true end.

Definition str_or (a b : string) : string := if str_truthy a then a else b.

(** [split_csv] of app.py: [[s.strip() for s in (value or '').split(',') if s.strip()]] *)
Definition split_csv (value : option string) : list string :=
  List.map str_strip
    (List.filter (fun s => str_truthy (str_strip s))
       (str_split ","%char (default EmptyString value))).

(** ** Roadmap helpers (app.py, lines 11-46) *)

Record Phase := mkPhase { ph_title : string; ph_steps : list string }.

Definition SKILL_RESOURCES : gmap string (list string) :=
  list_to_map
    [ ("python", ["Official Python Tutorial"; "Automate the Boring Stuff"]);
      ("sql", ["SQLBolt"; "Mode SQL Tutorial"]);
      ("data-structures", ["NeetCode Roadmap"; "CS50 Data Structures"]);
      ("statistics", ["Khan Academy Stats"; "Think Stats (book)"]);
      ("algorithms", ["Grokking Algorithms"; "CLRS (chapters 1–4)"]);
      ("figma", ["Figma Learn"; "Build a UI Kit"]);
      ("design-principles", ["Laws of UX"; "Refactoring UI"]) ].

Definition generic_prompt : string := "Pick a beginner resource".

(** [" • ".join(SKILL_RESOURCES.get(s.lower(), [])[:2]) or "Pick a beginner resource"] *)
Definition suggested (s : string) : string :=
  str_or (str_join " • " (take 2 (default [] (SKILL_RESOURCES !! str_lower s))))
         generic_prompt.

Definition foundation_step (s : string) : string :=
  "Learn the basics of " +:+ s +:+ " (2–3 weeks). Suggested: " +:+ suggested s +:+ ".".

Definition core_step (s : string) : string :=
  "Do 3–5 medium practice sets for " +:+ s +:+ ". Summarize notes in a wiki/notion.".

Definition projects_phase : Phase :=
  mkPhase "Projects"
    [ "Build Project 1: pick a small scoped idea (2 weeks).";
      "Build Project 2: increase scope, add 1 new concept (APIs, auth, charts, etc.).";
      "Write concise READMEs with screenshots; push everything to GitHub." ].

Definition portfolio_phase : Phase :=
  mkPhase "Portfolio"
    [ "Create a clean portfolio page (about, skills, 2 projects, contact).";
      "Polish LinkedIn: headline, summary, skills, project links.";
      "Prepare a 5-minute project walkthrough (story → demo → learning)." ].

Definition apply_phase : Phase :=
  mkPhase "Apply & Iterate"
    [ "Set a weekly target: 5 tailored applications + 1 coffee chat.";
      "Mock interviews weekly; log weak areas and revisit notes.";
      "Iterate projects based on feedback; ship small improvements weekly." ].

(** The phases are appended to an initially empty list, in this order. *)
Definition build_roadmap (career_title : string)
    (required_skills missing_skills : list string) : list Phase :=
  let phases := [] in
  let phases :=
    match missing_skills with
    | [] => phases
    | _ :: _ => phases ++ [mkPhase "Foundations" (List.map foundation_step missing_skills)]
    end in
  let phases := phases ++ [mkPhase "Core Practice" (List.map core_step required_skills)] in
  let phases := phases ++ [projects_phase] in
  let phases := phases ++ [portfolio_phase] in
  let phases := phases ++ [apply_phase] in
  phases.

(** ** recommender.py *)

(** A recommendation: a dict with the keys ['career'] and ['skills']. *)
Record Rec := mkRec { rec_career : string; rec_skills : list string }.

(** [CAREER_MAP] is iterated, so its insertion order is kept. *)
Definition CAREER_MAP : list (string * Rec) :=
  [ ("programming", mkRec "Software Engineer" ["python"; "data-structures"; "algorithms"]);
    ("biology", mkRec "Biotech Researcher" ["molecular-bio"; "lab-techniques"; "statistics"]);
    ("data", mkRec "Data Analyst" ["python"; "sql"; "statistics"]);
    ("design", mkRec "UI/UX Designer" ["design-principles"; "figma"; "portfolio"]) ].

Definition general_counseling : Rec :=
  mkRec "General Counseling" ["communication"; "career-planning"].

(** The inner loop of [get_recommendations]: the entries whose key [k]
    satisfies [k in key or key in k], in the order of the map. *)
Definition matching_entries (key : string) : list Rec :=
  List.map snd (List.filter (fun e => str_in (fst e) key || str_in key (fst e)) CAREER_MAP).

(** The dedupe loop: [seen] is the set of careers already emitted. *)
Fixpoint dedupe (seen : gset string) (recs : list Rec) : list Rec :=
  match recs with
  | [] => []
  | r :: recs' =>
      if decide (rec_career r ∈ seen) then dedupe seen recs'
      else r :: dedupe ({[ rec_career r ]} ∪ seen) recs'
  end.

Definition get_recommendations (interests skills : list string) : list Rec :=
  let recs :=
    List.flat_map (fun it => matching_entries (str_strip (str_lower it))) interests in
  let out := dedupe ∅ recs in
  match out with
  | [] => [general_counseling]
  | _ :: _ => out
  end.

(** [skill_gap]: [missing = list(required - user)]; the order in which a set
    is listed is not fixed by Python, the model lists it with [elements]. *)
Definition skill_gap (recs : list Rec) (user_skills : list string)
    : gmap string (list string) :=
  let user : gset string :=
    list_to_set (List.map (fun s => str_strip (str_lower s)) user_skills) in
  fold_left
    (fun gaps r =>
       let required : gset string := list_to_set (rec_skills r) in
       let missing := elements (required ∖ user) in
       <[ rec_career r := missing ]> gaps)
    recs ∅.

(** ** models.py: the rows and relationships the routes read *)

Record Resource := mkResource { r_title : string; r_url : option string }.

(** [Skill.name] is declared [nullable=False]. *)
Record Skill := mkSkill { s_name : string }.

(** [req.skill] is a relationship: [None] when no row is related. *)
Record CareerSkillRequirement := mkReq { req_skill : option Skill }.

Record Career := mkCareer {
  c_id : nat;
  c_title : string;                              (* nullable=False *)
  c_requirements : list CareerSkillRequirement;  (* relationship *)
  c_resources : list Resource                    (* relationship *)
}.

Record UserSkill := mkUserSkill { us_name : option string }.

(** The relationship to [UserSkill] is declared under the name [skills];
    [User] declares no attribute [user_skills]. *)
Record User := mkUser {
  u_id : nat;
  u_interests : option string;
  u_skills_text : option string;
  u_skills : list UserSkill
}.

Record Plan := mkPlan {
  p_id : nat;
  p_user_id : nat;
  p_career_id : option nat;
  p_title : string
}.

Record PlanStep := mkPlanStep {
  ps_id : nat;
  ps_plan_id : nat;
  ps_title : string;
  ps_sort_order : nat
}.

(** The database: one list per table, in row order. *)
Record DB := mkDB {
  users : list User;
  careers : list Career;
  plans : list Plan;
  plan_steps : list PlanStep;
  resource_rows : list Resource
}.

(** ** Python floats and the built-in sort *)

(** [x + y] and [x * y] on floats. *)
Definition fadd : spec_float -> spec_float -> spec_float := SFadd 53 1024.

Definition fmul : spec_float -> spec_float -> spec_float := SFmul 53 1024.

(** [float(n)] for a non-negative [int] [n]: what an [int] becomes when it
    is added to or multiplied with a float. *)
Definition float_of_nat (n : nat) : spec_float :=
  binary_normalize 53 1024 (Z.of_nat n) 0 false.

(** The values [0.0] and [1.0], and the literal [0.8], which denotes
    0x1.999999999999ap-1, the binary64 number nearest to 8/10. *)
Definition f_zero : spec_float := S754_zero false.

Definition f_one : spec_float := S754_finite false 4503599627370496 (-52).

Definition f_0_8 : spec_float := S754_finite false 7205759403792794 (-53).

#[global] Instance spec_float_eq_dec : EqDecision spec_float.
Proof. solve_decision. Defined.

Section Sort.
Context {A : Type} (key : A -> spec_float).

(** [l.sort(key=key, reverse=True)] is the interpreter's built-in sort. Its
    contract (a stable sort that compares keys with [<]; with [reverse=True]
    the keys descend and elements with equal keys keep their order) fixes
    the result; the model computes it by insertion: an element moves past
    the elements to its right whose key is strictly greater. *)
Fixpoint insert_desc (x : A) (l : list A) : list A :=
  match l with
  | [] => [x]
  | y :: l' => if SFltb (key x) (key y) then y :: insert_desc x l' else x :: l
  end.

Fixpoint sort_reverse (l : list A) : list A :=
  match l with
  | [] => []
  | x :: l' => insert_desc x (sort_reverse l')
  end.

End Sort.

(** ** app.py: the recommendation route *)

Definition opt_truthy (o : option string) : option string :=
  match o with
  | Some s => if str_truthy s then Some s else None
  | None => None
  end.

(** Lines 154-157: the user's skills, lowercased, from the [UserSkill] rows
    or, when they give nothing, from the free text. *)
Definition user_skill_set (user : User) : gset string :=
  let user_skills : gset string :=
    match u_skills user with
    | [] => ∅
    | _ :: _ =>
        list_to_set (omap (fun s => str_lower <$> opt_truthy (us_name s)) (u_skills user))
    end in
  if decide (user_skills = ∅) then
    match opt_truthy (u_skills_text user) with
    | Some txt => list_to_set (List.map str_lower (split_csv (Some txt)))
    | None => user_skills
    end
  else user_skills.

(** Line 172: [[req.skill.name.lower() for req in career.requirements
    if req.skill and req.skill.name]] *)
Definition career_reqs (career : Career) : list string :=
  omap (fun req =>
          match req_skill req with
          | Some sk => if str_truthy (s_name sk) then Some (str_lower (s_name sk)) else None
          | None => None
          end)
       (c_requirements career).

(** Line 180: [[req.skill.name for req in c.requirements if req.skill]] *)
Definition fallback_reqs (c : Career) : list string :=
  omap (fun req => s_name <$> req_skill req) (c_requirements c).

(** Lines 166-170: [score = 0], then [score += 1.0] for every interest found
    in the lowercased title. The [int] 0 is converted when the first float is
    added to it; it is the float 0.0 from the start here. *)
Definition interest_points (interest_lower : list string) (career : Career) : spec_float :=
  fold_left
    (fun score it =>
       if str_in it (str_lower (c_title career)) then fadd score f_one else score)
    interest_lower f_zero.

Definition skill_overlap (reqs : list string) (user_skills : gset string) : nat :=
  size ((list_to_set reqs : gset string) ∩ user_skills).

(** A candidate is the tuple [(career, reqs, score)]. *)
Definition Candidate : Type := Career * list string * spec_float.

Definition cand_career (x : Candidate) : Career := x.1.1.
Definition cand_reqs (x : Candidate) : list string := x.1.2.
Definition cand_score (x : Candidate) : spec_float := x.2.

(** Lines 166-174: the body of the loop, up to the test. *)
Definition score_career (interest_lower : list string) (user_skills : gset string)
    (career : Career) : list string * nat * spec_float :=
  let score := interest_points interest_lower career in
  let reqs := career_reqs career in
  let overlap := skill_overlap reqs user_skills in
  let score := fadd score (fmul (float_of_nat overlap) f_0_8) in
  (reqs, overlap, score).

(** Line 175: [score > 0 or overlap > 0] *)
Definition qualifies (overlap : nat) (score : spec_float) : bool :=
  SFltb f_zero score || bool_decide (0 < overlap).

(** Lines 164-176, over the rows of [Career.query.all()]. *)
Fixpoint collect_candidates (interest_lower : list string) (user_skills : gset string)
    (all : list Career) : list Candidate :=
  match all with
  | [] => []
  | career :: rest =>
      let '(reqs, overlap, score) := score_career interest_lower user_skills career in
      if qualifies overlap score
      then (career, reqs, score) :: collect_candidates interest_lower user_skills rest
      else collect_candidates interest_lower user_skills rest
  end.

(** Lines 178-183: the fallback to [Career.query.limit(5).all()], whose
    score is the [int] 0, then the sort on the score. *)
Definition recommend_candidates (db : DB) (user : User) : list Candidate :=
  let user_skills := user_skill_set user in
  let interests := split_csv (u_interests user) in
  let interest_lower := List.map str_lower interests in
  let candidates := collect_candidates interest_lower user_skills (careers db) in
  let candidates :=
    match candidates with
    | [] => List.map (fun c => (c, fallback_reqs c, f_zero)) (take 5 (careers db))
    | _ :: _ => candidates
    end in
  sort_reverse cand_score candidates.

(** What [render_template('recommend.html', ...)] receives. [gaps] and
    [roadmaps] are dicts keyed by the career title. *)
Record RecommendContext := mkContext {
  ctx_recs : list Rec;
  ctx_gaps : gmap string (list string);
  ctx_roadmaps : gmap string (list Phase)
}.

(** Line 192: [[r for r in required_skills if r.lower() not in user_skills]] *)
Definition missing_skills_of (user_skills : gset string) (required_skills : list string)
    : list string :=
  List.filter (fun r => negb (bool_decide (str_lower r ∈ user_skills))) required_skills.

(** Lines 186-194. *)
Definition prepare_recs (user_skills : gset string) (candidates : list Candidate)
    : RecommendContext :=
  fold_left
    (fun ctx x =>
       let career := cand_career x in
       let required_skills := cand_reqs x in
       let missing := missing_skills_of user_skills required_skills in
       mkContext
         (ctx_recs ctx ++ [mkRec (c_title career) required_skills])
         (<[ c_title career := missing ]> (ctx_gaps ctx))
         (<[ c_title career := build_roadmap (c_title career) required_skills missing ]>
            (ctx_roadmaps ctx)))
    candidates (mkContext [] ∅ ∅).

(** JSON bodies. *)
#[local] Set Warnings "-register-all".
Inductive json :=
| JNull
| JBool (b : bool)
| JNum (n : nat)
| JStr (s : string)
| JArr (l : list json)
| JObj (fields : list (string * json)).

Inductive response :=
| Jsonify (body : json) (status : nat)
| Render (ctx : RecommendContext)      (* render_template('recommend.html', ...) *)
| NotFound                             (* the 404 of get_or_404 *)
| Raised (exn : string).               (* an exception that no handler catches *)

(** [User.query.get_or_404(user_id)] *)
Definition get_user (db : DB) (user_id : nat) : option User :=
  List.find (fun u => bool_decide (u_id u = user_id)) (users db).

Definition recommend (db : DB) (user_id : nat) : response :=
  match get_user db user_id with
  | None => NotFound
  | Some user => Render (prepare_recs (user_skill_set user) (recommend_candidates db user))
  end.

(** ** app.py: saving a plan *)

(** The request: [request.form] is a multi-dict (a key may repeat);
    [request.json] is the parsed body, [None] when the body is no JSON. *)
Record Request := mkRequest {
  form : list (string * string);
  json_body : option (list (string * string))
}.

Definition multi_get (k : string) (d : list (string * string)) : option string :=
  snd <$> List.find (fun kv => bool_decide (kv.1 = k)) d.

Definition multi_getlist (k : string) (d : list (string * string)) : list string :=
  List.map snd (List.filter (fun kv => bool_decide (kv.1 = k)) d).

(** [request.form.get('career') or request.json and request.json.get('career')],
    then [if not career_title]. *)
Definition requested_career (request : Request) : option string :=
  match opt_truthy (multi_get "career" (form request)) with
  | Some t => Some t
  | None =>
      match json_body request with
      | None | Some [] => None
      | Some d => opt_truthy (multi_get "career" d)
      end
  end.

(** What the database raises at commit; [orig] is the driver's message. *)
Inductive IntegrityError := mkIntegrityError (orig : string).

Definition orig_of (e : IntegrityError) : string :=
  match e with mkIntegrityError m => m end.

(** An integer primary key that is not given takes the largest id of the
    table plus one. *)
Definition next_id (ids : list nat) : nat := S (foldr Nat.max 0%nat ids).

(** [db.session.add(Career(title=...)); db.session.commit()]: the columns a
    constructor is not given are NULL; [title] is declared [nullable=False]. *)
Definition add_career (db : DB) (title : option string)
    : IntegrityError + DB * Career :=
  match title with
  | None => inl (mkIntegrityError "NOT NULL constraint failed: careers.title")
  | Some t =>
      let c := mkCareer (next_id (List.map c_id (careers db))) t [] [] in
      inr (mkDB (users db) (careers db ++ [c]) (plans db) (plan_steps db) (resource_rows db), c)
  end.

(** [Plan.user_id] is declared [nullable=False]. *)
Definition add_plan (db : DB) (user_id career_id : option nat) (title : string)
    : IntegrityError + DB * Plan :=
  match user_id with
  | None => inl (mkIntegrityError "NOT NULL constraint failed: plans.user_id")
  | Some uid =>
      let p := mkPlan (next_id (List.map p_id (plans db))) uid career_id title in
      inr (mkDB (users db) (careers db) (plans db ++ [p]) (plan_steps db) (resource_rows db), p)
  end.

(** [PlanStep.plan_id] is declared [nullable=False]; the table has no other
    constraint. *)
Definition add_plan_step (db : DB) (plan_id : option nat) (title : string)
    (sort_order : nat) : IntegrityError + DB :=
  match plan_id with
  | None => inl (mkIntegrityError "NOT NULL constraint failed: plan_steps.plan_id")
  | Some pid =>
      let st := mkPlanStep (next_id (List.map ps_id (plan_steps db))) pid title sort_order in
      inr (mkDB (users db) (careers db) (plans db) (plan_steps db ++ [st]) (resource_rows db))
  end.

(** Line 233: [[req.skill.name.lower() for req in career.requirements if req.skill]] *)
Definition required_of (career : Career) : list string :=
  omap (fun req => (fun sk => str_lower (s_name sk)) <$> req_skill req)
       (c_requirements career).

Definition step_title (ph_title step : string) : string := ph_title +:+ ": " +:+ step.

(** Lines 238-244, the inner loop: a step whose commit raises is rolled back
    and skipped, and [order] is then not advanced. *)
Fixpoint persist_steps (db : DB) (plan : Plan) (ph_title : string)
    (steps : list string) (order : nat) : DB * nat :=
  match steps with
  | [] => (db, order)
  | step :: rest =>
      match add_plan_step db (Some (p_id plan)) (step_title ph_title step) order with
      | inr db' => persist_steps db' plan ph_title rest (S order)
      | inl _ => persist_steps db plan ph_title rest order
      end
  end.

(** Lines 236-244, the outer loop. *)
Fixpoint persist_phases (db : DB) (plan : Plan) (phases : list Phase) (order : nat)
    : DB * nat :=
  match phases with
  | [] => (db, order)
  | ph :: rest =>
      let '(db', order') := persist_steps db plan (ph_title ph) (ph_steps ph) order in
      persist_phases db' plan rest order'
  end.

Definition project_step_title : string := "Build a small project to demonstrate skills".

Definition failure (message : string) : response :=
  Jsonify (JObj [("success", JBool false); ("message", JStr message)]) 400.

Definition plan_saved (career : Career) (plan : Plan) : response :=
  Jsonify (JObj [("success", JBool true);
                 ("message", JStr ("Plan saved for " +:+ c_title career));
                 ("plan_id", JNum (p_id plan))]) 200.

(** The route returns the response and leaves the database in a new state.
    When the form carries no [missing] field the route evaluates
    [user.user_skills] (line 229), an attribute [User] does not have: the
    request ends in an [AttributeError], after the plan row was committed. *)
Definition save_plan (db : DB) (user_id : nat) (request : Request) : DB * response :=
  match get_user db user_id with
  | None => (db, NotFound)
  | Some user =>
  match requested_career request with
  | None => (db, failure "Career required")
  | Some career_title =>
  let found :=
    match List.find (fun c => bool_decide (c_title c = career_title)) (careers db) with
    | Some career => inr (db, career)
    | None => add_career db (Some career_title)
    end in
  match found with
  | inl e => (db, failure ("Could not create career: " +:+ orig_of e))
  | inr (db, career) =>
  match add_plan db (Some (u_id user)) (Some (c_id career))
                 ("Roadmap for " +:+ c_title career) with
  | inl e => (db, failure ("Could not create plan: " +:+ orig_of e))
  | inr (db, plan) =>
  match multi_getlist "missing" (form request) with
  | [] => (db, Raised "AttributeError")
  | (_ :: _) as missing =>
      let required := required_of career in
      let phases := build_roadmap (c_title career) required missing in
      let '(db, order) := persist_phases db plan phases 1 in
      let db :=
        match add_plan_step db (Some (p_id plan)) project_step_title order with
        | inr db' => db'
        | inl _ => db
        end in
      (db, plan_saved career plan)
  end end end end end.

(** ** app.py: the resource lookup *)

(** SQLite reads the operands of [LIKE] one UTF-8 character at a time: a
    byte of 0xC0 or more begins a character that goes on over the bytes
    0x80..0xBF that follow it; any other byte is a character of its own. *)
Definition is_lead (c : ascii) : bool := (192 <=? nat_of_ascii c)%nat.

Definition is_continuation (c : ascii) : bool :=
  let n := nat_of_ascii c in (128 <=? n)%nat && (n <=? 191)%nat.

Fixpoint skip_continuation (s : string) : string :=
  match s with
  | EmptyString => EmptyString
  | String c s' => if is_continuation c then skip_continuation s' else s
  end.

(** The text after its first character. *)
Definition skip_char (s : string) : string :=
  match s with
  | EmptyString => EmptyString
  | String c s' => if is_lead c then skip_continuation s' else s'
  end.

(** Whether [test] holds of the text or of what is left of it after one or
    more whole characters; [inside] says that the bytes met are still those
    of the character last begun. *)
Fixpoint at_some_char (test : string -> bool) (inside : bool) (s : string) : bool :=
  match s with
  | EmptyString => test EmptyString
  | String d s' =>
      if inside && is_continuation d then at_some_char test true s'
      else test s || at_some_char test (is_lead d) s'
  end.

(** SQL [LIKE] as SQLite evaluates it: [%] stands for any run of
    characters, [_] for any one character, every other character for itself,
    the ASCII letters without regard to case. *)
Fixpoint sql_like (p s : string) : bool :=
  match p with
  | EmptyString => negb (str_truthy s)
  | String c p' =>
      if decide (c = "%"%char) then at_some_char (sql_like p') false s
      else if decide (c = "_"%char) then
        match s with
        | EmptyString => false
        | String _ _ => sql_like p' (skip_char s)
        end
      else
        match s with
        | EmptyString => false
        | String d s' => bool_decide (ascii_lower c = ascii_lower d) && sql_like p' s'
        end
  end.

(** SQLite refuses a pattern of more than 50000 bytes (its
    SQLITE_MAX_LIKE_PATTERN_LENGTH) each time it is asked to match one; the
    statement then fails and the driver raises [OperationalError]. *)
Definition max_like_pattern_length : Z := 50000.

Definition like (text pattern : string) : string + bool :=
  if (max_like_pattern_length <? Z.of_nat (String.length pattern))%Z
  then inl "LIKE or GLOB pattern too complex"
  else inr (sql_like pattern text).

(** [column.ilike(pattern)]: [lower(column) LIKE lower(pattern)], with
    SQLite's [lower], which folds the ASCII letters. *)
Definition ilike (s pattern : string) : string + bool :=
  like (str_lower s) (str_lower pattern).

(** [Career.query.filter(Career.title.ilike(pattern)).first()]: the rows are
    tested in order, up to the first that matches. *)
Fixpoint first_ilike (pattern : string) (rows : list Career) : string + option Career :=
  match rows with
  | [] => inr None
  | c :: rest =>
      match ilike (c_title c) pattern with
      | inl msg => inl msg
      | inr true => inr (Some c)
      | inr false => first_ilike pattern rest
      end
  end.



(** ** app_demo.py

    app_demo.py has its own copy of [build_roadmap], which differs from
    app.py's in the wording of one fixed step, and of [save_plan], which adds
    every step to the session and commits once. Its scoring loop is the text
    of app.py's. *)
Module Demo.

Definition apply_phase : Phase :=
  mkPhase "Apply & Iterate"
    [ "Set a weekly target: 5 tailored applications + 1 coffee chat.";
      "Mock interviews weekly; keep a log of weak areas and revisit notes.";
      "Iterate projects based on feedback; ship small improvements weekly." ].

Definition build_roadmap (career_title : string)
    (required_skills missing_skills : list string) : list Phase :=
  let phases := [] in
  let phases :=
    match missing_skills with
    | [] => phases
    | _ :: _ => phases ++ [mkPhase "Foundations" (List.map foundation_step missing_skills)]
    end in
  let core_steps := List.map core_step required_skills in
  let phases := phases ++ [mkPhase "Core Practice" core_steps] in
  let phases := phases ++ [projects_phase] in
  let phases := phases ++ [portfolio_phase] in
  let phases := phases ++ [apply_phase] in
  phases.

(** A row added to the session and not yet committed. *)
Definition Pending : Type := option nat * string * nat.

(** Lines 190-194: the rows are queued, [order] advances at every step. *)
Fixpoint queue_steps (pending : list Pending) (plan : Plan) (ph_title : string)
    (steps : list string) (order : nat) : list Pending * nat :=
  match steps with
  | [] => (pending, order)
  | step :: rest =>
      queue_steps (pending ++ [(Some (p_id plan), step_title ph_title step, order)])
                  plan ph_title rest (S order)
  end.

Fixpoint queue_phases (pending : list Pending) (plan : Plan) (phases : list Phase)
    (order : nat) : list Pending * nat :=
  match phases with
  | [] => (pending, order)
  | ph :: rest =>
      let '(pending', order') := queue_steps pending plan (ph_title ph) (ph_steps ph) order in
      queue_phases pending' plan rest order'
  end.

(** [db.session.commit()] of the queued rows: all of them, or none. *)
Fixpoint commit_steps (db : DB) (pending : list Pending) : IntegrityError + DB :=
  match pending with
  | [] => inr db
  | (plan_id, title, sort_order) :: rest =>
      match add_plan_step db plan_id title sort_order with
      | inl e => inl e
      | inr db' => commit_steps db' rest
      end
  end.

Definition save_plan (db : DB) (user_id : nat) (request : Request) : DB * response :=
  match get_user db user_id with
  | None => (db, NotFound)
  | Some user =>
  match requested_career request with
  | None => (db, failure "Career required")
  | Some career_title =>
  let found :=
    match List.find (fun c => bool_decide (c_title c = career_title)) (careers db) with
    | Some career => inr (db, career)
    | None => add_career db (Some career_title)
    end in
  match found with
  | inl e => (db, Raised "IntegrityError")
  | inr (db, career) =>
  match add_plan db (Some (u_id user)) (Some (c_id career))
                 ("Roadmap for " +:+ c_title career) with
  | inl e => (db, Raised "IntegrityError")
  | inr (db, plan) =>
  match multi_getlist "missing" (form request) with
  | [] => (db, Raised "AttributeError")
  | (_ :: _) as missing =>
      let required := required_of career in
      let phases := build_roadmap (c_title career) required missing in
      let '(pending, order) := queue_phases [] plan phases 1 in
      let pending := pending ++ [(Some (p_id plan), project_step_title, order)] in
      match commit_steps db pending with
      | inl e => (db, Raised "IntegrityError")
      | inr db' => (db', plan_saved career plan)
      end
  end end end end end.

End Demo.

(** ** build_roadmap as the interpreter runs it

    The definitions above take the arguments of [build_roadmap] at their
    annotated types. Here the function is the one Python runs: the list
    arguments are objects, a step can raise, and the call executes against
    the module's global [SKILL_RESOURCES], which it could change. *)
Module Py.

(** An item of a list argument: a string, or [None] in its place. *)
Inductive item := INone | IStr (s : string).

(** A list argument: a list, or [None] in its place. *)
Inductive arg := ANone | AList (items : list item).

Inductive exn := TypeError (msg : string) | AttributeError (msg : string).

(** The global [SKILL_RESOURCES]. *)
Definition Globals : Type := gmap string (list string).

(** A computation: from the globals to a result or an exception, and the
    globals it leaves. *)
Definition M (A : Type) : Type := Globals -> (exn + A) * Globals.

#[global] Instance M_ret : MRet M := fun A (a : A) g => (inr a, g).

#[global] Instance M_bind : MBind M :=
  fun A B (f : A -> M B) (m : M A) g =>
    match m g with
    | (inl e, g') => (inl e, g')
    | (inr a, g') => f a g'
    end.

Definition raise {A : Type} (e : exn) : M A := fun g => (inl e, g).

(** [bool(x)] of a list argument *)
Definition truthy (a : arg) : bool :=
  match a with
  | ANone | AList [] => false
  | AList (_ :: _) => true
  end.

(** [iter(x)]: what a [for] loop runs over. *)
Definition iter (a : arg) : M (list item) :=
  match a with
  | AList items => mret items
  | ANone => raise (TypeError "'NoneType' object is not iterable")
  end.

(** [s.lower()] *)
Definition lower (s : item) : M string :=
  match s with
  | IStr s => mret (str_lower s)
  | INone => raise (AttributeError "'NoneType' object has no attribute 'lower'")
  end.

(** [SKILL_RESOURCES.get(key, default)]: a read; [SKILL_RESOURCES[key]]
    would raise on a missing key. *)
Definition resources_get (key : string) (dflt : list string) : M (list string) :=
  fun g => (inr (default dflt (g !! key)), g).

(** [f"{s}"] *)
Definition format (s : item) : string :=
  match s with
  | IStr s => s
  | INone => "None"
  end.

(** Lines 24-26, the body of the first loop. *)
Definition foundation_step (s : item) : M string :=
  key ← lower s;
  names ← resources_get key [];
  let res := str_or (str_join " • " (take 2 names)) "Pick a beginner resource" in
  mret ("Learn the basics of " +:+ format s +:+ " (2–3 weeks). Suggested: " +:+ res +:+ ".").

Definition core_step (s : item) : string :=
  "Do 3–5 medium practice sets for " +:+ format s +:+ ". Summarize notes in a wiki/notion.".

Definition build_roadmap (career_title : item) (required_skills missing_skills : arg)
    : M (list Phase) :=
  let phases := [] in
  phases ←
    (if truthy missing_skills then
       items ← iter missing_skills;
       steps ← mapM foundation_step items;
       mret (phases ++ [mkPhase "Foundations" steps])
     else mret phases);
  items ← iter required_skills;
  let phases := phases ++ [mkPhase "Core Practice" (List.map core_step items)] in
  let phases := phases ++ [projects_phase] in
  let phases := phases ++ [portfolio_phase] in
  let phases := phases ++ [apply_phase] in
  mret phases.

End Py.

(** ** Observations used in the statements *)

(** The step lists of the phases that carry a given title. *)
Definition steps_titled (t : string) (phases : list Phase) : list (list string) :=
  List.map ph_steps (List.filter (fun ph => bool_decide (ph_title ph = t)) phases).

(** The names behind the user's skill set, before case folding: those of
    the [UserSkill] rows or, when they give none, the entries of the free
    text. *)
Definition user_skill_names (user : User) : list string :=
  match omap (fun s => opt_truthy (us_name s)) (u_skills user) with
  | [] => split_csv (u_skills_text user)
  | (_ :: _) as names => names
  end.

(** The names of the skills a career requires, before case folding. *)
Definition skill_names (career : Career) : list string :=
  omap (fun req =>
          match req_skill req with
          | Some sk => opt_truthy (Some (s_name sk))
          | None => None
          end)
       (c_requirements career).

(** The score as the specification words it: the number of the user's
    interests that are a case-insensitive substring of the title, times 1.0,
    plus the size of the intersection of the required and the user's skills,
    both case-folded, times 0.8. *)
Definition interest_matches (user : User) (career : Career) : nat :=
  length (List.filter (fun it => str_in (str_lower it) (str_lower (c_title career)))
                      (split_csv (u_interests user))).

Definition overlap_of (user : User) (career : Career) : nat :=
  size ((list_to_set (str_lower <$> skill_names career) : gset string)
          ∩ list_to_set (str_lower <$> user_skill_names user)).

Definition score_of (user : User) (career : Career) : spec_float :=
  fadd (fmul (float_of_nat (interest_matches user career)) f_one)
       (fmul (float_of_nat (overlap_of user career)) f_0_8).

(** The score the loop of the route computes for a career. *)
Definition career_score (user : User) (career : Career) : spec_float :=
  (score_career (List.map str_lower (split_csv (u_interests user)))
                (user_skill_set user) career).2.

(** The names of the skills a career's requirement rows point to, as they
    are stored, in row order. *)
Definition required_names (career : Career) : list string :=
  omap (fun req => s_name <$> req_skill req) (c_requirements career).

(** The required skills the route lists for a career: the names that are
    not empty, lowercased, when some career of the catalog qualifies; the
    names as they are stored when none does and the first careers of the
    catalog are listed instead. *)
Definition listed_requirements (db : DB) (user : User) (career : Career) : list string :=
  match List.filter (fun c => qualifies (overlap_of user c) (career_score user c))
                    (careers db) with
  | [] => required_names career
  | _ :: _ => str_lower <$> List.filter str_truthy (required_names career)
  end.

(** Whether a required skill is missing: its lowercase form is not that of
    any of the user's skills. *)
Definition lacks (user : User) (r : string) : bool :=
  bool_decide (str_lower r ∉ str_lower <$> user_skill_names user).

(** [1.0] added [n] times to [0.0]. *)
Definition add_ones (n : nat) : spec_float := Nat.iter n (fun s => fadd s f_one) f_zero.

(** A float that is not NaN and not negative. *)
Definition nonneg_float (x : spec_float) : bool :=
  match x with
  | S754_zero false | S754_infinity false | S754_finite false _ _ => true
  | _ => false
  end.

(** A mantissa followed by [j] zero bits, and [float(p)] for a positive [p]. *)
Definition pshl (q : positive) (j : nat) : positive := Nat.iter j xO q.

Definition float_of_pos (p : positive) : spec_float := binary_round 53 1024 false p 0.

(** The candidates of the route before line 183 sorts them. *)
Definition unsorted_candidates (db : DB) (user : User) : list Candidate :=
  let user_skills := user_skill_set user in
  let interest_lower := List.map str_lower (split_csv (u_interests user)) in
  let candidates := collect_candidates interest_lower user_skills (careers db) in
  match candidates with
  | [] => List.map (fun c => (c, fallback_reqs c, f_zero)) (take 5 (careers db))
  | _ :: _ => candidates
  end.

Definition has_score (s : spec_float) (x : Candidate) : bool :=
  bool_decide (cand_score x = s).

(** Whether an interest matches a key of [CAREER_MAP]: as the loop of
    [get_recommendations] tests it, on the interest lowercased and stripped,
    and as a plain case-insensitive test on the interest as given. *)
Definition key_matches (it k : string) : bool :=
  let key := str_strip (str_lower it) in str_in k key || str_in key k.

Definition key_matches_unstripped (it k : string) : bool :=
  str_in k (str_lower it) || str_in (str_lower it) k.

Definition cand_title (x : Candidate) : string := c_title (cand_career x).

(** The database with rows appended to [plan_steps]. *)
Definition with_plan_steps (db : DB) (rows : list PlanStep) : DB :=
  mkDB (users db) (careers db) (plans db) (plan_steps db ++ rows) (resource_rows db).

(** The flattened phase/step sequence of a roadmap, as step titles. *)
Definition flat_titles (phases : list Phase) : list string :=
  List.flat_map (fun ph => List.map (step_title (ph_title ph)) (ph_steps ph)) phases.

(** What a successful [save_plan] leaves behind, for a given roadmap
    generator: the rows appended to [plan_steps] belong to the new plan, carry
    the flattened steps of the roadmap followed by the fixed project step, and
    are numbered 1, 2, 3, ... in that order. *)
Definition steps_persisted
    (roadmap : string -> list string -> list string -> list Phase)
    (db db' : DB) (request : Request) (resp : response) : Prop :=
  ∃ (career : Career) (plan : Plan) (rows : list PlanStep),
    let missing := multi_getlist "missing" (form request) in
    let titles := flat_titles (roadmap (c_title career) (required_of career) missing) in
    requested_career request = Some (c_title career) ∧
    career ∈ careers db' ∧
    plan ∈ plans db' ∧
    resp = plan_saved career plan ∧
    plan_steps db' = plan_steps db ++ rows ∧
    ps_plan_id <$> rows = replicate (S (length titles)) (p_id plan) ∧
    ps_title <$> rows = titles ++ [project_step_title] ∧
    ps_sort_order <$> rows = seq 1 (S (length titles)) ∧
    StronglySorted lt (ps_sort_order <$> rows).





(** ** Sample data *)

Definition fresh_user : User := mkUser 1 None None [].

Definition nurse : Career := mkCareer 1 "Nurse" [] [].

Definition one_career_db : DB := mkDB [fresh_user] [nurse] [] [] [].

(** Two careers under one title, and a user who has the only skill the first
    of them requires. *)
Definition python_user : User := mkUser 1 (Some "analyst") (Some "python") [].

Definition analyst_a : Career := mkCareer 1 "Analyst" [mkReq (Some (mkSkill "python"))] [].

Definition analyst_b : Career := mkCareer 2 "Analyst" [mkReq (Some (mkSkill "sql"))] [].

Definition twin_db : DB := mkDB [python_user] [analyst_a; analyst_b] [] [] [].

(** A request to save a plan for a career that is not in the catalog yet. *)
Definition midwife_request : Request :=
  mkRequest [("career", "Midwife"); ("missing", "anatomy"); ("missing", "SQL")] None.






(** The example of the specification: one interest, one skill, one career. *)
Definition software_engineer : Career :=
  mkCareer 1 "Software Engineer"
    [mkReq (Some (mkSkill "python")); mkReq (Some (mkSkill "data-structures"));
     mkReq (Some (mkSkill "algorithms"))] [].

Definition programmer : User := mkUser 1 (Some "programming") (Some "python") [].

Definition seeded_db : DB := mkDB [programmer] [software_engineer] [] [] [].

Definition data_analyst : Rec := mkRec "Data Analyst" ["python"; "sql"; "statistics"].

(** ** Further observations *)

(** The characters of a string, and a string made of white space only. *)
Definition chars (s : string) : list ascii := list_ascii_of_string s.

Definition is_blank (s : string) : bool := forallb is_space (chars s).

(** A text of ASCII characters only: the texts on which [str_strip] and
    [str_lower] are Python's [strip] and [lower]. *)
Definition ascii_text (s : string) : Prop :=
  Forall (fun c => (nat_of_ascii c < 128)%nat) (chars s).

(** An entry as [split_csv] returns it: not empty, without a comma, without
    white space at either end. *)
Definition clean_entry (s : string) : Prop :=
  s ≠ EmptyString ∧ str_strip s = s ∧ ","%char ∉ chars s.

(** A text that does not begin with white space. *)
Definition starts_tight (s : string) : Prop :=
  match s with EmptyString => True | String c _ => is_space c = false end.

(** The entries of [", ".join(l)]: a space before every entry but the first. *)
Definition pad_tail (l : list string) : list string :=
  match l with
  | [] => []
  | x :: xs => x :: (String " " <$> xs)
  end.

(** A comma or a white space character. *)
Definition blank_or_comma (c : ascii) : bool := bool_decide (c = ","%char) || is_space c.

(** The user's skills as [skill_gap] normalises them. *)
Definition gap_user (user_skills : list string) : list string :=
  (fun s => str_strip (str_lower s)) <$> user_skills.

(** A career matches a user when one of the user's interests is in its
    title or one of its required skills is among the user's, case folded. *)
Definition matched (user : User) (career : Career) : Prop :=
  0 < interest_matches user career ∨ 0 < overlap_of user career.

(** The user with every text lowercased. *)
Definition lower_user (user : User) : User :=
  mkUser (u_id user) (str_lower <$> u_interests user) (str_lower <$> u_skills_text user)
         ((fun s => mkUserSkill (str_lower <$> us_name s)) <$> u_skills user).

(** The primary keys of the three tables [save_plan] writes to are pairwise
    distinct within each table. *)
Definition keys_unique (db : DB) : Prop :=
  NoDup (c_id <$> careers db) ∧ NoDup (p_id <$> plans db) ∧ NoDup (ps_id <$> plan_steps db).

(** The first career with a given title: [Career.query.filter(Career.title == t).first()] *)
Definition career_titled (db : DB) (t : string) : option Career :=
  List.find (fun c => bool_decide (c_title c = t)) (careers db).


(** ** models.py: the tables behind the profile and the accounts

    The routes below write to [users] and [user_skills], so these tables are
    kept as rows of columns. [user.skills] is the relationship: the rows of
    [user_skills] that carry the user's id. *)

Record UserRow := mkUserRow {
  ur_id : nat;
  ur_name : option string;
  ur_interests : option string;
  ur_skills_text : option string;
  ur_email : option string;            (* unique=True *)
  ur_password_hash : option string
}.

Record SkillRow := mkSkillRow { sr_id : nat; sr_name : string }.

Record UserSkillRow := mkUserSkillRow {
  usr_id : nat;
  usr_user_id : nat;                   (* nullable=False *)
  usr_skill_id : option nat;
  usr_name : option string
}.

Record Tables := mkTables {
  user_rows : list UserRow;
  skill_rows : list SkillRow;
  user_skill_rows : list UserSkillRow
}.

Definition skills_of (tb : Tables) (user_id : nat) : list UserSkillRow :=
  List.filter (fun r => bool_decide (usr_user_id r = user_id)) (user_skill_rows tb).

(** The [User] object the ORM builds from a row. *)
Definition load_user (tb : Tables) (row : UserRow) : User :=
  mkUser (ur_id row) (ur_interests row) (ur_skills_text row)
         ((fun r => mkUserSkill (usr_name r)) <$> skills_of tb (ur_id row)).

(** The database as [recommend] and [save_plan] see it. *)
Definition orm (tb : Tables) (db : DB) : DB :=
  mkDB (load_user tb <$> user_rows tb) (careers db) (plans db) (plan_steps db)
       (resource_rows db).

(** ** app.py: the session, the profile and the accounts *)

(** The two keys the routes keep in the session; [user_name] holds
    [user.name], which may be [None]. *)
Record Session := mkSession {
  sess_user_id : option nat;
  sess_user_name : option (option string)
}.

(** [session.clear()] *)
Definition session_clear : Session := mkSession None None.

Inductive method := GET | POST.

Inductive reply :=
| Redirect (endpoint : string) (user_id : option nat)  (* redirect(url_for(endpoint, ...)) *)
| Template (name : string) (args : list (string * string))  (* render_template *)
| Text (body : string) (status : nat)
| BadRequest                            (* the 400 of request.form[key] on a missing key *)
| Failed (exn : string).                (* an exception that no handler catches *)

(** What a request leaves behind: the tables, the session, the messages
    flashed (category, message) and the reply. *)
Record Outcome := mkOutcome {
  o_tables : Tables;
  o_session : Session;
  o_flashed : list (string * string);
  o_reply : reply
}.

(** [request.form.get(k, '')] *)
Definition form_get (k : string) (form : list (string * string)) : string :=
  default EmptyString (multi_get k form).

(** [User.query.get(id)] *)
Definition find_user (tb : Tables) (id : nat) : option UserRow :=
  List.find (fun u => bool_decide (ur_id u = id)) (user_rows tb).

(** [User.query.filter_by(email=email).first()] *)
Definition user_by_email (tb : Tables) (email : string) : option UserRow :=
  List.find (fun u => bool_decide (ur_email u = Some email)) (user_rows tb).

(** [Skill.query.filter_by(name=name).first()] *)
Definition skill_named (tb : Tables) (name : string) : option SkillRow :=
  List.find (fun s => bool_decide (sr_name s = name)) (skill_rows tb).

(** Lines 110-114: the three assignments and the commit. *)
Definition set_profile (tb : Tables) (id : nat) (name interests skills : string) : Tables :=
  mkTables
    (List.map (fun u =>
                 if bool_decide (ur_id u = id)
                 then mkUserRow (ur_id u) (Some name) (Some interests) (Some skills)
                                (ur_email u) (ur_password_hash u)
                 else u)
              (user_rows tb))
    (skill_rows tb) (user_skill_rows tb).

(** [UserSkill.query.filter_by(user_id=id).delete()] *)
Definition delete_user_skills (tb : Tables) (id : nat) : Tables :=
  mkTables (user_rows tb) (skill_rows tb)
           (List.filter (fun r => negb (bool_decide (usr_user_id r = id)))
                        (user_skill_rows tb)).

Definition add_user_skill (tb : Tables) (user_id skill_id : option nat)
    (name : option string) : IntegrityError + Tables :=
  match user_id with
  | None => inl (mkIntegrityError "NOT NULL constraint failed: user_skills.user_id")
  | Some uid =>
      let row := mkUserSkillRow (next_id (List.map usr_id (user_skill_rows tb)))
                                uid skill_id name in
      inr (mkTables (user_rows tb) (skill_rows tb) (user_skill_rows tb ++ [row]))
  end.

(** Lines 122-129: one [UserSkill] per entry; a commit that raises is rolled
    back and the entry skipped. *)
Fixpoint store_skills (tb : Tables) (user_id : nat) (entries : list string) : Tables :=
  match entries with
  | [] => tb
  | s :: rest =>
      let sk := skill_named tb (str_lower s) in
      match add_user_skill tb (Some user_id) (sr_id <$> sk) (Some s) with
      | inr tb' => store_skills tb' user_id rest
      | inl _ => store_skills tb user_id rest
      end
  end.

Definition profile (tb : Tables) (session : Session) (meth : method)
    (form : list (string * string)) : Outcome :=
  match sess_user_id session with
  | None => mkOutcome tb session [] (Redirect "login" None)
  | Some uid =>
  match find_user tb uid with
  | None => mkOutcome tb session_clear [] (Redirect "login" None)
  | Some user =>
  match meth with
  | POST =>
      let name := str_strip (form_get "name" form) in
      let interests := str_strip (form_get "interests" form) in
      let skills := str_strip (form_get "skills" form) in
      if negb (str_truthy name) then mkOutcome tb session [] (Text "Name required" 400)
      else
        let tb := set_profile tb (ur_id user) name interests skills in
        let tb := delete_user_skills tb (ur_id user) in
        let tb := store_skills tb (ur_id user) (split_csv (Some skills)) in
        mkOutcome tb session [] (Redirect "recommend" (Some (ur_id user)))
  | GET =>
      mkOutcome tb session []
        (Template "profile.html"
           [("name", default EmptyString (ur_name user));
            ("interests", default EmptyString (ur_interests user));
            ("skills", default EmptyString (ur_skills_text user))])
  end end end.

(** [handle_integrity_error]: the handler app.py registers for an
    [IntegrityError] that a route lets through; the transaction is rolled
    back. *)
Definition handle_integrity_error (err : IntegrityError) : reply :=
  Text ("Database integrity error (likely a duplicate or missing required field). "
        +:+ "Please go back and try again. Technical detail: " +:+ orig_of err) 500.

(** [db.session.add(User(name=..., email=..., password_hash=...)); commit]:
    [email] is declared unique. *)
Definition email_taken (tb : Tables) (email : option string) : bool :=
  match email with
  | Some e => bool_decide (Some e ∈ ur_email <$> user_rows tb)
  | None => false                      (* NULLs do not collide *)
  end.

Definition add_user (tb : Tables) (name email password_hash : option string)
    : IntegrityError + Tables :=
  if email_taken tb email
  then inl (mkIntegrityError "UNIQUE constraint failed: users.email")
  else
    let row := mkUserRow (next_id (List.map ur_id (user_rows tb))) name None None
                         email password_hash in
    inr (mkTables (user_rows tb ++ [row]) (skill_rows tb) (user_skill_rows tb)).

Definition flash (message : string) : string * string := ("message", message).

Section Accounts.

(** werkzeug's [generate_password_hash] draws a random salt; the salt is an
    argument here. [check_password_hash] takes the stored hash and the
    password. *)
Variable generate_password_hash : string -> string -> string.
Variable check_password_hash : string -> string -> bool.

Definition signup (tb : Tables) (session : Session) (meth : method)
    (form : list (string * string)) (salt : string) : Outcome :=
  match meth with
  | POST =>
      let name := str_strip (form_get "name" form) in
      let email := str_lower (str_strip (form_get "email" form)) in
      let password := form_get "password" form in
      if negb (str_truthy name) || negb (str_truthy email) || negb (str_truthy password)
      then mkOutcome tb session [flash "All fields are required."] (Redirect "signup" None)
      else
        match user_by_email tb email with
        | Some _ =>
            mkOutcome tb session [flash "Email already registered. Please log in."]
                      (Redirect "login" None)
        | None =>
            let hashed_pw := generate_password_hash salt password in
            match add_user tb (Some name) (Some email) (Some hashed_pw) with
            | inl err => mkOutcome tb session [] (handle_integrity_error err)
            | inr tb' =>
                mkOutcome tb' session [flash "Account created successfully. Please log in."]
                          (Redirect "login" None)
            end
        end
  | GET => mkOutcome tb session [] (Template "signup.html" [])
  end.

Definition register (tb : Tables) (session : Session) (meth : method)
    (form : list (string * string)) (salt : string) : Outcome :=
  match meth with
  | POST =>
      match multi_get "name" form, multi_get "email" form, multi_get "password" form with
      | Some name, Some email, Some password =>
          match user_by_email tb email with
          | Some _ =>
              mkOutcome tb session
                [flash "Email already registered. Please log in.";
                 ("success", "Account created successfully! Please log in.");
                 ("error", "Email already registered. Please log in.")]
                (Redirect "login" None)
          | None =>
              let hashed_password := generate_password_hash salt password in
              match add_user tb (Some name) (Some email) (Some hashed_password) with
              | inl err => mkOutcome tb session [] (handle_integrity_error err)
              | inr tb' =>
                  mkOutcome tb' session [flash "Account created successfully! Please log in."]
                            (Redirect "login" None)
              end
          end
      | _, _, _ => mkOutcome tb session [] BadRequest
      end
  | GET => mkOutcome tb session [] (Template "signup.html" [])
  end.

(** [check_password_hash(None, password)] raises: the hash is split as a
    string. *)
Definition login (tb : Tables) (session : Session) (meth : method)
    (form : list (string * string)) : Outcome :=
  match meth with
  | POST =>
      match multi_get "email" form, multi_get "password" form with
      | Some email, Some password =>
          let invalid :=
            mkOutcome tb session [flash "Invalid email or password. Please try again."]
                      (Redirect "login" None) in
          match user_by_email tb email with
          | Some user =>
              match ur_password_hash user with
              | None => mkOutcome tb session [] (Failed "AttributeError")
              | Some pwhash =>
                  if check_password_hash pwhash password
                  then mkOutcome tb (mkSession (Some (ur_id user)) (Some (ur_name user))) []
                                 (Redirect "profile" None)
                  else invalid
              end
          | None => invalid
          end
      | _, _ => mkOutcome tb session [] BadRequest
      end
  | GET => mkOutcome tb session [] (Template "login.html" [])
  end.

End Accounts.

Definition logout (tb : Tables) (session : Session) : Outcome :=
  mkOutcome tb session_clear [flash "You have been logged out."] (Redirect "login" None).

(** A user with one stored skill, logged in, and the form they post. *)
Definition ada_row : UserRow :=
  mkUserRow 1 (Some "Ada") None None (Some "ada@example.org") (Some "secret").

Definition sample_tables : Tables :=
  mkTables [ada_row] [mkSkillRow 7 "python"] [mkUserSkillRow 1 1 None (Some "cobol")].

Definition ada_session : Session := mkSession (Some 1) (Some (Some "Ada")).

Definition ada_form : list (string * string) :=
  [("name", "Ada"); ("interests", "Data"); ("skills", " Python, SQL ")].

(** A stand-in for werkzeug's pair of functions, for examples: the hash is
    the password itself, whatever the salt. *)
Definition plain_hash (salt password : string) : string := password.

Definition plain_check (pwhash password : string) : bool := bool_decide (pwhash = password).

Definition grace_form : list (string * string) :=
  [("name", " Grace "); ("email", " Grace@Example.org"); ("password", "cobol")].

(** ** app_demo.py: the profile and the recommendation route

    app_demo.py has no accounts: every profile POST creates a user. It
    builds [UserSkill] with a keyword [proficiency], which the model does not
    declare (the column is [proficiency_level]), and its [recommend] reads
    [user.user_skills], which [User] does not declare. *)
Module DemoPages.

(** [db.session.add(User(name=..., interests=..., skills_text=...)); commit] *)
Definition add_profile (tb : Tables) (name interests skills : string) : Tables * UserRow :=
  let user := mkUserRow (next_id (List.map ur_id (user_rows tb)))
                        (Some name) (Some interests) (Some skills) None None in
  (mkTables (user_rows tb ++ [user]) (skill_rows tb) (user_skill_rows tb), user).

(** Lines 84-105. The loop over the entries stops at the first one: the
    constructor of [UserSkill] raises [TypeError], after the user was
    committed. *)
Definition profile (tb : Tables) (meth : method) (form : list (string * string))
    : Tables * reply :=
  match meth with
  | POST =>
      let name := str_strip (form_get "name" form) in
      let interests := str_strip (form_get "interests" form) in
      let skills := str_strip (form_get "skills" form) in
      if negb (str_truthy name) then (tb, Text "Name required" 400)
      else
        let '(tb, user) := add_profile tb name interests skills in
        match split_csv (Some skills) with
        | [] => (tb, Redirect "recommend" (Some (ur_id user)))
        | _ :: _ => (tb, Failed "TypeError")
        end
  | GET => (tb, Template "profile.html" [])
  end.

(** Lines 109-113: [get_or_404], then [user.user_skills]. *)
Definition recommend (db : DB) (user_id : nat) : response :=
  match get_user db user_id with
  | None => NotFound
  | Some user => Raised "AttributeError"
  end.

End DemoPages.

(** ** seed_db.py

    The script fills [skills], [careers], [career_skills] and [resources].
    Rows added to the session are seen by the queries that follow (the
    session flushes before a query), so adding a row is appending it. *)

Record CareerRow := mkCareerRow { cr_id : nat; cr_title : string }.

Record ReqRow := mkReqRow { rq_id : nat; rq_career_id : nat; rq_skill_id : nat }.

Record ResourceRow := mkResourceRow { rs_id : nat; rs_title : string; rs_url : option string }.

Record Catalog := mkCatalog {
  cat_skills : list SkillRow;
  cat_careers : list CareerRow;
  cat_reqs : list ReqRow;
  cat_resources : list ResourceRow
}.

(** [db.drop_all(); db.create_all()] *)
Definition empty_catalog : Catalog := mkCatalog [] [] [] [].

Definition find_skill (cat : Catalog) (name : string) : option SkillRow :=
  List.find (fun s => bool_decide (sr_name s = name)) (cat_skills cat).

Definition find_career (cat : Catalog) (title : string) : option CareerRow :=
  List.find (fun c => bool_decide (cr_title c = title)) (cat_careers cat).

Definition find_req (cat : Catalog) (career_id skill_id : nat) : option ReqRow :=
  List.find (fun r => bool_decide (rq_career_id r = career_id)
                      && bool_decide (rq_skill_id r = skill_id)) (cat_reqs cat).

Definition find_resource (cat : Catalog) (title : string) : option ResourceRow :=
  List.find (fun r => bool_decide (rs_title r = title)) (cat_resources cat).

Definition get_or_create_skill (cat : Catalog) (name : string) : Catalog * SkillRow :=
  match find_skill cat name with
  | Some s => (cat, s)
  | None =>
      let s := mkSkillRow (next_id (List.map sr_id (cat_skills cat))) name in
      (mkCatalog (cat_skills cat ++ [s]) (cat_careers cat) (cat_reqs cat)
                 (cat_resources cat), s)
  end.

(** [Career(title=title, overview=overview)] raises [TypeError], [Career]
    having no column [overview]; the row is built from the title alone. *)
Definition get_or_create_career (cat : Catalog) (title : string) : Catalog * CareerRow :=
  match find_career cat title with
  | Some c => (cat, c)
  | None =>
      let c := mkCareerRow (next_id (List.map cr_id (cat_careers cat))) title in
      (mkCatalog (cat_skills cat) (cat_careers cat ++ [c]) (cat_reqs cat)
                 (cat_resources cat), c)
  end.

(** The constructor given [importance], [level] and [notes] raises
    [TypeError]; the row is built from the two ids alone. The importance is
    written in tenths here. *)
Definition ensure_req (cat : Catalog) (career : CareerRow) (skill : SkillRow)
    (importance : nat) (level : string) : Catalog :=
  match find_req cat (cr_id career) (sr_id skill) with
  | Some _ => cat
  | None =>
      let r := mkReqRow (next_id (List.map rq_id (cat_reqs cat))) (cr_id career)
                        (sr_id skill) in
      mkCatalog (cat_skills cat) (cat_careers cat) (cat_reqs cat ++ [r]) (cat_resources cat)
  end.

(** [Resource] has no columns [resource_type], [provider], [description]:
    the first constructor raises [TypeError] and the row is built from the
    title and the url. *)
Definition add_resource_safe (cat : Catalog) (title : string) (url : option string)
    (rtype provider : string) : Catalog * ResourceRow :=
  match find_resource cat title with
  | Some r => (cat, r)
  | None =>
      let r := mkResourceRow (next_id (List.map rs_id (cat_resources cat))) title url in
      (mkCatalog (cat_skills cat) (cat_careers cat) (cat_reqs cat)
                 (cat_resources cat ++ [r]), r)
  end.

(** [Resource] has neither [skills] nor [careers]: both [hasattr] tests fail
    and the two link functions do nothing. *)
Definition link_resource_to_skill (cat : Catalog) (resource : ResourceRow)
    (skill : SkillRow) : Catalog := cat.

Definition link_resource_to_career (cat : Catalog) (resource : ResourceRow)
    (career : CareerRow) : Catalog := cat.

Definition SKILLS : list string :=
  [ "python"; "java"; "javascript"; "html"; "css"; "react"; "node"; "data-structures";
    "algorithms"; "git"; "linux";
    "sql"; "statistics"; "data-analysis"; "machine-learning"; "deep-learning"; "pandas";
    "numpy"; "powerbi"; "tableau";
    "aws"; "docker"; "kubernetes"; "bash";
    "networking"; "security-basics";
    "figma"; "design-principles"; "ux-research";
    "communication"; "problem-solving"; "spreadsheets" ].

(** A requirement: the skill, its importance in tenths, the level. *)
Definition ReqSpec : Type := string * nat * string.

Definition CAREERS : list (string * list ReqSpec) :=
  [ ("Software Engineer",
     [ ("python", 10, "intermediate"); ("java", 7, "intermediate");
       ("data-structures", 10, "intermediate"); ("algorithms", 10, "intermediate");
       ("git", 8, "intermediate"); ("linux", 6, "beginner") ]);
    ("Front-end Developer",
     [ ("html", 10, "intermediate"); ("css", 10, "intermediate");
       ("javascript", 10, "intermediate"); ("react", 9, "beginner");
       ("git", 7, "beginner"); ("design-principles", 5, "beginner") ]);
    ("Back-end Developer",
     [ ("python", 10, "intermediate"); ("node", 8, "beginner");
       ("sql", 10, "intermediate"); ("data-structures", 9, "intermediate");
       ("linux", 8, "beginner"); ("docker", 6, "beginner") ]);
    ("Data Analyst",
     [ ("sql", 10, "intermediate"); ("spreadsheets", 10, "intermediate");
       ("data-analysis", 10, "intermediate"); ("statistics", 9, "beginner");
       ("powerbi", 7, "beginner"); ("tableau", 7, "beginner");
       ("python", 6, "beginner") ]);
    ("Data Scientist",
     [ ("python", 10, "intermediate"); ("statistics", 10, "intermediate");
       ("machine-learning", 10, "intermediate"); ("pandas", 9, "intermediate");
       ("numpy", 9, "intermediate"); ("sql", 8, "beginner");
       ("deep-learning", 7, "beginner") ]);
    ("ML Engineer",
     [ ("python", 10, "intermediate"); ("machine-learning", 10, "intermediate");
       ("deep-learning", 9, "beginner"); ("docker", 7, "beginner");
       ("aws", 7, "beginner"); ("data-structures", 8, "intermediate") ]);
    ("Cloud Engineer",
     [ ("aws", 10, "beginner"); ("linux", 9, "intermediate");
       ("docker", 8, "beginner"); ("kubernetes", 8, "beginner");
       ("bash", 7, "beginner"); ("networking", 7, "beginner") ]);
    ("Cybersecurity Analyst",
     [ ("security-basics", 10, "beginner"); ("networking", 10, "beginner");
       ("linux", 8, "beginner"); ("bash", 7, "beginner"); ("python", 6, "beginner") ]);
    ("Business Analyst",
     [ ("spreadsheets", 10, "intermediate"); ("sql", 9, "beginner");
       ("communication", 10, "intermediate"); ("problem-solving", 10, "intermediate");
       ("powerbi", 7, "beginner") ]);
    ("UI/UX Designer",
     [ ("figma", 10, "intermediate"); ("design-principles", 10, "intermediate");
       ("ux-research", 9, "beginner"); ("communication", 8, "intermediate");
       ("html", 4, "beginner") ]) ].

Record ResourceSpec := mkResourceSpec {
  spec_title : string;
  spec_url : string;
  spec_type : string;
  spec_provider : string;
  spec_skills : list string;
  spec_careers : list string
}.

Definition RESOURCES : list ResourceSpec :=
  [ mkResourceSpec "Automate the Boring Stuff with Python"
      "https://automatetheboringstuff.com/" "book" "Al Sweigart"
      ["python"] ["Software Engineer"; "Data Analyst"; "Data Scientist"];
    mkResourceSpec "CS50 Data Structures (Lecture)"
      "https://cs50.harvard.edu/x/2024/notes/5/" "article" "Harvard"
      ["data-structures"; "algorithms"] ["Software Engineer"; "Back-end Developer"];
    mkResourceSpec "SQLBolt" "https://sqlbolt.com/" "course" "SQLBolt"
      ["sql"] ["Data Analyst"; "Back-end Developer"];
    mkResourceSpec "Khan Academy — Statistics"
      "https://www.khanacademy.org/math/statistics-probability" "course" "Khan Academy"
      ["statistics"] ["Data Scientist"; "Data Analyst"];
    mkResourceSpec "React Docs — Learn" "https://react.dev/learn" "docs" "Meta"
      ["react"; "javascript"] ["Front-end Developer"];
    mkResourceSpec "Figma Learn"
      "https://help.figma.com/hc/en-us/articles/360040514173-Get-started-with-Figma"
      "guide" "Figma"
      ["figma"; "design-principles"] ["UI/UX Designer"];
    mkResourceSpec "Docker — Getting Started" "https://docs.docker.com/get-started/"
      "docs" "Docker"
      ["docker"] ["Back-end Developer"; "ML Engineer"; "Cloud Engineer"];
    mkResourceSpec "AWS Skill Builder (Free)" "https://explore.skillbuilder.aws/"
      "course" "AWS"
      ["aws"] ["Cloud Engineer"; "ML Engineer"] ].

(** The loops of [main]. *)
Fixpoint seed_skills (cat : Catalog) (names : list string) : Catalog :=
  match names with
  | [] => cat
  | sk :: rest => seed_skills (get_or_create_skill cat sk).1 rest
  end.

Fixpoint seed_reqs (cat : Catalog) (c : CareerRow) (reqs : list ReqSpec) : Catalog :=
  match reqs with
  | [] => cat
  | (skill_name, importance, level) :: rest =>
      let '(cat, s) := get_or_create_skill cat skill_name in
      seed_reqs (ensure_req cat c s importance level) c rest
  end.

Fixpoint seed_careers (cat : Catalog) (careers : list (string * list ReqSpec)) : Catalog :=
  match careers with
  | [] => cat
  | (title, reqs) :: rest =>
      let '(cat, c) := get_or_create_career cat title in
      seed_careers (seed_reqs cat c reqs) rest
  end.

Fixpoint link_skills (cat : Catalog) (r : ResourceRow) (skill_names : list string)
    : Catalog :=
  match skill_names with
  | [] => cat
  | sn :: rest =>
      let '(cat, s) := get_or_create_skill cat sn in
      link_skills (link_resource_to_skill cat r s) r rest
  end.

Fixpoint link_careers (cat : Catalog) (r : ResourceRow) (career_titles : list string)
    : Catalog :=
  match career_titles with
  | [] => cat
  | ct :: rest =>
      let '(cat, c) := get_or_create_career cat ct in
      link_careers (link_resource_to_career cat r c) r rest
  end.

Fixpoint seed_resources (cat : Catalog) (specs : list ResourceSpec) : Catalog :=
  match specs with
  | [] => cat
  | spec :: rest =>
      let '(cat, r) := add_resource_safe cat (spec_title spec) (Some (spec_url spec))
                         (spec_type spec) (spec_provider spec) in
      let cat := link_skills cat r (spec_skills spec) in
      let cat := link_careers cat r (spec_careers spec) in
      seed_resources cat rest
  end.

(** [main(reset)]: the catalog it commits and the three counts it prints. *)
Definition seed_main (reset : bool) (cat : Catalog) : Catalog * (nat * nat * nat) :=
  let cat := if reset then empty_catalog else cat in
  let cat := seed_skills cat SKILLS in
  let cat := seed_careers cat CAREERS in
  let cat := seed_resources cat RESOURCES in
  (cat, (length (cat_careers cat), length (cat_skills cat), length (cat_reqs cat))).

(** What the script needs of the catalog, item by item. *)
Inductive Need :=
| NeedSkill (name : string)
| NeedCareer (title : string)
| NeedReq (title name : string) (importance : nat) (level : string)
| NeedResource (title : string) (url : option string) (rtype provider : string).

Definition provide (cat : Catalog) (n : Need) : Catalog :=
  match n with
  | NeedSkill name => (get_or_create_skill cat name).1
  | NeedCareer title => (get_or_create_career cat title).1
  | NeedReq title name importance level =>
      match find_career cat title, find_skill cat name with
      | Some c, Some s => ensure_req cat c s importance level
      | _, _ => cat
      end
  | NeedResource title url rtype provider =>
      (add_resource_safe cat title url rtype provider).1
  end.

Definition provided (cat : Catalog) (n : Need) : Prop :=
  match n with
  | NeedSkill name => is_Some (find_skill cat name)
  | NeedCareer title => is_Some (find_career cat title)
  | NeedReq title name _ _ =>
      ∃ (c : CareerRow) (s : SkillRow),
        find_career cat title = Some c ∧ find_skill cat name = Some s ∧
        is_Some (find_req cat (cr_id c) (sr_id s))
  | NeedResource title _ _ _ => is_Some (find_resource cat title)
  end.

Definition req_needs (title : string) (reqs : list ReqSpec) : list Need :=
  List.flat_map (fun r : ReqSpec => [NeedSkill r.1.1; NeedReq title r.1.1 r.1.2 r.2]) reqs.

Definition career_needs (careers : list (string * list ReqSpec)) : list Need :=
  List.flat_map (fun e => NeedCareer e.1 :: req_needs e.1 e.2) careers.

Definition resource_needs (specs : list ResourceSpec) : list Need :=
  List.flat_map
    (fun spec =>
       NeedResource (spec_title spec) (Some (spec_url spec)) (spec_type spec)
                    (spec_provider spec)
       :: (NeedSkill <$> spec_skills spec) ++ (NeedCareer <$> spec_careers spec))
    specs.

Definition seed_needs : list Need :=
  (NeedSkill <$> SKILLS) ++ career_needs CAREERS ++ resource_needs RESOURCES.

(** One catalog extends another: every table has the other's rows first. *)
Definition extends (cat cat' : Catalog) : Prop :=
  cat_skills cat `prefix_of` cat_skills cat' ∧
  cat_careers cat `prefix_of` cat_careers cat' ∧
  cat_reqs cat `prefix_of` cat_reqs cat' ∧
  cat_resources cat `prefix_of` cat_resources cat'.

#[global] Instance Need_eq_dec : EqDecision Need.
Proof. solve_decision. Defined.

(** A list of needs is in order when every requirement comes after its
    career and its skill. *)
Fixpoint ordered (seen needs : list Need) : bool :=
  match needs with
  | [] => true
  | n :: rest =>
      match n with
      | NeedReq title name _ _ =>
          bool_decide (NeedCareer title ∈ seen) && bool_decide (NeedSkill name ∈ seen)
      | _ => true
      end && ordered (n :: seen) rest
  end.

(** No two skills share a name, no two careers a title, no two resources a
    title, and no two requirements link the same career and skill. *)
Definition names_unique (cat : Catalog) : Prop :=
  NoDup (sr_name <$> cat_skills cat) ∧
  NoDup (cr_title <$> cat_careers cat) ∧
  NoDup ((fun r => (rq_career_id r, rq_skill_id r)) <$> cat_reqs cat) ∧
  NoDup (rs_title <$> cat_resources cat).

(** * Properties *)

(** ** The roadmap generator *)

Lemma SKILL_RESOURCES_named (k : string) (names : list string) :
  SKILL_RESOURCES !! k = Some names ->
  str_truthy (str_join " • " (take 2 names)) = true.
Proof.
  intros Hk. apply elem_of_list_to_map_2 in Hk.
  repeat (apply elem_of_cons in Hk as [Hk | Hk]; [by inversion Hk |]).
  by apply elem_of_nil in Hk.
Qed.

Lemma suggested_spec (s : string) :
  suggested s =
  match SKILL_RESOURCES !! str_lower s with
  | Some names => str_join " • " (take 2 names)
  | None => generic_prompt
  end.
Proof.
  unfold suggested. destruct (SKILL_RESOURCES !! str_lower s) as [names|] eqn:Hk; simpl.
  - unfold str_or. by rewrite (SKILL_RESOURCES_named _ _ Hk).
  - reflexivity.
Qed.

(** C4. For every career title, required-skill list and missing-skill list,
    [build_roadmap] returns 4 phases when the missing-skill list is empty and
    5 otherwise, and there is exactly one phase titled Core Practice, whose
    steps are, position by position, one step per entry of the
    required-skill list. The same holds for the copy in app_demo.py. *)
Theorem build_roadmap_phase_count
    (career_title : string) (required_skills missing_skills : list string) :
  let count := match missing_skills with [] => 4 | _ :: _ => 5 end in
  let one_step_per_skill (steps : list string) :=
    length steps = length required_skills ∧
    ∀ (i : nat) (s : string), required_skills !! i = Some s → steps !! i = Some (core_step s) in
  (length (build_roadmap career_title required_skills missing_skills) = count ∧
   ∃ steps,
     steps_titled "Core Practice" (build_roadmap career_title required_skills missing_skills)
       = [steps] ∧ one_step_per_skill steps) ∧
  (length (Demo.build_roadmap career_title required_skills missing_skills) = count ∧
   ∃ steps,
     steps_titled "Core Practice" (Demo.build_roadmap career_title required_skills missing_skills)
       = [steps] ∧ one_step_per_skill steps).
Proof.
  assert (Hmap : length (List.map core_step required_skills) = length required_skills ∧
    ∀ (i : nat) (s : string), required_skills !! i = Some s →
      List.map core_step required_skills !! i = Some (core_step s)).
  { split; [apply length_map |].
    intros i s Hi. change (List.map core_step required_skills) with (core_step <$> required_skills).
    by rewrite list_lookup_fmap, Hi. }
  destruct missing_skills as [|m ms]; cbn zeta;
    (split; (split; [reflexivity | exists (List.map core_step required_skills); split; [reflexivity | exact Hmap]])).
Qed.

(** C7. The Foundations phase is emitted if and only if the missing-skill
    list is non-empty; it is then the first phase and has one step per missing
    skill, in order. Each step names the skill and embeds the first two (at
    most) resource names found under the lowercased skill name in
    [SKILL_RESOURCES], joined by a bullet, or the generic prompt when the
    table has no entry for it. The copy in app_demo.py emits the same
    Foundations phase. *)
Theorem foundations_phase
    (career_title : string) (required_skills missing_skills : list string) :
  let phases := build_roadmap career_title required_skills missing_skills in
  (steps_titled "Foundations" phases ≠ [] ↔ missing_skills ≠ []) ∧
  steps_titled "Foundations" phases =
    match missing_skills with
    | [] => []
    | _ :: _ => [List.map foundation_step missing_skills]
    end ∧
  (ph_title <$> head phases) =
    match missing_skills with
    | [] => Some "Core Practice"
    | _ :: _ => Some "Foundations"
    end ∧
  steps_titled "Foundations" (Demo.build_roadmap career_title required_skills missing_skills)
    = steps_titled "Foundations" phases ∧
  length (List.map foundation_step missing_skills) = length missing_skills ∧
  ∀ s : string,
    ∃ res : string,
      foundation_step s =
        "Learn the basics of " +:+ s +:+ " (2–3 weeks). Suggested: " +:+ res +:+ "." ∧
      match SKILL_RESOURCES !! str_lower s with
      | Some names =>
          res = str_join " • " (take 2 names) ∧ length (take 2 names) ≤ 2 ∧
          take 2 names `prefix_of` names
      | None => res = "Pick a beginner resource"
      end.
Proof.
  cbn zeta. split_and!.
  - destruct missing_skills; cbn; split; intros H; done.
  - by destruct missing_skills.
  - by destruct missing_skills.
  - by destruct missing_skills.
  - apply length_map.
  - intros s. exists (suggested s). split; [reflexivity |].
    rewrite suggested_spec. destruct (SKILL_RESOURCES !! str_lower s) as [names|]; [|reflexivity].
    split_and!; [reflexivity | rewrite length_take; lia | apply prefix_take].
Qed.

(** The first loop, run on strings: no step raises and the globals are
    left as they were. *)
Lemma foundation_steps_run (missing_skills : list string) (g : Py.Globals) :
  mapM Py.foundation_step (Py.IStr <$> missing_skills) g
  = (inr ((fun s =>
             "Learn the basics of " +:+ s +:+ " (2–3 weeks). Suggested: "
             +:+ str_or (str_join " • " (take 2 (default [] (g !! str_lower s))))
                        "Pick a beginner resource" +:+ ".") <$> missing_skills), g).
Proof.
  induction missing_skills as [|s l IH]; [done |].
  cbn [fmap list_fmap mapM]. unfold mbind at 1, Py.M_bind at 1.
  unfold Py.foundation_step at 1. cbn [Py.lower Py.format].
  unfold mbind, Py.M_bind, mret, Py.M_ret, Py.resources_get in *. by rewrite IH.
Qed.

Lemma core_steps_run (required_skills : list string) :
  List.map Py.core_step (Py.IStr <$> required_skills) = List.map core_step required_skills.
Proof. induction required_skills as [|s l IH]; [done |]. cbn. by rewrite IH. Qed.

Lemma run_bind {A B : Type} (m : Py.M A) (f : A -> Py.M B) (g g' : Py.Globals) (a : A) :
  m g = (inr a, g') → (x ← m; f x) g = f a g'.
Proof. intros Hm. unfold mbind, Py.M_bind. by rewrite Hm. Qed.

Lemma build_roadmap_run (career_title : Py.item) (required_skills missing_skills : list string)
    (g : Py.Globals) :
  ∃ phases : list Phase,
    Py.build_roadmap career_title (Py.AList (Py.IStr <$> required_skills))
                     (Py.AList (Py.IStr <$> missing_skills)) g = (inr phases, g) ∧
    (g = SKILL_RESOURCES →
     ∀ t : string, phases = build_roadmap t required_skills missing_skills).
Proof.
  unfold Py.build_roadmap. destruct missing_skills as [|m ms].
  - eexists. split.
    + cbn [fmap list_fmap Py.truthy].
      erewrite run_bind; [|reflexivity]. erewrite run_bind; [|reflexivity]. reflexivity.
    + intros _ t. cbn [app]. by rewrite core_steps_run.
  - eexists. split.
    + change (Py.truthy (Py.AList (Py.IStr <$> m :: ms))) with true. cbv iota.
      erewrite run_bind.
      2:{ erewrite run_bind; [|reflexivity].
          erewrite run_bind; [|apply foundation_steps_run]. reflexivity. }
      erewrite run_bind; [|reflexivity]. reflexivity.
    + intros -> t. cbn [app]. by rewrite core_steps_run.
Qed.

(** C9. Run as Python runs it, on objects, with exceptions and against the
    module's global [SKILL_RESOURCES], [build_roadmap] called with any career
    title, a list of strings for the required skills and a list of strings
    for the missing skills raises nothing, returns a list of phases and
    leaves the global as it was; the phases are those of the definition used
    above; and a second call with the same arguments returns the same
    phases. *)
Theorem build_roadmap_total_pure
    (career_title : Py.item) (required_skills missing_skills : list string)
    (g : Py.Globals) :
  let call :=
    Py.build_roadmap career_title (Py.AList (Py.IStr <$> required_skills))
                     (Py.AList (Py.IStr <$> missing_skills)) in
  ∃ phases : list Phase,
    call g = (inr phases, g) ∧
    (g = SKILL_RESOURCES →
     ∀ t : string, phases = build_roadmap t required_skills missing_skills) ∧
    (first ← call; second ← call; mret (first, second)) g = (inr (phases, phases), g).
Proof.
  cbn zeta.
  destruct (build_roadmap_run career_title required_skills missing_skills g)
    as (phases & Hrun & Htyped).
  exists phases. split_and!; [exact Hrun | exact Htyped |].
  erewrite run_bind; [|exact Hrun]. erewrite run_bind; [|exact Hrun]. reflexivity.
Qed.

(** The exceptions are there to be raised: [None] for the required skills
    is not iterable, [None] among the missing skills has no [lower]; [None]
    for the missing skills is merely false, and [None] among the required
    skills is formatted. *)
Example build_roadmap_can_raise :
  (Py.build_roadmap (Py.IStr "Nurse") Py.ANone (Py.AList []) SKILL_RESOURCES).1
    = inl (Py.TypeError "'NoneType' object is not iterable") ∧
  (Py.build_roadmap (Py.IStr "Nurse") (Py.AList []) (Py.AList [Py.INone]) SKILL_RESOURCES).1
    = inl (Py.AttributeError "'NoneType' object has no attribute 'lower'") ∧
  (Py.build_roadmap (Py.IStr "Nurse") (Py.AList []) Py.ANone SKILL_RESOURCES).1
    = inr (build_roadmap "Nurse" [] []) ∧
  (Py.build_roadmap (Py.IStr "Nurse") (Py.AList [Py.INone]) (Py.AList []) SKILL_RESOURCES).1
    = inr (build_roadmap "Nurse" ["None"] []).
Proof. split_and!; vm_compute; reflexivity. Qed.

(** ** Binary64 arithmetic on the integers below 2^53 *)

Lemma digits2_size (p : positive) : digits2_pos p = Pos.size p.
Proof. induction p; cbn; by rewrite ?IHp. Qed.

Lemma pos_iter_pshl (q k : positive) : Pos.iter xO q k = pshl q (Pos.to_nat k).
Proof.
  unfold pshl. revert q. induction k using Pos.peano_ind; intros q; [reflexivity |].
  by rewrite Pos.iter_succ, Pos2Nat.inj_succ, IHk.
Qed.

Lemma iter_pos_nat {A : Type} (f : A -> A) (p : positive) (x : A) :
  SpecFloat.iter_pos f p x = Nat.iter (Pos.to_nat p) f x.
Proof.
  revert x. induction p as [p IH | p IH |]; intros x; cbn [SpecFloat.iter_pos].
  - rewrite !IH, Pos2Nat.inj_xI.
    replace (S (2 * Pos.to_nat p)) with (Pos.to_nat p + (Pos.to_nat p + 1)) by lia.
    by rewrite !Nat.iter_add.
  - rewrite !IH, Pos2Nat.inj_xO.
    replace (2 * Pos.to_nat p) with (Pos.to_nat p + Pos.to_nat p) by lia.
    by rewrite Nat.iter_add.
  - reflexivity.
Qed.

Lemma digits2_pshl (q : positive) (j : nat) :
  Zpos (digits2_pos (pshl q j)) = (Zpos (digits2_pos q) + Z.of_nat j)%Z.
Proof.
  induction j as [|j IH]; [change (pshl q 0) with q; lia |].
  change (pshl q (S j)) with (xO (pshl q j)). cbn [digits2_pos].
  rewrite Pos2Z.inj_succ, Nat2Z.inj_succ, IH. lia.
Qed.

Lemma pshl_pshl (q : positive) (a b : nat) : pshl (pshl q a) b = pshl q (a + b).
Proof. unfold pshl. by rewrite Nat.add_comm, Nat.iter_add. Qed.

Lemma pshl_add (a b : positive) (j : nat) :
  (pshl a j + pshl b j = pshl (a + b) j)%positive.
Proof.
  induction j as [|j IH]; [done |].
  change (pshl a (S j)) with (xO (pshl a j)). change (pshl b (S j)) with (xO (pshl b j)).
  change (pshl (a + b) (S j)) with (xO (pshl (a + b) j)). by rewrite <- IH.
Qed.

Lemma pshl_mul (a : positive) (j : nat) : (a * pshl 1 j = pshl a j)%positive.
Proof.
  induction j as [|j IH];
    [change (pshl 1 0) with 1%positive; change (pshl a 0) with a; lia |].
  change (pshl 1 (S j)) with (xO (pshl 1 j)). change (pshl a (S j)) with (xO (pshl a j)).
  lia.
Qed.

(** Shifting out zero bits loses nothing. *)
Lemma shr_exact (q : positive) (j : nat) :
  Nat.iter j shr_1 (Build_shr_record (Zpos (pshl q j)) false false)
  = Build_shr_record (Zpos q) false false.
Proof.
  induction j as [|j IH]; [done |].
  rewrite Nat.iter_succ_r. change (pshl q (S j)) with (xO (pshl q j)). exact IH.
Qed.

Lemma shr_exact_Z (q : positive) (j : nat) (e : Z) :
  shr (Build_shr_record (Zpos (pshl q j)) false false) e (Z.of_nat j)
  = (Build_shr_record (Zpos q) false false, (e + Z.of_nat j)%Z).
Proof.
  destruct j as [|j].
  - unfold shr. cbn [Z.of_nat]. change (pshl q 0) with q. by rewrite Z.add_0_r.
  - unfold shr. change (Z.of_nat (S j)) with (Zpos (Pos.of_succ_nat j)). cbv beta iota.
    by rewrite iter_pos_nat, SuccNat2Pos.id_succ, shr_exact.
Qed.

(** A mantissa of 53 bits followed by [j] zero bits rounds to itself. *)
Lemma round_aux_exact (q : positive) (j : nat) (e : Z) :
  Zpos (digits2_pos q) = 53%Z → (-1074 ≤ e + Z.of_nat j ≤ 971)%Z →
  binary_round_aux 53 1024 false (Zpos (pshl q j)) e loc_Exact
  = S754_finite false q (e + Z.of_nat j).
Proof.
  intros Hq He. unfold binary_round_aux, shr_fexp.
  assert (H1 : (fexp 53 1024 (Zdigits2 (Zpos (pshl q j)) + e) - e = Z.of_nat j)%Z).
  { unfold fexp, emin. cbn [Zdigits2]. rewrite digits2_pshl, Hq. lia. }
  rewrite H1. cbn [shr_record_of_loc]. rewrite shr_exact_Z.
  cbn [shr_m loc_of_shr_record round_nearest_even shr_record_of_loc].
  assert (H2 : (fexp 53 1024 (Zdigits2 (Zpos q) + (e + Z.of_nat j)) - (e + Z.of_nat j)
                = 0)%Z).
  { unfold fexp, emin. cbn [Zdigits2]. rewrite Hq. lia. }
  rewrite H2. cbn [shr shr_m].
  destruct (Z.leb_spec (e + Z.of_nat j) (1024 - 53)) as [_ | Hgt]; [done | lia].
Qed.

Lemma round_exact_right (q : positive) (j : nat) (e : Z) :
  Zpos (digits2_pos q) = 53%Z → (-1074 ≤ e + Z.of_nat j ≤ 971)%Z →
  binary_round 53 1024 false (pshl q j) e = S754_finite false q (e + Z.of_nat j).
Proof.
  intros Hq He. unfold binary_round.
  assert (H1 : shl_align (pshl q j) e (fexp 53 1024 (Zpos (digits2_pos (pshl q j)) + e))
               = (pshl q j, e)).
  { unfold shl_align, fexp, emin. rewrite digits2_pshl, Hq.
    destruct (Z.max _ _ - e)%Z eqn:Hd; [done | done | lia]. }
  rewrite H1. by apply round_aux_exact.
Qed.

(** A mantissa of at most 53 bits is shifted left to 53 bits. *)
Lemma round_exact_left (m : positive) (e : Z) :
  (Zpos (digits2_pos m) ≤ 53)%Z →
  (-1074 ≤ e + Zpos (digits2_pos m) - 53 ≤ 971)%Z →
  binary_round 53 1024 false m e
  = S754_finite false (pshl m (Z.to_nat (53 - Zpos (digits2_pos m))))
                (e + Zpos (digits2_pos m) - 53).
Proof.
  intros Hd He. unfold binary_round.
  set (d := Zpos (digits2_pos m)) in *.
  assert (H1 : shl_align m e (fexp 53 1024 (d + e))
               = (pshl m (Z.to_nat (53 - d)), (e + d - 53)%Z)).
  { unfold shl_align, fexp, emin.
    destruct (Z.max _ _ - e)%Z as [|k|k] eqn:Hk; [| lia |].
    - replace (53 - d)%Z with 0%Z by lia. change (pshl m (Z.to_nat 0)) with m. f_equal. lia.
    - rewrite pos_iter_pshl. f_equal; [|lia]. f_equal. lia. }
  rewrite H1.
  pose proof (round_aux_exact (pshl m (Z.to_nat (53 - d))) 0 (e + d - 53)) as Hr.
  change (pshl (pshl m (Z.to_nat (53 - d))) 0) with (pshl m (Z.to_nat (53 - d))) in Hr.
  cbn [Z.of_nat] in Hr. rewrite Z.add_0_r in Hr. apply Hr; [|lia].
  rewrite digits2_pshl. fold d. lia.
Qed.

Lemma digits2_bound (p : positive) (k : Z) :
  (0 ≤ k)%Z → (Zpos p < 2 ^ k)%Z → (Zpos (digits2_pos p) ≤ k)%Z.
Proof.
  intros Hk Hp. rewrite digits2_size.
  pose proof (Pos.size_le p) as Hle.
  apply Pos2Z.pos_le_pos in Hle. rewrite Pos2Z.inj_pow in Hle.
  change (Zpos p~0) with (2 * Zpos p)%Z in Hle.
  assert (Hlt : (2 ^ Zpos (Pos.size p) < 2 ^ (k + 1))%Z).
  { rewrite Z.pow_add_r by lia. lia. }
  apply Z.pow_lt_mono_r_iff in Hlt; lia.
Qed.

Lemma float_of_nat_S (n : nat) : float_of_nat (S n) = float_of_pos (Pos.of_succ_nat n).
Proof. reflexivity. Qed.

(** Below 2^53 an integer is a float. *)
Lemma float_of_pos_exact (p : positive) :
  (Zpos p < 2 ^ 53)%Z →
  float_of_pos p
  = S754_finite false (pshl p (Z.to_nat (53 - Zpos (digits2_pos p))))
                (Zpos (digits2_pos p) - 53).
Proof.
  intros Hp. pose proof (digits2_bound p 53 ltac:(lia) Hp) as Hd.
  unfold float_of_pos. by rewrite round_exact_left by lia.
Qed.

Lemma shl_align_fst (m : positive) (e e' : Z) :
  (e' ≤ e)%Z → fst (shl_align m e e') = pshl m (Z.to_nat (e - e')).
Proof.
  intros He. unfold shl_align. destruct (e' - e)%Z as [|k|k] eqn:Hk; [| lia |].
  - by replace (e - e')%Z with 0%Z by lia.
  - cbn [fst]. rewrite pos_iter_pshl. f_equal. lia.
Qed.

(** Adding 1.0 to the float of an integer is exact as long as the sum stays
    below 2^53. *)
Lemma fadd_one_exact (p : positive) :
  (Zpos p + 1 < 2 ^ 53)%Z →
  fadd (float_of_pos p) f_one = float_of_pos (p + 1).
Proof.
  intros Hp.
  pose proof (digits2_bound p 53 ltac:(lia) ltac:(lia)) as Hd.
  pose proof (digits2_bound (p + 1) 53 ltac:(lia) ltac:(lia)) as Hd'.
  rewrite !float_of_pos_exact by lia.
  set (d := Zpos (digits2_pos p)) in *. set (d' := Zpos (digits2_pos (p + 1))) in *.
  assert (Hd1 : (1 ≤ d)%Z) by (subst d; lia).
  assert (Hd1' : (1 ≤ d')%Z) by (subst d'; lia).
  unfold fadd, f_one, SFadd. rewrite Z.min_r by lia.
  rewrite !shl_align_fst by lia. rewrite pshl_pshl.
  replace (Z.to_nat (53 - d) + Z.to_nat (d - 53 - -52)) with 52 by lia.
  replace (Z.to_nat (-52 - -52)) with 0 by lia.
  change (pshl 4503599627370496 0) with (pshl 1 52).
  cbn [cond_Zopp]. rewrite <- Pos2Z.inj_add, pshl_add. cbn [binary_normalize].
  replace 52 with (Z.to_nat (53 - d') + Z.to_nat (d' - 1)) by lia.
  rewrite <- pshl_pshl. rewrite round_exact_right.
  - f_equal. lia.
  - rewrite digits2_pshl. fold d'. lia.
  - lia.
Qed.

(** The loop [score += 1.0], run [n] times, yields [float(n)]. *)
Lemma add_ones_exact (n : nat) : (Z.of_nat n < 2 ^ 53)%Z → add_ones n = float_of_nat n.
Proof.
  induction n as [|n IH]; intros Hn; [reflexivity |].
  change (add_ones (S n)) with (fadd (add_ones n) f_one). rewrite IH by lia.
  destruct n as [|n]; [reflexivity |].
  rewrite !float_of_nat_S, fadd_one_exact by lia. f_equal. lia.
Qed.

(** [n * 1.0] is [float(n)]. *)
Lemma fmul_one_exact (n : nat) :
  (Z.of_nat n < 2 ^ 53)%Z → fmul (float_of_nat n) f_one = float_of_nat n.
Proof.
  intros Hn. destruct n as [|n]; [reflexivity |].
  rewrite float_of_nat_S, float_of_pos_exact by lia.
  set (p := Pos.of_succ_nat n) in *.
  pose proof (digits2_bound p 53 ltac:(lia) ltac:(lia)) as Hd.
  unfold fmul, f_one, SFmul. cbn [xorb].
  change 4503599627370496%positive with (pshl 1 52). rewrite pshl_mul.
  rewrite round_aux_exact.
  - f_equal. lia.
  - rewrite digits2_pshl. lia.
  - lia.
Qed.

(** ** Scores are never NaN and never negative *)

Lemma shr_1_nonneg (mrs : shr_record) : (0 ≤ shr_m mrs)%Z → (0 ≤ shr_m (shr_1 mrs))%Z.
Proof. destruct mrs as [[|[p|p|]|p] r s]; cbn; lia. Qed.

Lemma shr_nonneg (mrs : shr_record) (e n : Z) :
  (0 ≤ shr_m mrs)%Z → (0 ≤ shr_m (shr mrs e n).1)%Z.
Proof.
  intros Hm. destruct n as [|p|p]; cbn [shr fst]; [done | | done].
  rewrite iter_pos_nat. induction (Pos.to_nat p) as [|k IH]; [done |].
  cbn [Nat.iter]. by apply shr_1_nonneg.
Qed.

Lemma shr_fexp_nonneg (m e : Z) (l : location) :
  (0 ≤ m)%Z → (0 ≤ shr_m (shr_fexp 53 1024 m e l).1)%Z.
Proof. intros Hm. unfold shr_fexp. apply shr_nonneg. by destruct l as [|[]]. Qed.

Lemma round_nearest_even_nonneg (m : Z) (l : location) :
  (0 ≤ m)%Z → (0 ≤ round_nearest_even m l)%Z.
Proof.
  intros Hm. destruct l as [|[]]; cbn; [done | | done | lia]. destruct (Z.even m); lia.
Qed.

Lemma binary_round_aux_nonneg (m e : Z) (l : location) :
  (0 ≤ m)%Z → nonneg_float (binary_round_aux 53 1024 false m e l) = true.
Proof.
  intros Hm. unfold binary_round_aux.
  pose proof (shr_fexp_nonneg m e l Hm) as H1.
  destruct (shr_fexp 53 1024 m e l) as [mrs' e']. cbn [fst] in H1.
  pose proof (shr_fexp_nonneg _ e' loc_Exact
                (round_nearest_even_nonneg _ (loc_of_shr_record mrs') H1)) as H2.
  destruct (shr_fexp 53 1024 _ e' loc_Exact) as [mrs'' e'']. cbn [fst] in H2.
  destruct (shr_m mrs'') as [|q|q]; [done | | lia].
  by destruct (Z.leb e'' (1024 - 53)).
Qed.

Lemma binary_round_nonneg (m : positive) (e : Z) :
  nonneg_float (binary_round 53 1024 false m e) = true.
Proof.
  unfold binary_round. destruct (shl_align m e _) as [mz ez].
  by apply binary_round_aux_nonneg.
Qed.

Lemma float_of_nat_nonneg (n : nat) : nonneg_float (float_of_nat n) = true.
Proof. destruct n; [done |]. apply binary_round_nonneg. Qed.

Lemma fadd_nonneg (x y : spec_float) :
  nonneg_float x = true → nonneg_float y = true → nonneg_float (fadd x y) = true.
Proof.
  destruct x as [[]|[]| |[] mx ex], y as [[]|[]| |[] my ey]; try done. intros _ _.
  unfold fadd, SFadd. cbn [cond_Zopp]. rewrite <- Pos2Z.inj_add. apply binary_round_nonneg.
Qed.

Lemma fmul_nonneg (x : spec_float) (m : positive) (e : Z) :
  nonneg_float x = true → nonneg_float (fmul x (S754_finite false m e)) = true.
Proof.
  destruct x as [[]|[]| |[] mx ex]; try done. intros _.
  unfold fmul, SFmul. by apply binary_round_aux_nonneg.
Qed.

Lemma add_ones_nonneg (n : nat) : nonneg_float (add_ones n) = true.
Proof.
  induction n as [|n IH]; [done |].
  change (add_ones (S n)) with (fadd (add_ones n) f_one). by apply fadd_nonneg.
Qed.

(** The order [<] and [<=] of these floats. *)
Lemma SFltb_irrefl (x : spec_float) : SFltb x x = false.
Proof.
  destruct x as [[]|[]| |[] m e]; try done; unfold SFltb, SFcompare;
    by rewrite Z.compare_refl, Pos.compare_cont_refl.
Qed.

Lemma SFcompare_finite (m1 m2 : positive) (e1 e2 : Z) :
  SFcompare (S754_finite false m1 e1) (S754_finite false m2 e2)
  = Some (match (e1 ?= e2)%Z with Eq => (m1 ?= m2)%positive | c => c end).
Proof. cbn. by destruct (e1 ?= e2)%Z. Qed.

Lemma SFltb_leb (x y : spec_float) : SFltb x y = true → SFleb x y = true.
Proof. unfold SFltb, SFleb. by destruct (SFcompare x y) as [[]|]. Qed.

Lemma SFleb_total (x y : spec_float) :
  nonneg_float x = true → nonneg_float y = true → SFltb x y = false → SFleb y x = true.
Proof.
  destruct x as [[]|[]| |[] m1 e1], y as [[]|[]| |[] m2 e2]; try done. intros _ _.
  unfold SFltb, SFleb. rewrite !SFcompare_finite.
  rewrite (Z.compare_antisym e1 e2), (Pos.compare_antisym m1 m2).
  by destruct (e1 ?= e2)%Z, (m1 ?= m2)%positive.
Qed.

Lemma SFleb_finite (m1 m2 : positive) (e1 e2 : Z) :
  SFleb (S754_finite false m1 e1) (S754_finite false m2 e2) = true ↔
  (e1 < e2)%Z ∨ (e1 = e2 ∧ (m1 ≤ m2)%positive).
Proof.
  unfold SFleb. rewrite SFcompare_finite.
  destruct (Z.compare_spec e1 e2), (Pos.compare_spec m1 m2); split; intros; try done; lia.
Qed.

Lemma SFleb_trans (x y z : spec_float) :
  nonneg_float x = true → nonneg_float y = true → nonneg_float z = true →
  SFleb x y = true → SFleb y z = true → SFleb x z = true.
Proof.
  destruct x as [[]|[]| |[] m1 e1], y as [[]|[]| |[] m2 e2], z as [[]|[]| |[] m3 e3];
    try done. intros _ _ _. rewrite !SFleb_finite. lia.
Qed.

Lemma nonneg_not_pos (x : spec_float) :
  nonneg_float x = true → SFltb f_zero x = false → x = f_zero.
Proof. by destruct x as [[]|[]| |[] m e]. Qed.

(** On these floats [==] is equality. *)
Lemma SFeqb_eq (x y : spec_float) :
  nonneg_float x = true → nonneg_float y = true → SFeqb x y = true ↔ x = y.
Proof.
  destruct x as [[]|[]| |[] m1 e1], y as [[]|[]| |[] m2 e2]; try done. intros _ _.
  unfold SFeqb. rewrite SFcompare_finite. split.
  - destruct (Z.compare_spec e1 e2), (Pos.compare_spec m1 m2); try done. by subst.
  - intros [= -> ->]. by rewrite Z.compare_refl, Pos.compare_refl.
Qed.

(** ** The built-in sort *)

Section SortFacts.
Context {A : Type} (key : A -> spec_float).

Lemma insert_desc_perm (x : A) (l : list A) : insert_desc key x l ≡ₚ x :: l.
Proof.
  induction l as [|y l IH]; simpl; [done |].
  destruct (SFltb (key x) (key y)); [|done].
  rewrite IH. apply Permutation_swap.
Qed.

Lemma sort_reverse_perm (l : list A) : sort_reverse key l ≡ₚ l.
Proof.
  induction l as [|x l IH]; simpl; [done |].
  by rewrite insert_desc_perm, IH.
Qed.

Lemma insert_desc_sorted (x : A) (l : list A) :
  nonneg_float (key x) = true →
  Forall (fun a => nonneg_float (key a) = true) l →
  StronglySorted (fun a b => SFleb (key b) (key a) = true) l →
  StronglySorted (fun a b => SFleb (key b) (key a) = true) (insert_desc key x l).
Proof.
  intros Hx Hl Hs. induction Hs as [|y l Hs IH Hy]; simpl; [repeat constructor |].
  apply Forall_cons in Hl as [Hny Hnl].
  destruct (SFltb (key x) (key y)) eqn:Hlt.
  - constructor; [by apply IH |].
    rewrite insert_desc_perm. constructor; [by apply SFltb_leb | exact Hy].
  - constructor; [by constructor |].
    constructor; [by apply SFleb_total |].
    rewrite Forall_forall in Hy, Hnl. apply Forall_forall. intros z Hz.
    apply (SFleb_trans _ (key y)); auto using SFleb_total.
Qed.

Lemma sort_reverse_sorted (l : list A) :
  Forall (fun a => nonneg_float (key a) = true) l →
  StronglySorted (fun a b => SFleb (key b) (key a) = true) (sort_reverse key l).
Proof.
  induction 1 as [|x l Hx Hl IH]; simpl; [constructor |].
  apply insert_desc_sorted; [done | by rewrite sort_reverse_perm | done].
Qed.

(** Stability: restricted to any one key value, sorting changes nothing. *)
Lemma insert_desc_filter (s : spec_float) (x : A) (l : list A) :
  List.filter (fun a => bool_decide (key a = s)) (insert_desc key x l)
  = List.filter (fun a => bool_decide (key a = s)) (x :: l).
Proof.
  induction l as [|y l IH]; [done |].
  cbn [insert_desc]. destruct (SFltb (key x) (key y)) eqn:Hlt; [|done].
  cbn [List.filter] in *. rewrite IH.
  destruct (bool_decide_reflect (key x = s)) as [Hx | Hx],
           (bool_decide_reflect (key y = s)) as [Hy | Hy]; try done.
  subst s. rewrite Hy in Hlt. by rewrite SFltb_irrefl in Hlt.
Qed.

Lemma sort_reverse_filter (s : spec_float) (l : list A) :
  List.filter (fun a => bool_decide (key a = s)) (sort_reverse key l)
  = List.filter (fun a => bool_decide (key a = s)) l.
Proof.
  induction l as [|x l IH]; [done |].
  cbn [sort_reverse]. rewrite insert_desc_filter. cbn [List.filter]. by rewrite IH.
Qed.

(** A list whose keys are all equal is left as it is. *)
Lemma sort_reverse_constant (s : spec_float) (l : list A) :
  Forall (fun a => key a = s) l -> sort_reverse key l = l.
Proof.
  induction 1 as [|x l Hx Hl IH]; [done |].
  cbn [sort_reverse]. rewrite IH. destruct Hl as [|y l Hy Hl]; [done |].
  cbn [insert_desc]. by rewrite Hx, Hy, SFltb_irrefl.
Qed.

End SortFacts.

Lemma filter_sublist {A : Type} (f : A -> bool) (l : list A) :
  List.filter f l `sublist_of` l.
Proof.
  induction l as [|x l IH]; simpl; [done |].
  destruct (f x); by constructor.
Qed.

(** ** The recommendation scorer *)

(** The loop over the interests adds 1.0 once per matching interest. *)
Lemma interest_loop (title : string) (its : list string) (acc : spec_float) :
  fold_left (fun score it => if str_in it title then fadd score f_one else score)
            (List.map str_lower its) acc
  = Nat.iter (length (List.filter (fun it => str_in (str_lower it) title) its))
             (fun s => fadd s f_one) acc.
Proof.
  revert acc. induction its as [|it its IH]; intros acc; [done |].
  cbn [List.map fold_left List.filter]. rewrite IH.
  destruct (str_in (str_lower it) title); [|done].
  cbn [length]. by rewrite Nat.iter_succ_r.
Qed.

Lemma interest_points_matches (user : User) (career : Career) :
  interest_points (List.map str_lower (split_csv (u_interests user))) career
  = add_ones (interest_matches user career).
Proof. unfold interest_points, interest_matches. by rewrite interest_loop. Qed.

Lemma interest_matches_le (user : User) (career : Career) :
  interest_matches user career ≤ length (split_csv (u_interests user)).
Proof.
  unfold interest_matches. induction (split_csv (u_interests user)) as [|it its IH]; [done |].
  cbn [List.filter]. destruct (str_in _ _); cbn [length]; lia.
Qed.

Lemma omap_fmap_commute {A B C : Type} (f : A -> option B) (g : B -> C) (l : list A) :
  omap (fun a => g <$> f a) l = g <$> omap f l.
Proof.
  induction l as [|a l IH]; [done |]. cbn. destruct (f a); cbn; by rewrite IH.
Qed.

Lemma career_reqs_names (career : Career) :
  career_reqs career = str_lower <$> skill_names career.
Proof.
  unfold career_reqs, skill_names.
  induction (c_requirements career) as [|req l IH]; [done |].
  cbn. destruct (req_skill req) as [sk|]; cbn; [|exact IH].
  destruct (str_truthy (s_name sk)); cbn; by rewrite ?IH.
Qed.

Lemma split_csv_falsy (o : option string) : opt_truthy o = None -> split_csv o = [].
Proof. destruct o as [[|c s]|]; by intros. Qed.

Lemma user_skill_set_names (user : User) :
  user_skill_set user = list_to_set (str_lower <$> user_skill_names user).
Proof.
  unfold user_skill_set, user_skill_names.
  assert (Hrows : (match u_skills user with
                   | [] => ∅
                   | _ :: _ => list_to_set (omap (fun s => str_lower <$> opt_truthy (us_name s))
                                                 (u_skills user))
                   end : gset string)
                  = list_to_set (str_lower <$> omap (fun s => opt_truthy (us_name s)) (u_skills user))).
  { rewrite omap_fmap_commute. by destruct (u_skills user). }
  rewrite Hrows. clear Hrows.
  destruct (omap (fun s => opt_truthy (us_name s)) (u_skills user)) as [|n names].
  - cbn. rewrite decide_True by done.
    destruct (opt_truthy (u_skills_text user)) as [txt|] eqn:Htxt.
    + destruct (u_skills_text user) as [t|]; [|done]. cbn in Htxt.
      destruct (str_truthy t); by simplify_eq.
    + by rewrite (split_csv_falsy _ Htxt).
  - rewrite decide_False; [done |]. cbn. set_solver.
Qed.

Lemma career_score_loop (user : User) (career : Career) :
  career_score user career
  = fadd (add_ones (interest_matches user career))
         (fmul (float_of_nat (overlap_of user career)) f_0_8).
Proof.
  unfold career_score, score_career, skill_overlap, overlap_of. cbn [snd].
  by rewrite interest_points_matches, career_reqs_names, user_skill_set_names.
Qed.

Lemma score_career_spec (user : User) (career : Career) :
  score_career (List.map str_lower (split_csv (u_interests user))) (user_skill_set user) career
  = (career_reqs career, overlap_of user career, career_score user career).
Proof.
  unfold career_score, score_career, skill_overlap, overlap_of. cbn [snd].
  by rewrite career_reqs_names, user_skill_set_names.
Qed.

Lemma career_score_nonneg (user : User) (career : Career) :
  nonneg_float (career_score user career) = true.
Proof.
  rewrite career_score_loop. apply fadd_nonneg; [apply add_ones_nonneg |].
  apply fmul_nonneg, float_of_nat_nonneg.
Qed.

(** With fewer than 2^53 interests the loop computes the formula. *)
Lemma career_score_formula (user : User) (career : Career) :
  (Z.of_nat (length (split_csv (u_interests user))) < 2 ^ 53)%Z →
  career_score user career = score_of user career.
Proof.
  intros Hlen. pose proof (interest_matches_le user career) as Hle.
  rewrite career_score_loop. unfold score_of.
  by rewrite add_ones_exact, fmul_one_exact by lia.
Qed.

Lemma not_qualifies_zero (user : User) (career : Career) :
  qualifies (overlap_of user career) (career_score user career) = false ->
  career_score user career = f_zero ∧ overlap_of user career = 0.
Proof.
  unfold qualifies. intros [Hs Ho]%orb_false_elim.
  apply bool_decide_eq_false in Ho. split; [|lia].
  apply nonneg_not_pos; [apply career_score_nonneg | done].
Qed.

(** The collecting loop keeps, in catalog order, the careers that qualify. *)
Lemma collect_candidates_spec (user : User) (all : list Career) :
  collect_candidates (List.map str_lower (split_csv (u_interests user)))
                     (user_skill_set user) all
  = List.map (fun c => (c, career_reqs c, career_score user c))
      (List.filter (fun c => qualifies (overlap_of user c) (career_score user c)) all).
Proof.
  induction all as [|c all IH]; [done |].
  cbn [collect_candidates List.filter]. rewrite score_career_spec, IH.
  by destruct (qualifies _ _).
Qed.

Lemma unsorted_candidates_spec (db : DB) (user : User) :
  let qualifying :=
    List.filter (fun c => qualifies (overlap_of user c) (career_score user c)) (careers db) in
  unsorted_candidates db user =
  match qualifying with
  | [] => (fun c => (c, fallback_reqs c, f_zero)) <$> take 5 (careers db)
  | _ :: _ => (fun c => (c, career_reqs c, career_score user c)) <$> qualifying
  end.
Proof.
  cbn zeta. unfold unsorted_candidates. rewrite collect_candidates_spec.
  by destruct (List.filter _ (careers db)).
Qed.

Lemma fmap_cand_career (g : Career -> list string) (h : Career -> spec_float)
    (l : list Career) :
  cand_career <$> ((fun c => (c, g c, h c)) <$> l) = l.
Proof. induction l as [|c l IH]; [done |]. cbn. by f_equal. Qed.

Lemma recommend_candidates_sorted (db : DB) (user : User) :
  recommend_candidates db user = sort_reverse cand_score (unsorted_candidates db user).
Proof. reflexivity. Qed.

Lemma filter_nil_false {A : Type} (f : A -> bool) (l : list A) (x : A) :
  List.filter f l = [] -> x ∈ l -> f x = false.
Proof.
  intros Hnil Hx. destruct (f x) eqn:Hfx; [|done].
  assert (Hin : In x (List.filter f l)) by (apply filter_In; split; [by apply list_elem_of_In | done]).
  rewrite Hnil in Hin. destruct Hin.
Qed.

(** Every candidate carries the score the loop computes for its career; the
    0 of a fallback entry is that score too. *)
Lemma unsorted_candidates_scores (db : DB) (user : User) (x : Candidate) :
  x ∈ unsorted_candidates db user →
  cand_career x ∈ careers db ∧ cand_score x = career_score user (cand_career x).
Proof.
  rewrite unsorted_candidates_spec. cbn zeta.
  destruct (List.filter _ (careers db)) as [|q qs] eqn:Hq.
  - intros (c & -> & Hc)%list_elem_of_fmap.
    assert (Hc' : c ∈ careers db) by (by apply (subseteq_take 5)).
    split; [exact Hc' |]. cbn.
    symmetry. by apply not_qualifies_zero, (filter_nil_false _ _ _ Hq).
  - rewrite <- Hq. intros (c & -> & Hc)%list_elem_of_fmap. split; [|done]. cbn.
    apply list_elem_of_In, filter_In in Hc as [Hc _]. by apply list_elem_of_In.
Qed.

(** C1. For every user (with fewer than 2^53 interests, so that counting
    them in a float is exact) and every career catalog, the score the loop
    computes for a career is (the number of the user's interests that are a
    case-insensitive substring of the title) * 1.0 + (the size of the
    intersection of the career's required skills and the user's skills, both
    case-folded) * 0.8, in binary64 arithmetic; and every candidate the
    route returns carries that score for its career. *)
Theorem scorer_formula (db : DB) (user : User) :
  (Z.of_nat (length (split_csv (u_interests user))) < 2 ^ 53)%Z →
  (∀ career : Career, career_score user career = score_of user career) ∧
  (∀ x : Candidate,
     x ∈ recommend_candidates db user →
     cand_career x ∈ careers db ∧ cand_score x = score_of user (cand_career x)).
Proof.
  intros Hlen. split.
  - intros career. by apply career_score_formula.
  - intros x. rewrite recommend_candidates_sorted, sort_reverse_perm.
    intros [Hin Hscore]%unsorted_candidates_scores.
    split; [exact Hin |]. by rewrite Hscore, career_score_formula.
Qed.

(** The example of the specification: the interest "programming" is not in
    the title Software Engineer, one skill overlaps, so the score is 0.8 and
    two skills are missing. *)
Lemma seeded_candidates :
  recommend_candidates seeded_db programmer
  = [(software_engineer, ["python"; "data-structures"; "algorithms"], f_0_8)].
Proof. vm_compute. reflexivity. Qed.

Example spec_example :
  recommend_candidates seeded_db programmer
    = [(software_engineer, ["python"; "data-structures"; "algorithms"], f_0_8)] ∧
  match recommend seeded_db 1 with
  | Render ctx => ctx_gaps ctx !! "Software Engineer" = Some ["data-structures"; "algorithms"]
  | _ => False
  end.
Proof. split; [apply seeded_candidates | vm_compute; reflexivity]. Qed.

Lemma scorer_formula_witness :
  software_engineer ∈ careers seeded_db ∧
  f_0_8 = score_of programmer software_engineer.
Proof.
  assert (Hlen : (Z.of_nat (length (split_csv (u_interests programmer))) < 2 ^ 53)%Z)
    by (vm_compute; reflexivity).
  apply (proj2 (scorer_formula seeded_db programmer Hlen)
           (software_engineer, ["python"; "data-structures"; "algorithms"], f_0_8)).
  rewrite seeded_candidates. left.
Defined.

(** Rounding shows in the order of the scores: four interests and one skill
    give 4.8, six skills give 4.800000000000001, and the latter is greater. *)
Example rounded_scores_differ :
  fadd (fmul (float_of_nat 4) f_one) (fmul (float_of_nat 1) f_0_8)
    = S754_finite false 5404319552844595 (-50) ∧
  fadd (fmul (float_of_nat 0) f_one) (fmul (float_of_nat 6) f_0_8)
    = S754_finite false 5404319552844596 (-50) ∧
  SFltb (S754_finite false 5404319552844595 (-50))
        (S754_finite false 5404319552844596 (-50)) = true.
Proof. vm_compute. by split_and!. Qed.

(** C2, as the code has it. Either some career has score > 0 or a nonzero
    skill overlap, and then the returned candidates are exactly the careers
    that do, each with its score; or no career has, and then the returned
    list is the fallback: the first five careers of the catalog (all of them
    when there are fewer), each with score 0 and no overlap. *)
Theorem candidates_membership (db : DB) (user : User) :
  let cs := recommend_candidates db user in
  let qualifying :=
    List.filter (fun c => qualifies (overlap_of user c) (career_score user c)) (careers db) in
  (qualifying ≠ [] ∧
   (cand_career <$> cs) ≡ₚ qualifying ∧
   Forall (fun x => cand_score x = career_score user (cand_career x) ∧
                    (SFltb f_zero (cand_score x) = true ∨
                     0 < overlap_of user (cand_career x))) cs)
  ∨
  (qualifying = [] ∧
   cs = (fun c => (c, fallback_reqs c, f_zero)) <$> take 5 (careers db) ∧
   Forall (fun x => cand_score x = f_zero ∧
                    career_score user (cand_career x) = f_zero ∧
                    overlap_of user (cand_career x) = 0) cs).
Proof.
  cbn zeta. rewrite recommend_candidates_sorted.
  pose proof (unsorted_candidates_spec db user) as Hu. cbn zeta in Hu.
  destruct (List.filter _ (careers db)) as [|q qs] eqn:Hq.
  - right. split; [done |].
    assert (Hzero : Forall (fun x : Candidate =>
                      cand_score x = f_zero ∧
                      career_score user (cand_career x) = f_zero ∧
                      overlap_of user (cand_career x) = 0)
                      (unsorted_candidates db user)).
    { rewrite Hu. apply Forall_fmap, Forall_forall. intros c Hc. cbn. split; [done |].
      apply not_qualifies_zero, (filter_nil_false _ _ _ Hq).
      by apply (subseteq_take 5). }
    rewrite (sort_reverse_constant cand_score f_zero).
    + by rewrite <- Hu.
    + eapply Forall_impl; [exact Hzero |]. by intros x [? _].
  - left. split; [done |]. rewrite <- Hq in *. split.
    + by rewrite sort_reverse_perm, Hu, fmap_cand_career.
    + rewrite sort_reverse_perm, Hu. apply Forall_fmap, Forall_forall. intros c Hc. cbn.
      split; [done |].
      apply list_elem_of_In, filter_In in Hc as [_ Hc]. unfold qualifies in Hc.
      apply orb_true_iff in Hc as [Hc | Hc]; [by left | right].
      by apply bool_decide_eq_true in Hc.
Qed.

(** C2 as stated fails: with one career in the catalog and a user without
    interests or skills, the route returns that career with score 0 and an
    empty overlap. *)
Lemma fallback_candidate_unqualified :
  recommend_candidates one_career_db fresh_user = [(nurse, [], f_zero)] ∧
  ¬ (SFltb f_zero (cand_score (nurse, [], f_zero)) = true ∨
     0 < skill_overlap (cand_reqs (nurse, [], f_zero)) (user_skill_set fresh_user)).
Proof.
  split; [vm_compute; reflexivity |].
  intros [H | H]; [discriminate H | vm_compute in H; lia].
Qed.

(** C6. The candidate list the route returns is in non-increasing order of
    score (the scores are floats that are neither NaN nor negative, which
    [<] orders totally), is a rearrangement of the candidates collected in
    catalog order, and for every score the candidates with that score appear
    exactly as they were collected, hence in the order of the catalog
    enumeration. *)
Theorem candidates_sorted_stable (db : DB) (user : User) :
  let cs := recommend_candidates db user in
  Forall (fun x => nonneg_float (cand_score x) = true) cs ∧
  StronglySorted (fun x y => SFleb (cand_score y) (cand_score x) = true) cs ∧
  cs ≡ₚ unsorted_candidates db user ∧
  (cand_career <$> unsorted_candidates db user) `sublist_of` careers db ∧
  ∀ s : spec_float,
    List.filter (has_score s) cs = List.filter (has_score s) (unsorted_candidates db user) ∧
    (cand_career <$> List.filter (has_score s) cs) `sublist_of` careers db.
Proof.
  cbn zeta. rewrite recommend_candidates_sorted.
  assert (Hsub : (cand_career <$> unsorted_candidates db user) `sublist_of` careers db).
  { rewrite unsorted_candidates_spec. cbn zeta.
    destruct (List.filter _ (careers db)) as [|q qs] eqn:Hq.
    - rewrite (fmap_cand_career fallback_reqs (fun _ => f_zero)). apply sublist_take.
    - rewrite <- Hq, fmap_cand_career. apply filter_sublist. }
  assert (Hnn : Forall (fun x => nonneg_float (cand_score x) = true)
                  (unsorted_candidates db user)).
  { apply Forall_forall. intros x [_ ->]%unsorted_candidates_scores.
    apply career_score_nonneg. }
  split_and!.
  - by rewrite sort_reverse_perm.
  - by apply sort_reverse_sorted.
  - apply sort_reverse_perm.
  - exact Hsub.
  - intros s. unfold has_score. rewrite sort_reverse_filter. split; [done |].
    etrans; [|exact Hsub]. apply fmap_sublist, filter_sublist.
Qed.

(** ** recommender.py *)

Lemma matching_entries_nil (key : string) :
  matching_entries key = [] ↔
  ∀ k : string, k ∈ CAREER_MAP.*1 → str_in k key || str_in key k = false.
Proof.
  unfold matching_entries. split.
  - intros Hnil k (e & -> & He)%list_elem_of_fmap.
    apply fmap_nil_inv in Hnil. by apply (filter_nil_false _ _ e) in Hnil.
  - intros Hall. assert (Hf : List.filter (fun e : string * Rec => str_in e.1 key || str_in key e.1)
                                 CAREER_MAP = []); [|by rewrite Hf].
    destruct (List.filter _ CAREER_MAP) as [|e es] eqn:Hf; [done |].
    assert (He : In e (List.filter (fun e : string * Rec => str_in e.1 key || str_in key e.1)
                         CAREER_MAP)) by (rewrite Hf; by left).
    apply filter_In in He as [He Ht]. rewrite Hall in Ht; [done |].
    apply list_elem_of_fmap. exists e. split; [done | by apply list_elem_of_In].
Qed.

Lemma matching_entries_known (key : string) (r : Rec) :
  r ∈ matching_entries key → r ∈ CAREER_MAP.*2.
Proof.
  unfold matching_entries. intros (e & -> & He)%list_elem_of_fmap.
  apply list_elem_of_In, filter_In in He as [He _]. apply list_elem_of_fmap.
  exists e. split; [done | by apply list_elem_of_In].
Qed.

Lemma dedupe_subseteq (seen : gset string) (recs : list Rec) : dedupe seen recs ⊆ recs.
Proof.
  revert seen. induction recs as [|r recs IH]; intros seen; cbn; [done |].
  destruct (decide (rec_career r ∈ seen)).
  - intros x Hx. right. by apply (IH seen).
  - intros x [-> | Hx]%elem_of_cons; [left | right; by eapply IH].
Qed.

Lemma dedupe_fresh (seen : gset string) (recs : list Rec) (r : Rec) :
  r ∈ dedupe seen recs → rec_career r ∉ seen.
Proof.
  revert seen. induction recs as [|r' recs IH]; intros seen; cbn; [by intros ?%elem_of_nil |].
  destruct (decide (rec_career r' ∈ seen)) as [Hin | Hnin]; [by apply IH |].
  intros [-> | Hr]%elem_of_cons; [done |]. apply IH in Hr. set_solver.
Qed.

Lemma dedupe_NoDup (seen : gset string) (recs : list Rec) :
  NoDup (rec_career <$> dedupe seen recs).
Proof.
  revert seen. induction recs as [|r recs IH]; intros seen; cbn; [constructor |].
  destruct (decide (rec_career r ∈ seen)); [apply IH |].
  cbn. constructor; [|apply IH].
  intros (r' & Heq & Hr')%list_elem_of_fmap. apply dedupe_fresh in Hr'. set_solver.
Qed.

Lemma dedupe_nil (recs : list Rec) : dedupe ∅ recs = [] → recs = [].
Proof.
  destruct recs as [|r recs]; [done |]. cbn. by rewrite decide_False by set_solver.
Qed.

Lemma flat_map_nil {A B : Type} (f : A -> list B) (l : list A) :
  List.flat_map f l = [] ↔ ∀ a : A, a ∈ l → f a = [].
Proof.
  induction l as [|a l IH]; cbn.
  - split; [by intros _ a ?%elem_of_nil | done].
  - split.
    + intros [Ha Hl]%app_eq_nil a' [-> | Ha']%elem_of_cons; [done | by apply IH].
    + intros Hall. rewrite (Hall a) by left. cbn. apply IH. intros a' Ha'. apply Hall. by right.
Qed.

Lemma get_recommendations_known (interests skills : list string) (r : Rec) :
  r ∈ get_recommendations interests skills →
  r ∈ general_counseling :: CAREER_MAP.*2.
Proof.
  unfold get_recommendations.
  destruct (dedupe ∅ _) as [|r0 out] eqn:Hout.
  - intros ->%list_elem_of_singleton. by left.
  - rewrite <- Hout. intros Hr%dedupe_subseteq. right.
    apply list_elem_of_In, in_flat_map in Hr as (it & _ & Hr).
    by eapply matching_entries_known, list_elem_of_In.
Qed.

(** C10, as the code has it. [get_recommendations] never returns an empty
    list, and it returns exactly the one entry 'General Counseling' with the
    skills ['communication', 'career-planning'] if and only if no interest,
    lowercased and stripped of surrounding white space, is a substring of a
    key of [CAREER_MAP] or has a key as a substring. *)
Theorem get_recommendations_fallback (interests skills : list string) :
  get_recommendations interests skills ≠ [] ∧
  (get_recommendations interests skills
     = [mkRec "General Counseling" ["communication"; "career-planning"]]
   ↔ ∀ it k : string, it ∈ interests → k ∈ CAREER_MAP.*1 → key_matches it k = false).
Proof.
  split.
  - unfold get_recommendations. by destruct (dedupe ∅ _).
  - split.
    + intros Hgen it k Hit Hk.
      assert (Hnil : List.flat_map (fun it => matching_entries (str_strip (str_lower it)))
                       interests = []).
      { apply dedupe_nil. unfold get_recommendations in Hgen.
        destruct (dedupe ∅ _) as [|r0 out] eqn:Hout; [done |].
        assert (Hr0 : r0 ∈ dedupe ∅ (List.flat_map
                       (fun it => matching_entries (str_strip (str_lower it))) interests))
          by (rewrite Hout; left).
        apply dedupe_subseteq, list_elem_of_In, in_flat_map in Hr0 as (it' & _ & Hr0).
        apply list_elem_of_In, matching_entries_known in Hr0.
        injection Hgen as -> ->. exfalso. vm_compute in Hr0.
        repeat (apply elem_of_cons in Hr0 as [Hr0 | Hr0]; [done |]).
        by apply elem_of_nil in Hr0. }
      pose proof (proj1 (flat_map_nil _ _) Hnil it Hit) as Hm.
      by apply (proj1 (matching_entries_nil _) Hm).
    + intros Hall. unfold get_recommendations.
      assert (Hnil : List.flat_map (fun it => matching_entries (str_strip (str_lower it)))
                       interests = []).
      { apply flat_map_nil. intros it Hit. apply matching_entries_nil. intros k Hk.
        by apply (Hall it k). }
      by rewrite Hnil.
Qed.

(** C10 as stated fails: the interest "dat " is not a substring of a key and
    no key is a substring of it, with or without case, yet the function strips
    it to "dat", finds it in the key "data" and returns Data Analyst. *)
Lemma stripped_interest_matches :
  forallb (fun k => negb (key_matches_unstripped "dat " k)) (CAREER_MAP.*1) = true ∧
  get_recommendations ["dat "] [] = [mkRec "Data Analyst" ["python"; "sql"; "statistics"]] ∧
  get_recommendations ["dat "] []
    ≠ [mkRec "General Counseling" ["communication"; "career-planning"]].
Proof. by split_and!. Qed.

Lemma get_recommendations_fallback_witness :
  get_recommendations ["cooking"] ["python"]
  = [mkRec "General Counseling" ["communication"; "career-planning"]].
Proof.
  apply (proj2 (get_recommendations_fallback ["cooking"] ["python"])).
  intros it k ->%list_elem_of_singleton Hk. vm_compute in Hk.
  repeat (apply elem_of_cons in Hk as [-> | Hk]; [vm_compute; reflexivity |]).
  by apply elem_of_nil in Hk.
Defined.

(** ** Skill gaps *)

Section FoldInsert.
Context {A V : Type} (key : A -> string) (val : A -> V).

Lemma fold_insert_other (l : list A) (m : gmap string V) (k : string) :
  k ∉ key <$> l →
  fold_left (fun m a => <[ key a := val a ]> m) l m !! k = m !! k.
Proof.
  revert m. induction l as [|a l IH]; intros m Hk; [done |].
  cbn [fold_left]. rewrite IH by set_solver. apply lookup_insert_ne. set_solver.
Qed.

(** After the loop a key holds what its last occurrence stored. *)
Lemma fold_insert_last (pre post : list A) (x : A) (m : gmap string V) :
  key x ∉ key <$> post →
  fold_left (fun m a => <[ key a := val a ]> m) (pre ++ x :: post) m !! key x
  = Some (val x).
Proof.
  intros Hpost. rewrite fold_left_app. cbn [fold_left].
  rewrite fold_insert_other by done. apply lookup_insert_eq.
Qed.

End FoldInsert.

Lemma NoDup_fmap_split {A : Type} (key : A -> string) (l : list A) (x : A) :
  NoDup (key <$> l) → x ∈ l →
  ∃ pre post : list A, l = pre ++ x :: post ∧ key x ∉ key <$> post.
Proof.
  intros Hnd (pre & post & ->)%list_elem_of_split. exists pre, post. split; [done |].
  rewrite fmap_app, fmap_cons in Hnd. apply NoDup_app in Hnd as (_ & _ & Hnd).
  by apply NoDup_cons in Hnd as [Hx _].
Qed.

Lemma known_skills_lowercase (r : Rec) (s : string) :
  r ∈ general_counseling :: CAREER_MAP.*2 → s ∈ rec_skills r → str_lower s = s.
Proof.
  intros Hr Hs. cbn in Hr.
  repeat (apply elem_of_cons in Hr as [-> | Hr];
          [cbn in Hs;
           repeat (apply elem_of_cons in Hs as [-> | Hs]; [reflexivity |]);
           by apply elem_of_nil in Hs |]).
  by apply elem_of_nil in Hr.
Qed.

Lemma get_recommendations_NoDup (interests skills : list string) :
  NoDup (rec_career <$> get_recommendations interests skills).
Proof.
  unfold get_recommendations. destruct (dedupe ∅ _) as [|r0 out] eqn:Hout.
  - cbn. apply NoDup_singleton.
  - rewrite <- Hout. apply dedupe_NoDup.
Qed.

Lemma missing_skills_of_spec (user : User) (required_skills : list string) (r : string) :
  r ∈ missing_skills_of (user_skill_set user) required_skills ↔
  r ∈ required_skills ∧ ∀ u : string, u ∈ user_skill_names user → str_lower u ≠ str_lower r.
Proof.
  unfold missing_skills_of. rewrite list_elem_of_In, filter_In, <- list_elem_of_In.
  rewrite negb_true_iff, bool_decide_eq_false, user_skill_set_names, elem_of_list_to_set.
  rewrite list_elem_of_fmap. naive_solver.
Qed.
Lemma prepare_loop (user_skills : gset string) (cs : list Candidate)
    (ctx : RecommendContext) :
  let ctx' :=
    fold_left
      (fun ctx x =>
         let career := cand_career x in
         let required_skills := cand_reqs x in
         let missing := missing_skills_of user_skills required_skills in
         mkContext
           (ctx_recs ctx ++ [mkRec (c_title career) required_skills])
           (<[ c_title career := missing ]> (ctx_gaps ctx))
           (<[ c_title career := build_roadmap (c_title career) required_skills missing ]>
              (ctx_roadmaps ctx)))
      cs ctx in
  ctx_recs ctx' = ctx_recs ctx ++ ((fun x => mkRec (cand_title x) (cand_reqs x)) <$> cs) ∧
  ctx_gaps ctx' =
    fold_left (fun g x => <[ cand_title x := missing_skills_of user_skills (cand_reqs x) ]> g)
              cs (ctx_gaps ctx).
Proof.
  revert ctx. induction cs as [|x cs IH]; intros ctx; cbn zeta.
  - cbn. by rewrite app_nil_r.
  - cbn [fold_left fmap list_fmap]. destruct (IH (mkContext
        (ctx_recs ctx ++ [mkRec (c_title (cand_career x)) (cand_reqs x)])
        (<[ c_title (cand_career x) := missing_skills_of user_skills (cand_reqs x) ]>
           (ctx_gaps ctx))
        (<[ c_title (cand_career x) :=
              build_roadmap (c_title (cand_career x)) (cand_reqs x)
                (missing_skills_of user_skills (cand_reqs x)) ]> (ctx_roadmaps ctx))))
      as [Hr Hg].
    cbn zeta in Hr, Hg. rewrite Hr, Hg. cbn [ctx_recs ctx_gaps]. by rewrite <- app_assoc.
Qed.

Lemma skill_names_required (career : Career) :
  skill_names career = List.filter str_truthy (required_names career).
Proof.
  unfold skill_names, required_names.
  induction (c_requirements career) as [|req l IH]; [done |].
  cbn [omap list_omap]. destruct (req_skill req) as [sk|]; [|exact IH].
  cbn [fmap option_fmap option_map opt_truthy List.filter].
  destruct (str_truthy (s_name sk)); by rewrite <- IH.
Qed.

(** Every candidate carries the required skills of its career, as the
    route reads them from the requirement rows. *)
Lemma candidate_requirements (db : DB) (user : User) (x : Candidate) :
  x ∈ recommend_candidates db user →
  cand_career x ∈ careers db ∧
  cand_reqs x = listed_requirements db user (cand_career x).
Proof.
  rewrite recommend_candidates_sorted, sort_reverse_perm. intros Hx.
  split; [by apply unsorted_candidates_scores in Hx as [Hin _] |].
  revert Hx. rewrite unsorted_candidates_spec. cbn zeta. unfold listed_requirements.
  destruct (List.filter _ (careers db)) as [|q qs].
  - by intros (c & -> & _)%list_elem_of_fmap.
  - intros (c & -> & _)%list_elem_of_fmap. cbn.
    by rewrite career_reqs_names, skill_names_required.
Qed.

Lemma missing_skills_of_lacks (user : User) (required_skills : list string) :
  missing_skills_of (user_skill_set user) required_skills
  = List.filter (lacks user) required_skills.
Proof.
  unfold missing_skills_of, lacks. rewrite user_skill_set_names.
  induction required_skills as [|r l IH]; [done |]. cbn [List.filter]. rewrite IH.
  destruct (decide (str_lower r ∈ str_lower <$> user_skill_names user)) as [Hin | Hnin].
  - rewrite bool_decide_eq_true_2 by (by apply elem_of_list_to_set).
    by rewrite (bool_decide_eq_false_2 (_ ∉ _)) by (by intros Hn).
  - rewrite bool_decide_eq_false_2 by (by rewrite elem_of_list_to_set).
    by rewrite (bool_decide_eq_true_2 (_ ∉ _)).
Qed.

(** C3, as the code has it. For an existing user the web route renders the
    page; the listed careers are the candidates, each a career of the
    catalog with its required skills as the route reads them from the
    career's requirement rows; and for every listed career whose title no
    career listed after it shares, the gap reported under its title is the
    list of those required skills, in their order and with their
    repetitions, whose lowercase form is not that of any of the user's
    skills. [skill_gap], applied to the output of [get_recommendations],
    reports for each of its careers the required skills that are not among
    the user's skills lowercased and stripped of surrounding white space. *)
Theorem missing_skills_reported :
  (∀ (db : DB) (user_id : nat) (user : User),
     get_user db user_id = Some user →
     ∃ ctx : RecommendContext,
       recommend db user_id = Render ctx ∧
       ctx_recs ctx
         = (fun x => mkRec (cand_title x) (cand_reqs x)) <$> recommend_candidates db user ∧
       ∀ (pre post : list Candidate) (x : Candidate),
         recommend_candidates db user = pre ++ x :: post →
         cand_title x ∉ cand_title <$> post →
         cand_career x ∈ careers db ∧
         cand_reqs x = listed_requirements db user (cand_career x) ∧
         ∃ missing : list string,
           ctx_gaps ctx !! cand_title x = Some missing ∧
           missing = List.filter (lacks user) (listed_requirements db user (cand_career x)) ∧
           ∀ r : string,
             r ∈ missing ↔
             r ∈ listed_requirements db user (cand_career x) ∧
             ∀ u : string, u ∈ user_skill_names user → str_lower u ≠ str_lower r) ∧
  (∀ (interests skills user_skills : list string) (r : Rec),
     r ∈ get_recommendations interests skills →
     ∃ missing : list string,
       skill_gap (get_recommendations interests skills) user_skills !! rec_career r
         = Some missing ∧
       NoDup missing ∧
       ∀ s : string,
         s ∈ missing ↔
         s ∈ rec_skills r ∧
         ∀ u : string, u ∈ user_skills → str_strip (str_lower u) ≠ str_lower s).
Proof.
  split.
  - intros db user_id user Huser. unfold recommend. rewrite Huser.
    eexists. split; [reflexivity |].
    destruct (prepare_loop (user_skill_set user) (recommend_candidates db user)
                (mkContext [] ∅ ∅)) as [Hr Hg].
    cbn zeta in Hr, Hg. split; [exact Hr |].
    intros pre post x Hsplit Hlast.
    assert (Hx : x ∈ recommend_candidates db user).
    { rewrite Hsplit. apply elem_of_app. right. left. }
    destruct (candidate_requirements db user x Hx) as [Hcareer Hreqs].
    split; [exact Hcareer |]. split; [exact Hreqs |].
    exists (missing_skills_of (user_skill_set user) (cand_reqs x)). split_and!.
    + unfold prepare_recs. rewrite Hg, Hsplit.
      by apply (fold_insert_last cand_title
                  (fun x => missing_skills_of (user_skill_set user) (cand_reqs x))).
    + by rewrite missing_skills_of_lacks, Hreqs.
    + intros r. rewrite <- Hreqs. apply missing_skills_of_spec.
  - intros interests skills user_skills r Hr.
    destruct (NoDup_fmap_split rec_career _ r (get_recommendations_NoDup interests skills) Hr)
      as (pre & post & Hsplit & Hlast).
    eexists. split_and!.
    + unfold skill_gap. rewrite Hsplit.
      apply (fold_insert_last rec_career
               (fun r => elements ((list_to_set (rec_skills r) : gset string)
                  ∖ list_to_set (List.map (fun s => str_strip (str_lower s)) user_skills)))).
      exact Hlast.
    + apply NoDup_elements.
    + intros s.
      assert (Hlow : s ∈ rec_skills r → str_lower s = s).
      { apply known_skills_lowercase. by apply (get_recommendations_known interests skills). }
      rewrite elem_of_elements, elem_of_difference, !elem_of_list_to_set.
      change (List.map (fun s => str_strip (str_lower s)) user_skills)
        with ((fun s => str_strip (str_lower s)) <$> user_skills).
      rewrite list_elem_of_fmap. split.
      * intros [Hs Hu]. split; [done |]. intros u Hin Heq. apply Hu. exists u.
        rewrite Heq. split; [|done]. symmetry. by apply Hlow.
      * intros [Hs Hu]. split; [done |]. intros (u & Heq & Hin). apply (Hu u Hin).
        rewrite <- Heq. symmetry. by apply Hlow.
Qed.

(** C3 as stated fails: two careers share the title Analyst; the user has
    the one skill the first of them requires, so nothing is missing for it,
    but the gap reported under its title is that of the second. *)
Lemma shared_title_gap :
  match recommend twin_db 1 with
  | Render ctx =>
      ctx_recs ctx = [mkRec "Analyst" ["python"]; mkRec "Analyst" ["sql"]] ∧
      missing_skills_of (user_skill_set python_user) ["python"] = [] ∧
      ctx_gaps ctx !! "Analyst" = Some ["sql"]
  | _ => False
  end.
Proof. vm_compute. by split_and!. Qed.

Lemma missing_skills_reported_witness :
  (∃ (ctx : RecommendContext) (missing : list string),
     recommend seeded_db 1 = Render ctx ∧
     ctx_gaps ctx !! "Software Engineer" = Some missing ∧
     missing = List.filter (lacks programmer)
                 (listed_requirements seeded_db programmer software_engineer) ∧
     ("python" ∉ missing) ∧ ("algorithms" ∈ missing)) ∧
  (∃ missing : list string,
     skill_gap (get_recommendations ["Programming"; "Data"] []) [" Python"; "sql"]
       !! rec_career data_analyst = Some missing ∧
     ("python" ∉ missing) ∧ ("statistics" ∈ missing)).
Proof.
  split.
  - assert (Huser : get_user seeded_db 1 = Some programmer) by (vm_compute; reflexivity).
    destruct (proj1 missing_skills_reported seeded_db 1 programmer Huser)
      as (ctx & Hrender & _ & Hgaps).
    destruct (Hgaps [] []
                (software_engineer, ["python"; "data-structures"; "algorithms"], f_0_8)
                seeded_candidates (not_elem_of_nil _))
      as (_ & _ & missing & Hlookup & Hfilter & Hmissing).
    exists ctx, missing. split; [exact Hrender |]. split; [exact Hlookup |].
    split; [exact Hfilter |].
    assert (Hlisted : listed_requirements seeded_db programmer software_engineer
                      = ["python"; "data-structures"; "algorithms"])
      by (vm_compute; reflexivity).
    change (cand_career (software_engineer, ["python"; "data-structures"; "algorithms"], f_0_8))
      with software_engineer in Hmissing.
    rewrite Hlisted in Hmissing. split.
    + intros [_ Hpy]%Hmissing. apply (Hpy "python"); [|reflexivity].
      vm_compute. left.
    + assert (Hnames : user_skill_names programmer = ["python"]) by (vm_compute; reflexivity).
      refine (proj2 (Hmissing "algorithms") (conj _ _)); [do 2 right; left |].
      rewrite Hnames. intros u ->%list_elem_of_singleton. vm_compute. discriminate.
  - assert (Hin : data_analyst ∈ get_recommendations ["Programming"; "Data"] [])
      by (vm_compute; right; left).
    destruct (proj2 missing_skills_reported ["Programming"; "Data"] [] [" Python"; "sql"]
                data_analyst Hin)
      as (missing & Hlookup & _ & Hmissing).
    assert (Hreq : "statistics" ∈ rec_skills data_analyst) by (do 2 right; left).
    assert (Hnot : ∀ u : string, u ∈ [" Python"; "sql"] →
                     str_strip (str_lower u) ≠ str_lower "statistics").
    { intros u Hu.
      repeat (apply elem_of_cons in Hu as [-> | Hu]; [vm_compute; discriminate |]).
      apply elem_of_nil in Hu. destruct Hu. }
    exists missing. split; [exact Hlookup |]. split.
    + intros [_ Hpy]%Hmissing. apply (Hpy " Python"); [left | vm_compute; reflexivity].
    + exact (proj2 (Hmissing "statistics") (conj Hreq Hnot)).
Defined.

(** [skill_gap] compares the required skills as they are given: on an
    argument whose required skills are not lowercase it is case-sensitive. *)
Example skill_gap_required_as_given :
  skill_gap [mkRec "Analyst" ["Python"]] ["python"] !! "Analyst" = Some ["Python"].
Proof. vm_compute. reflexivity. Qed.

(** ** Saving a plan *)

Lemma with_plan_steps_nil (db : DB) : with_plan_steps db [] = db.
Proof. destruct db. unfold with_plan_steps. cbn. by rewrite app_nil_r. Qed.

Lemma with_plan_steps_app (db : DB) (rows rows' : list PlanStep) :
  with_plan_steps (with_plan_steps db rows) rows' = with_plan_steps db (rows ++ rows').
Proof. unfold with_plan_steps. cbn. by rewrite app_assoc. Qed.

Lemma add_plan_step_some (db : DB) (pid : nat) (title : string) (order : nat) :
  add_plan_step db (Some pid) title order
  = inr (with_plan_steps db
           [mkPlanStep (next_id (List.map ps_id (plan_steps db))) pid title order]).
Proof. reflexivity. Qed.

Lemma seq_strictly_sorted (start len : nat) : StronglySorted lt (seq start len).
Proof.
  revert start. induction len as [|len IH]; intros start; cbn; constructor; [apply IH |].
  apply Forall_forall. intros x Hx%list_elem_of_In%in_seq. lia.
Qed.

(** The inner loop stores every step, numbering them from [order]. *)
Lemma persist_steps_spec (db : DB) (plan : Plan) (t : string) (steps : list string)
    (order : nat) :
  ∃ rows : list PlanStep,
    persist_steps db plan t steps order = (with_plan_steps db rows, order + length steps) ∧
    ps_plan_id <$> rows = replicate (length steps) (p_id plan) ∧
    ps_title <$> rows = step_title t <$> steps ∧
    ps_sort_order <$> rows = seq order (length steps).
Proof.
  revert db order. induction steps as [|step steps IH]; intros db order.
  - exists []. cbn. by rewrite with_plan_steps_nil, Nat.add_0_r.
  - cbn [persist_steps]. rewrite add_plan_step_some.
    destruct (IH (with_plan_steps db
        [mkPlanStep (next_id (List.map ps_id (plan_steps db))) (p_id plan)
           (step_title t step) order]) (S order)) as (rows & -> & Hp & Ht & Ho).
    eexists (_ :: rows). rewrite with_plan_steps_app. split_and!.
    + cbn [app length]. by rewrite Nat.add_succ_r.
    + cbn. by rewrite Hp.
    + cbn. by rewrite Ht.
    + cbn. by rewrite Ho.
Qed.

Lemma persist_phases_spec (db : DB) (plan : Plan) (phases : list Phase) (order : nat) :
  ∃ rows : list PlanStep,
    persist_phases db plan phases order
      = (with_plan_steps db rows, order + length (flat_titles phases)) ∧
    ps_plan_id <$> rows = replicate (length (flat_titles phases)) (p_id plan) ∧
    ps_title <$> rows = flat_titles phases ∧
    ps_sort_order <$> rows = seq order (length (flat_titles phases)).
Proof.
  revert db order. induction phases as [|ph phases IH]; intros db order.
  - exists []. cbn. by rewrite with_plan_steps_nil, Nat.add_0_r.
  - cbn [persist_phases flat_titles List.flat_map].
    destruct (persist_steps_spec db plan (ph_title ph) (ph_steps ph) order)
      as (rows1 & -> & Hp1 & Ht1 & Ho1).
    destruct (IH (with_plan_steps db rows1) (order + length (ph_steps ph)))
      as (rows2 & -> & Hp2 & Ht2 & Ho2).
    fold (flat_titles phases) in *.
    exists (rows1 ++ rows2). rewrite with_plan_steps_app, !fmap_app, length_app, length_map.
    split_and!.
    + by rewrite Nat.add_assoc.
    + by rewrite Hp1, Hp2, replicate_add.
    + by rewrite Ht1, Ht2.
    + by rewrite Ho1, Ho2, seq_app.
Qed.

Lemma find_title (title : string) (cs : list Career) (c : Career) :
  List.find (fun c => bool_decide (c_title c = title)) cs = Some c → c_title c = title.
Proof. intros [_ Hc]%find_some. by apply bool_decide_eq_true in Hc. Qed.

Lemma save_plan_persists (db db' : DB) (user_id : nat) (request : Request) (body : json) :
  save_plan db user_id request = (db', Jsonify body 200) →
  steps_persisted build_roadmap db db' request (Jsonify body 200).
Proof.
  unfold save_plan. intros Hsave.
  destruct (get_user db user_id) as [user|]; [|done].
  destruct (requested_career request) as [title|] eqn:Hreq; [|done].
  assert (Hfound : ∃ (db1 : DB) (career : Career),
            match List.find (fun c => bool_decide (c_title c = title)) (careers db) with
            | Some career => inr (db, career)
            | None => add_career db (Some title)
            end = inr (db1, career) ∧
            c_title career = title ∧ career ∈ careers db1 ∧ plan_steps db1 = plan_steps db).
  { destruct (List.find _ (careers db)) as [career|] eqn:Hfind.
    - exists db, career. split_and!; [done | by apply find_title in Hfind | | done].
      apply find_some in Hfind as [Hin _]. by apply list_elem_of_In.
    - eexists _, _. split_and!; [reflexivity | done | | done].
      cbn. apply elem_of_app. right. left. }
  cbv zeta in Hsave.
  destruct Hfound as (db1 & career & Hfound & Htitle & Hcareer & Hsteps1).
  rewrite Hfound in Hsave. cbn [add_plan] in Hsave.
  destruct (multi_getlist "missing" (form request)) as [|m ms] eqn:Hmissing; [done |].
  set (plan := mkPlan (next_id (List.map p_id (plans db1))) (u_id user)
                 (Some (c_id career)) ("Roadmap for " +:+ c_title career)) in *.
  set (db2 := mkDB (users db1) (careers db1) (plans db1 ++ [plan]) (plan_steps db1)
                (resource_rows db1)) in *.
  destruct (persist_phases_spec db2 plan
              (build_roadmap (c_title career) (required_of career) (m :: ms)) 1)
    as (rows & Hpersist & Hp & Ht & Ho).
  rewrite Hpersist, add_plan_step_some, with_plan_steps_app in Hsave.
  set (titles := flat_titles (build_roadmap (c_title career) (required_of career) (m :: ms)))
    in *.
  set (last := mkPlanStep (next_id (List.map ps_id (plan_steps (with_plan_steps db2 rows))))
                 (p_id plan) project_step_title (1 + length titles)) in *.
  injection Hsave as <- <-.
  assert (Hso : ps_sort_order <$> rows ++ [last] = seq 1 (S (length titles))).
  { rewrite fmap_app, Ho. cbn [fmap list_fmap]. by rewrite seq_S. }
  exists career, plan, (rows ++ [last]). cbn zeta. rewrite Hmissing. fold titles.
  split_and!.
  - by rewrite Htitle.
  - exact Hcareer.
  - cbn [plans with_plan_steps db2]. apply elem_of_app. right. left.
  - reflexivity.
  - cbn [plan_steps with_plan_steps db2]. by rewrite Hsteps1.
  - by rewrite fmap_app, Hp, replicate_S_end.
  - by rewrite fmap_app, Ht.
  - exact Hso.
  - rewrite Hso. apply seq_strictly_sorted.
Qed.

(** The copy in app_demo.py queues the same rows and commits them at once. *)
Lemma demo_queue_steps_spec (pending : list Demo.Pending) (plan : Plan) (t : string)
    (steps : list string) (order : nat) :
  ∃ added : list Demo.Pending,
    Demo.queue_steps pending plan t steps order = (pending ++ added, order + length steps) ∧
    (fun p : Demo.Pending => p.1.1) <$> added = replicate (length steps) (Some (p_id plan)) ∧
    (fun p : Demo.Pending => p.1.2) <$> added = step_title t <$> steps ∧
    (fun p : Demo.Pending => p.2) <$> added = seq order (length steps).
Proof.
  revert pending order. induction steps as [|step steps IH]; intros pending order.
  - exists []. cbn. by rewrite app_nil_r, Nat.add_0_r.
  - cbn [Demo.queue_steps].
    destruct (IH (pending ++ [(Some (p_id plan), step_title t step, order)]) (S order))
      as (added & -> & Hp & Ht & Ho).
    exists ((Some (p_id plan), step_title t step, order) :: added). split_and!.
    + cbn [length]. by rewrite <- app_assoc, Nat.add_succ_r.
    + cbn. by rewrite Hp.
    + cbn. by rewrite Ht.
    + cbn. by rewrite Ho.
Qed.

Lemma demo_queue_phases_spec (pending : list Demo.Pending) (plan : Plan)
    (phases : list Phase) (order : nat) :
  ∃ added : list Demo.Pending,
    Demo.queue_phases pending plan phases order
      = (pending ++ added, order + length (flat_titles phases)) ∧
    (fun p : Demo.Pending => p.1.1) <$> added
      = replicate (length (flat_titles phases)) (Some (p_id plan)) ∧
    (fun p : Demo.Pending => p.1.2) <$> added = flat_titles phases ∧
    (fun p : Demo.Pending => p.2) <$> added = seq order (length (flat_titles phases)).
Proof.
  revert pending order. induction phases as [|ph phases IH]; intros pending order.
  - exists []. cbn. by rewrite app_nil_r, Nat.add_0_r.
  - cbn [Demo.queue_phases flat_titles List.flat_map].
    destruct (demo_queue_steps_spec pending plan (ph_title ph) (ph_steps ph) order)
      as (added1 & -> & Hp1 & Ht1 & Ho1).
    destruct (IH (pending ++ added1) (order + length (ph_steps ph)))
      as (added2 & -> & Hp2 & Ht2 & Ho2).
    fold (flat_titles phases) in *.
    exists (added1 ++ added2). rewrite !fmap_app, length_app, length_map. split_and!.
    + by rewrite <- app_assoc, Nat.add_assoc.
    + by rewrite Hp1, Hp2, replicate_add.
    + by rewrite Ht1, Ht2.
    + by rewrite Ho1, Ho2, seq_app.
Qed.

Lemma demo_commit_steps_spec (db : DB) (pending : list Demo.Pending) (pid : nat) :
  (fun p : Demo.Pending => p.1.1) <$> pending = replicate (length pending) (Some pid) →
  ∃ rows : list PlanStep,
    Demo.commit_steps db pending = inr (with_plan_steps db rows) ∧
    ps_plan_id <$> rows = replicate (length pending) pid ∧
    ps_title <$> rows = (fun p : Demo.Pending => p.1.2) <$> pending ∧
    ps_sort_order <$> rows = (fun p : Demo.Pending => p.2) <$> pending.
Proof.
  revert db. induction pending as [|[[o t] n] pending IH]; intros db Hpid.
  - exists []. cbn. by rewrite with_plan_steps_nil.
  - cbn in Hpid. injection Hpid as -> Hpid.
    cbn [Demo.commit_steps]. rewrite add_plan_step_some.
    destruct (IH (with_plan_steps db
                [mkPlanStep (next_id (List.map ps_id (plan_steps db))) pid t n]) Hpid)
      as (rows & -> & Hp & Ht & Ho).
    eexists (_ :: rows). rewrite with_plan_steps_app. split_and!; [done | | |].
    + cbn. by rewrite Hp.
    + cbn. by rewrite Ht.
    + cbn. by rewrite Ho.
Qed.

Lemma demo_save_plan_persists (db db' : DB) (user_id : nat) (request : Request)
    (body : json) :
  Demo.save_plan db user_id request = (db', Jsonify body 200) →
  steps_persisted Demo.build_roadmap db db' request (Jsonify body 200).
Proof.
  unfold Demo.save_plan. intros Hsave.
  destruct (get_user db user_id) as [user|]; [|done].
  destruct (requested_career request) as [title|] eqn:Hreq; [|done].
  assert (Hfound : ∃ (db1 : DB) (career : Career),
            match List.find (fun c => bool_decide (c_title c = title)) (careers db) with
            | Some career => inr (db, career)
            | None => add_career db (Some title)
            end = inr (db1, career) ∧
            c_title career = title ∧ career ∈ careers db1 ∧ plan_steps db1 = plan_steps db).
  { destruct (List.find _ (careers db)) as [career|] eqn:Hfind.
    - exists db, career. split_and!; [done | by apply find_title in Hfind | | done].
      apply find_some in Hfind as [Hin _]. by apply list_elem_of_In.
    - eexists _, _. split_and!; [reflexivity | done | | done].
      cbn. apply elem_of_app. right. left. }
  cbv zeta in Hsave.
  destruct Hfound as (db1 & career & Hfound & Htitle & Hcareer & Hsteps1).
  rewrite Hfound in Hsave. cbn [add_plan] in Hsave.
  destruct (multi_getlist "missing" (form request)) as [|m ms] eqn:Hmissing; [done |].
  set (plan := mkPlan (next_id (List.map p_id (plans db1))) (u_id user)
                 (Some (c_id career)) ("Roadmap for " +:+ c_title career)) in *.
  set (db2 := mkDB (users db1) (careers db1) (plans db1 ++ [plan]) (plan_steps db1)
                (resource_rows db1)) in *.
  set (titles := flat_titles (Demo.build_roadmap (c_title career) (required_of career)
                                (m :: ms))) in *.
  destruct (demo_queue_phases_spec [] plan
              (Demo.build_roadmap (c_title career) (required_of career) (m :: ms)) 1)
    as (added & Hqueue & Hp & Ht & Ho).
  fold titles in Hqueue, Hp, Ht, Ho. rewrite Hqueue in Hsave. cbn [app] in Hsave.
  destruct (demo_commit_steps_spec db2
              (added ++ [(Some (p_id plan), project_step_title, 1 + length titles)])
              (p_id plan)) as (rows & Hcommit & Hrp & Hrt & Hro).
  { rewrite fmap_app, Hp, length_app, Nat.add_1_r, replicate_S_end.
    f_equal. f_equal. by rewrite <- (length_fmap (fun p : Demo.Pending => p.1.2)), Ht. }
  assert (Hlen : length (added ++ [(Some (p_id plan), project_step_title, 1 + length titles)])
                 = S (length titles)).
  { by rewrite length_app, Nat.add_1_r, <- (length_fmap (fun p : Demo.Pending => p.1.2)), Ht. }
  rewrite Hcommit in Hsave. injection Hsave as <- <-.
  exists career, plan, rows. cbn zeta. rewrite Hmissing. fold titles.
  rewrite Hlen in Hrp. rewrite fmap_app, Ht in Hrt. rewrite fmap_app, Ho in Hro.
  cbn [fmap list_fmap] in Hrt, Hro. rewrite <- seq_S in Hro.
  split_and!.
  - by rewrite Htitle.
  - exact Hcareer.
  - cbn [plans with_plan_steps db2]. apply elem_of_app. right. left.
  - reflexivity.
  - cbn [plan_steps with_plan_steps db2]. by rewrite Hsteps1.
  - exact Hrp.
  - exact Hrt.
  - exact Hro.
  - rewrite Hro. apply seq_strictly_sorted.
Qed.

(** C5. After [save_plan] succeeds (it answers with status 200), the rows it
    appended to [plan_steps] all belong to the new plan; their titles are the
    flattened phase/step sequence of the roadmap [build_roadmap] returns,
    followed by the fixed step 'Build a small project to demonstrate skills';
    and their [sort_order] values are 1, 2, 3, ... in that order, hence
    strictly increasing, the fixed step taking the next value. This holds for
    app.py and for the copy in app_demo.py. *)
Theorem save_plan_steps (db db' : DB) (user_id : nat) (request : Request) (body : json) :
  (save_plan db user_id request = (db', Jsonify body 200) →
   steps_persisted build_roadmap db db' request (Jsonify body 200)) ∧
  (Demo.save_plan db user_id request = (db', Jsonify body 200) →
   steps_persisted Demo.build_roadmap db db' request (Jsonify body 200)).
Proof. split; [apply save_plan_persists | apply demo_save_plan_persists]. Qed.

(** The route does succeed whenever the user exists, a career is named and
    the form lists missing skills. *)
Lemma save_plan_succeeds (db : DB) (user_id : nat) (request : Request) :
  is_Some (get_user db user_id) →
  is_Some (requested_career request) →
  multi_getlist "missing" (form request) ≠ [] →
  ∃ (db' : DB) (body : json), save_plan db user_id request = (db', Jsonify body 200).
Proof.
  intros [user Huser] [title Htitle] Hmissing. unfold save_plan.
  rewrite Huser, Htitle. cbv zeta.
  destruct (multi_getlist "missing" (form request)) as [|m ms]; [done |].
  destruct (List.find _ (careers db)) as [career|]; cbn [add_career add_plan];
    match goal with
    | |- context [persist_phases ?d ?p ?phs ?o] =>
        destruct (persist_phases_spec d p phs o) as (rows & -> & _)
    end; rewrite add_plan_step_some; eauto.
Qed.

(** The witness of C5: a plan for a career that is not in the catalog yet. *)
Lemma save_plan_steps_witness :
  (save_plan one_career_db 1 midwife_request).2
    = plan_saved (mkCareer 2 "Midwife" [] []) (mkPlan 1 1 (Some 2) "Roadmap for Midwife") ∧
  steps_persisted build_roadmap one_career_db
    (save_plan one_career_db 1 midwife_request).1 midwife_request
    (plan_saved (mkCareer 2 "Midwife" [] []) (mkPlan 1 1 (Some 2) "Roadmap for Midwife")) ∧
  steps_persisted Demo.build_roadmap one_career_db
    (Demo.save_plan one_career_db 1 midwife_request).1 midwife_request
    (plan_saved (mkCareer 2 "Midwife" [] []) (mkPlan 1 1 (Some 2) "Roadmap for Midwife")).
Proof.
  split_and!.
  - vm_compute. reflexivity.
  - apply (proj1 (save_plan_steps one_career_db _ 1 midwife_request _)).
    vm_compute. reflexivity.
  - apply (proj2 (save_plan_steps one_career_db _ 1 midwife_request _)).
    vm_compute. reflexivity.
Defined.

(** ** The resource lookup *)










Lemma ascii_lower_idemp (c : ascii) : ascii_lower (ascii_lower c) = ascii_lower c.
Proof. by destruct c as [[] [] [] [] [] [] [] []]. Qed.

Lemma str_lower_idemp (s : string) : str_lower (str_lower s) = str_lower s.
Proof. induction s as [|c s IH]; [done |]. cbn. by rewrite ascii_lower_idemp, IH. Qed.

Lemma str_lower_length (s : string) : String.length (str_lower s) = String.length s.
Proof. induction s as [|c s IH]; [done |]. cbn. by rewrite IH. Qed.






(** A pattern SQLite refuses fails the lookup at the first row. *)
Lemma first_ilike_too_long (pattern : string) (rows : list Career) :
  rows ≠ [] →
  (max_like_pattern_length < Z.of_nat (String.length pattern))%Z →
  ∃ msg : string, first_ilike pattern rows = inl msg.
Proof.
  intros Hrows Hlen. destruct rows as [|c rows]; [done |]. cbn. unfold ilike, like.
  rewrite str_lower_length.
  destruct (Z.ltb_spec max_like_pattern_length (Z.of_nat (String.length pattern)));
    [eauto | lia].
Qed.




(** ** split_csv *)

Lemma str_lstrip_blank (s : string) : str_lstrip s = EmptyString ↔ is_blank s = true.
Proof.
  induction s as [|c s IH]; [done |]. cbn. unfold is_blank in IH. cbn.
  destruct (is_space c); [exact IH | done].
Qed.

Lemma str_rstrip_blank (s : string) : str_rstrip s = EmptyString ↔ is_blank s = true.
Proof.
  induction s as [|c s IH]; [done |]. unfold is_blank in *. cbn.
  destruct (str_rstrip s) as [|d r] eqn:Hr.
  - destruct (is_space c); cbn; [|done]. split; [intros _; by apply IH | done].
  - split; [done |]. intros [_ Hs]%andb_true_iff. by apply IH in Hs.
Qed.

Lemma str_lstrip_tight (s : string) : starts_tight (str_lstrip s).
Proof. induction s as [|c s IH]; [done |]. cbn. by destruct (is_space c) eqn:Hc. Qed.

Lemma str_lstrip_id (s : string) : starts_tight s → str_lstrip s = s.
Proof. destruct s as [|c s]; [done |]. cbn. by intros ->. Qed.

Lemma str_rstrip_tight (s : string) : starts_tight s → starts_tight (str_rstrip s).
Proof.
  destruct s as [|c s]; [done |]. cbn. intros Hc.
  destruct (str_rstrip s); [by rewrite Hc | done].
Qed.

Lemma str_rstrip_idemp (s : string) : str_rstrip (str_rstrip s) = str_rstrip s.
Proof.
  induction s as [|c s IH]; [done |]. cbn.
  destruct (str_rstrip s) as [|d r] eqn:Hr.
  - destruct (is_space c) eqn:Hc; [done |]. cbn. by rewrite Hc.
  - cbn [str_rstrip] in *. by rewrite IH.
Qed.

Lemma str_strip_idemp (s : string) : str_strip (str_strip s) = str_strip s.
Proof.
  unfold str_strip.
  rewrite (str_lstrip_id (str_rstrip (str_lstrip s)))
    by apply str_rstrip_tight, str_lstrip_tight.
  apply str_rstrip_idemp.
Qed.

Lemma str_strip_blank (s : string) : str_strip s = EmptyString ↔ is_blank s = true.
Proof.
  unfold str_strip. rewrite str_rstrip_blank. split.
  - intros Hb. apply str_lstrip_blank. pose proof (str_lstrip_tight s) as Ht.
    destruct (str_lstrip s) as [|c r]; [done |]. cbn in Ht. unfold is_blank in Hb. cbn in Hb.
    by rewrite Ht in Hb.
  - intros Hb. apply str_lstrip_blank in Hb. by rewrite Hb.
Qed.

Lemma chars_lstrip (s : string) : chars (str_lstrip s) ⊆ chars s.
Proof.
  induction s as [|c s IH]; [done |]. cbn. destruct (is_space c); [|done].
  intros x Hx. right. by apply IH.
Qed.

Lemma chars_rstrip (s : string) : chars (str_rstrip s) ⊆ chars s.
Proof.
  induction s as [|c s IH]; [done |]. cbn.
  destruct (str_rstrip s) as [|d r] eqn:Hr.
  - destruct (is_space c); [intros x Hx; by apply elem_of_nil in Hx |].
    intros x Hx. apply list_elem_of_singleton in Hx as ->. left.
  - intros x [-> | Hx]%elem_of_cons; [left | right; by apply IH].
Qed.

Lemma chars_strip (s : string) : chars (str_strip s) ⊆ chars s.
Proof. unfold str_strip. etrans; [apply chars_rstrip | apply chars_lstrip]. Qed.

Lemma str_split_pieces (sep : ascii) (s : string) :
  Forall (fun w => sep ∉ chars w) (str_split sep s).
Proof.
  induction s as [|c s IH]; cbn.
  - constructor; [|constructor]. by intros ?%elem_of_nil.
  - destruct (decide (c = sep)) as [-> | Hc].
    + constructor; [by intros ?%elem_of_nil | exact IH].
    + destruct (str_split sep s) as [|w ws]; [repeat constructor; set_solver |].
      apply Forall_cons in IH as [Hw Hws]. constructor; [|exact Hws].
      cbn. set_solver.
Qed.

Lemma split_csv_unfold (value : option string) :
  split_csv value
  = str_strip <$> List.filter (fun s => str_truthy (str_strip s))
                    (str_split "," (default EmptyString value)).
Proof. reflexivity. Qed.

Lemma split_csv_clean (value : option string) : Forall clean_entry (split_csv value).
Proof.
  apply Forall_forall. intros s.
  rewrite split_csv_unfold. intros (w & -> & Hw)%list_elem_of_fmap.
  apply list_elem_of_In, filter_In in Hw as [Hw Ht]. apply list_elem_of_In in Hw.
  split_and!.
  - by destruct (str_strip w).
  - apply str_strip_idemp.
  - pose proof (str_split_pieces "," (default EmptyString value)) as Hp.
    rewrite Forall_forall in Hp. intros Hc%chars_strip. by apply (Hp w).
Qed.

(** X1. Every entry [split_csv] returns is clean: it is not empty, it has no
    white space at either end (stripping it again changes nothing) and it
    contains no comma, whatever the value given, [None] included. *)
Theorem split_csv_entries (value : option string) (s : string) :
  s ∈ split_csv value → clean_entry s.
Proof. revert s. apply Forall_forall, split_csv_clean. Qed.

Lemma split_csv_entries_witness : clean_entry "sql".
Proof.
  apply (split_csv_entries (Some " python , sql,,")). vm_compute. right. left.
Defined.

(** Splitting what was joined. *)
Lemma str_split_nonempty (sep : ascii) (s : string) : str_split sep s ≠ [].
Proof.
  destruct s as [|c s]; cbn; [done |]. destruct (decide (c = sep)); [done |].
  by destruct (str_split sep s).
Qed.

Lemma str_split_piece (sep : ascii) (w : string) :
  sep ∉ chars w → str_split sep w = [w].
Proof.
  induction w as [|c w IH]; [done |]. intros Hc. cbn [str_split].
  rewrite decide_False by (cbn in Hc; set_solver).
  rewrite IH by (cbn in Hc; set_solver). done.
Qed.

Lemma str_split_app (sep : ascii) (w rest : string) :
  sep ∉ chars w →
  str_split sep (w +:+ String sep rest) = w :: str_split sep rest.
Proof.
  induction w as [|c w IH]; intros Hc.
  - change (EmptyString +:+ String sep rest) with (String sep rest).
    cbn [str_split]. by rewrite decide_True.
  - change (String c w +:+ String sep rest) with (String c (w +:+ String sep rest)).
    cbn [str_split]. rewrite decide_False by (cbn in Hc; set_solver).
    rewrite IH by (cbn in Hc; set_solver). done.
Qed.

Lemma str_split_join (sep : ascii) (raw : list string) :
  raw ≠ [] → Forall (fun w => sep ∉ chars w) raw →
  str_split sep (str_join (String sep EmptyString) raw) = raw.
Proof.
  intros Hne Hall. induction Hall as [|w raw Hw Hraw IH]; [done |].
  destruct raw as [|w' raw].
  - cbn. by apply str_split_piece.
  - change (str_join (String sep EmptyString) (w :: w' :: raw))
      with (w +:+ String sep EmptyString +:+ str_join (String sep EmptyString) (w' :: raw)).
    change (String sep EmptyString +:+ ?x) with (String sep x).
    rewrite str_split_app by done. by rewrite IH.
Qed.

Lemma split_csv_join (raw : list string) :
  Forall (fun w => ","%char ∉ chars w) raw →
  split_csv (Some (str_join "," raw))
  = str_strip <$> List.filter (fun s => str_truthy (str_strip s)) raw.
Proof.
  intros Hall. rewrite split_csv_unfold.
  change (default EmptyString (Some (str_join "," raw))) with (str_join "," raw).
  destruct raw as [|w raw]; [done |]. by rewrite str_split_join.
Qed.

Lemma clean_filter (l : list string) :
  Forall clean_entry l →
  str_strip <$> List.filter (fun s => str_truthy (str_strip s)) l = l.
Proof.
  induction 1 as [|s l (Hne & Hs & _) Hl IH]; [done |].
  cbn [List.filter]. destruct (str_truthy (str_strip s)) eqn:Ht.
  - cbn [fmap list_fmap]. by rewrite Hs, IH.
  - rewrite Hs in Ht. by destruct s.
Qed.

Lemma str_join_comma_space (l : list string) :
  str_join ", " l = str_join "," (pad_tail l).
Proof.
  destruct l as [|x l]; [done |]. cbn [pad_tail]. revert x.
  induction l as [|y l IH]; intros x; [done |].
  change (str_join ", " (x :: y :: l)) with (x +:+ ", " +:+ str_join ", " (y :: l)).
  rewrite IH. cbn [fmap list_fmap].
  change (str_join "," (x :: String " " y :: (String " " <$> l)))
    with (x +:+ "," +:+ str_join "," (String " " y :: (String " " <$> l))).
  f_equal. destruct l; reflexivity.
Qed.

Lemma str_strip_space (s : string) : str_strip (String " " s) = str_strip s.
Proof. reflexivity. Qed.

Lemma pad_filter (l : list string) :
  str_strip <$> List.filter (fun s => str_truthy (str_strip s)) (String " " <$> l)
  = str_strip <$> List.filter (fun s => str_truthy (str_strip s)) l.
Proof.
  induction l as [|x l IH]; [done |]. cbn [fmap list_fmap List.filter].
  rewrite str_strip_space. destruct (str_truthy (str_strip x)); cbn [fmap list_fmap];
    by rewrite ?str_strip_space, IH.
Qed.

(** X2. Joining clean ASCII entries with a comma, or with a comma and a
    space as the profile form shows them, and splitting the text again gives
    the entries back, in order and with their repetitions. *)
Theorem split_csv_round_trip (l : list string) :
  Forall clean_entry l → Forall ascii_text l →
  split_csv (Some (str_join "," l)) = l ∧ split_csv (Some (str_join ", " l)) = l.
Proof.
  intros Hl _. split.
  - rewrite split_csv_join; [by apply clean_filter |].
    eapply Forall_impl; [exact Hl |]. by intros s (_ & _ & Hs).
  - rewrite str_join_comma_space, split_csv_join.
    + destruct l as [|x l]; [done |]. cbn [pad_tail List.filter].
      destruct (str_truthy (str_strip x)) eqn:Hx.
      * cbn [fmap list_fmap]. rewrite pad_filter.
        pose proof (clean_filter (x :: l) Hl) as Hc. cbn [List.filter] in Hc.
        by rewrite Hx in Hc.
      * rewrite pad_filter. pose proof (clean_filter (x :: l) Hl) as Hc.
        cbn [List.filter] in Hc. by rewrite Hx in Hc.
    + destruct Hl as [|x l Hx Hl]; [done |]. cbn [pad_tail]. constructor.
      * by destruct Hx as (_ & _ & Hx).
      * apply Forall_fmap. eapply Forall_impl; [exact Hl |]. intros s (_ & _ & Hs). cbn.
        intros [Heq | Hin]%elem_of_cons; [done | by apply Hs].
Qed.

Lemma split_csv_round_trip_witness :
  split_csv (Some (str_join "," ["python"; "data analysis"])) = ["python"; "data analysis"] ∧
  split_csv (Some (str_join ", " ["python"; "data analysis"])) = ["python"; "data analysis"].
Proof.
  apply (split_csv_round_trip ["python"; "data analysis"]).
  - repeat constructor; try (vm_compute; discriminate); try (vm_compute; reflexivity);
      vm_compute; intros Hin;
      repeat (apply elem_of_cons in Hin as [Hin | Hin]; [discriminate Hin |]);
      by apply elem_of_nil in Hin.
  - repeat constructor; vm_compute; lia.
Defined.

Lemma split_blank_pieces (s : string) :
  forallb is_blank (str_split "," s) = forallb blank_or_comma (chars s).
Proof.
  induction s as [|c s IH]; [done |].
  change (chars (String c s)) with (c :: chars s). cbn [forallb str_split].
  rewrite <- IH. unfold blank_or_comma.
  destruct (decide (c = ","%char)) as [-> | Hc]; [done |].
  rewrite bool_decide_eq_false_2 by done. cbn [orb].
  pose proof (str_split_nonempty "," s) as Hne.
  destruct (str_split "," s) as [|w ws]; [done |]. cbn [forallb].
  change (is_blank (String c w)) with (is_space c && is_blank w).
  by rewrite andb_assoc.
Qed.

Lemma filter_nil_forallb {A : Type} (f : A -> bool) (l : list A) :
  List.filter f l = [] ↔ forallb (fun a => negb (f a)) l = true.
Proof.
  induction l as [|a l IH]; [done |]. cbn. destruct (f a); cbn; [done | exact IH].
Qed.

(** X3. [split_csv] returns no entry when the value is [None] or holds
    nothing but commas and white space; for an ASCII text this is the only
    way to get no entry. *)
Theorem split_csv_empty (value : option string) :
  (forallb blank_or_comma (chars (default EmptyString value)) = true →
   split_csv value = []) ∧
  (ascii_text (default EmptyString value) → split_csv value = [] →
   forallb blank_or_comma (chars (default EmptyString value)) = true).
Proof.
  assert (Hiff : split_csv value = []
                 ↔ forallb blank_or_comma (chars (default EmptyString value)) = true).
  { rewrite split_csv_unfold, <- split_blank_pieces.
    assert (Hext : ∀ l : list string,
              forallb (fun a => negb (str_truthy (str_strip a))) l = forallb is_blank l).
    { induction l as [|w l IH]; [done |]. cbn [forallb]. rewrite IH. f_equal.
      destruct (str_strip w) eqn:Hw.
      - symmetry. by apply str_strip_blank.
      - symmetry. apply not_true_is_false. intros Hb%str_strip_blank. congruence. }
    rewrite <- Hext, <- filter_nil_forallb. split.
    - apply fmap_nil_inv.
    - by intros ->. }
  split; [apply Hiff | intros _; apply Hiff].
Qed.

Lemma split_csv_empty_witness : split_csv (Some " , ,") = [].
Proof. apply (proj1 (split_csv_empty (Some " , ,"))). vm_compute. reflexivity. Defined.

(** ** recommender.py: more on the two functions *)

Lemma dedupe_app (seen : gset string) (a b : list Rec) :
  dedupe seen (a ++ b)
  = dedupe seen a ++ dedupe (list_to_set (rec_career <$> a) ∪ seen) b.
Proof.
  revert seen. induction a as [|r a IH]; intros seen.
  - cbn. f_equal. set_solver.
  - cbn [app dedupe fmap list_fmap list_to_set].
    destruct (decide (rec_career r ∈ seen)) as [Hin | Hnin].
    + rewrite IH. f_equal. f_equal. set_solver.
    + cbn [app]. rewrite IH. f_equal. f_equal. f_equal. set_solver.
Qed.

Lemma dedupe_seen (seen : gset string) (b : list Rec) :
  (∀ r : Rec, r ∈ b → rec_career r ∈ seen) → dedupe seen b = [].
Proof.
  induction b as [|r b IH]; intros Hall; [done |]. cbn.
  rewrite decide_True by (apply Hall; left). apply IH. intros r' Hr'. apply Hall. by right.
Qed.

Lemma dedupe_complete (seen : gset string) (recs : list Rec) (r : Rec) :
  r ∈ recs →
  rec_career r ∈ seen ∨ ∃ r' : Rec, r' ∈ dedupe seen recs ∧ rec_career r' = rec_career r.
Proof.
  revert seen. induction recs as [|r0 recs IH]; intros seen; [by intros ?%elem_of_nil |].
  cbn. intros [-> | Hr]%elem_of_cons.
  - destruct (decide (rec_career r0 ∈ seen)); [by left |]. right. exists r0. split; [left | done].
  - destruct (decide (rec_career r0 ∈ seen)); [by apply IH |].
    destruct (IH ({[rec_career r0]} ∪ seen) Hr) as [Hin | (r' & Hr' & Heq)].
    + apply elem_of_union in Hin as [Hin%elem_of_singleton | Hin]; [|by left].
      right. exists r0. split; [left | done].
    + right. exists r'. split; [by right | done].
Qed.

Lemma CAREER_MAP_careers_NoDup : NoDup (rec_career <$> CAREER_MAP.*2).
Proof. cbn. repeat (constructor; [set_solver |]). constructor. Qed.

Lemma NoDup_fmap_inj_on {A B : Type} (f : A -> B) (l : list A) (x y : A) :
  NoDup (f <$> l) → x ∈ l → y ∈ l → f x = f y → x = y.
Proof.
  induction l as [|a l IH]; [by intros _ ?%elem_of_nil |].
  rewrite fmap_cons, NoDup_cons. intros [Ha Hnd] [-> | Hx]%elem_of_cons [-> | Hy]%elem_of_cons Heq.
  - done.
  - exfalso. apply Ha. rewrite Heq. by apply list_elem_of_fmap_2.
  - exfalso. apply Ha. rewrite <- Heq. by apply list_elem_of_fmap_2.
  - by apply IH.
Qed.

(** X4. [get_recommendations] returns either the single General Counseling
    entry or entries of [CAREER_MAP]; no two entries name the same career;
    there is at least one entry and there are at most four; and the [skills]
    argument has no part in the result. *)
Theorem get_recommendations_shape (interests skills : list string) :
  let out := get_recommendations interests skills in
  (out = [general_counseling] ∨ out ⊆ CAREER_MAP.*2) ∧
  NoDup (rec_career <$> out) ∧
  1 ≤ length out ≤ 4 ∧
  out = get_recommendations interests [].
Proof.
  cbn zeta. split_and!; [| apply get_recommendations_NoDup | | | reflexivity].
  - unfold get_recommendations. destruct (dedupe ∅ _) as [|r0 out] eqn:Hout; [by left |].
    right. rewrite <- Hout. intros r Hr%dedupe_subseteq.
    apply list_elem_of_In, in_flat_map in Hr as (it & _ & Hr).
    by eapply matching_entries_known, list_elem_of_In.
  - unfold get_recommendations. destruct (dedupe ∅ _); cbn; lia.
  - unfold get_recommendations. destruct (dedupe ∅ _) as [|r0 out] eqn:Hout; [cbn; lia |].
    rewrite <- Hout.
    assert (Hsub : dedupe ∅ (List.flat_map
              (fun it => matching_entries (str_strip (str_lower it))) interests)
              ⊆+ CAREER_MAP.*2).
    { apply NoDup_submseteq.
      - eapply NoDup_fmap_1, dedupe_NoDup.
      - intros r Hr%dedupe_subseteq.
        apply list_elem_of_In, in_flat_map in Hr as (it & _ & Hr).
        by eapply matching_entries_known, list_elem_of_In. }
    apply submseteq_length in Hsub. exact Hsub.
Qed.

Lemma matching_entries_blank : matching_entries EmptyString = CAREER_MAP.*2.
Proof. reflexivity. Qed.

(** X5. An interest that is empty once lowercased and stripped matches every
    key of [CAREER_MAP] (the empty text is in every key): the result then
    holds each of the four careers of the map once, and no fallback entry. *)
Theorem blank_interest_matches_all (interests skills : list string) (it : string) :
  it ∈ interests → str_strip (str_lower it) = EmptyString →
  get_recommendations interests skills ≡ₚ CAREER_MAP.*2.
Proof.
  intros Hit Hblank. unfold get_recommendations.
  set (recs := List.flat_map (fun it => matching_entries (str_strip (str_lower it))) interests).
  assert (Hknown : ∀ r : Rec, r ∈ recs → r ∈ CAREER_MAP.*2).
  { intros r Hr. apply list_elem_of_In, in_flat_map in Hr as (it' & _ & Hr).
    by eapply matching_entries_known, list_elem_of_In. }
  assert (Hall : ∀ r : Rec, r ∈ CAREER_MAP.*2 → r ∈ dedupe ∅ recs).
  { intros r Hr.
    assert (Hrecs : r ∈ recs).
    { apply list_elem_of_In, in_flat_map. exists it. split; [by apply list_elem_of_In |].
      rewrite Hblank, matching_entries_blank. by apply list_elem_of_In. }
    destruct (dedupe_complete ∅ recs r Hrecs) as [Hin | (r' & Hr' & Heq)]; [set_solver |].
    assert (r' = r) as <-; [|done].
    apply (NoDup_fmap_inj_on rec_career (CAREER_MAP.*2));
      [apply CAREER_MAP_careers_NoDup | | done | done].
    by apply dedupe_subseteq, Hknown in Hr'. }
  assert (Hperm : dedupe ∅ recs ≡ₚ CAREER_MAP.*2).
  { apply NoDup_Permutation.
    - eapply NoDup_fmap_1, dedupe_NoDup.
    - eapply NoDup_fmap_1, CAREER_MAP_careers_NoDup.
    - intros r. split; [|apply Hall]. by intros Hr%dedupe_subseteq%Hknown. }
  destruct (dedupe ∅ recs) as [|r0 out] eqn:Hout; [|done].
  apply Permutation_nil_l in Hperm. discriminate Hperm.
Qed.

Lemma blank_interest_matches_all_witness :
  get_recommendations ["cooking"; "  "] [] ≡ₚ CAREER_MAP.*2.
Proof.
  apply (blank_interest_matches_all ["cooking"; "  "] [] "  ").
  - right. left.
  - vm_compute. reflexivity.
Defined.

(** X6. Interests that were given already add nothing: appending to the
    interests a list of entries taken from them leaves the result as it is,
    order included. *)
Theorem repeated_interests_ignored (interests more skills : list string) :
  more ⊆ interests →
  get_recommendations (interests ++ more) skills = get_recommendations interests skills.
Proof.
  intros Hsub. unfold get_recommendations. rewrite flat_map_app, dedupe_app.
  rewrite (dedupe_seen _ (List.flat_map _ more)); [by rewrite app_nil_r |].
  intros r Hr. apply list_elem_of_In, in_flat_map in Hr as (it & Hit & Hr).
  apply elem_of_union_l, elem_of_list_to_set, list_elem_of_fmap_2.
  apply list_elem_of_In, in_flat_map. exists it. split; [|done].
  by apply list_elem_of_In, Hsub, list_elem_of_In.
Qed.

Lemma repeated_interests_ignored_witness :
  get_recommendations (["Data"; "design"] ++ ["design"; "Data"]) []
  = get_recommendations ["Data"; "design"] [].
Proof.
  apply (repeated_interests_ignored ["Data"; "design"] ["design"; "Data"] []).
  intros x Hx. repeat (apply elem_of_cons in Hx as [-> | Hx]; [set_solver |]).
  by apply elem_of_nil in Hx.
Defined.

(** Skill gaps *)
Section FoldInsertMore.
Context {A V : Type} (key : A -> string) (val : A -> V).

Lemma fold_insert_none (l : list A) (m : gmap string V) (k : string) :
  fold_left (fun m a => <[ key a := val a ]> m) l m !! k = None ↔
  (k ∉ key <$> l) ∧ m !! k = None.
Proof.
  revert m. induction l as [|a l IH]; intros m.
  - cbn. split; [intros ?; split; [by intros ?%elem_of_nil | done] | by intros [_ ?]].
  - cbn [fold_left]. rewrite IH, fmap_cons, not_elem_of_cons.
    destruct (decide (k = key a)) as [-> | Hk].
    + rewrite lookup_insert_eq. naive_solver.
    + rewrite lookup_insert_ne by done. naive_solver.
Qed.

Lemma fold_insert_some (l : list A) (k : string) (v : V) :
  fold_left (fun m a => <[ key a := val a ]> m) l (∅ : gmap string V) !! k = Some v →
  ∃ (pre post : list A) (x : A),
    l = pre ++ x :: post ∧ key x = k ∧ (k ∉ key <$> post) ∧ v = val x.
Proof.
  intros Hv.
  assert (Hin : k ∈ key <$> l).
  { destruct (decide (k ∈ key <$> l)) as [Hin | Hnin]; [done |].
    rewrite (proj2 (fold_insert_none l ∅ k)) in Hv; [done |]. split; [done | apply lookup_empty]. }
  revert Hv. induction l as [|a l IH] using rev_ind; [by apply elem_of_nil in Hin |].
  rewrite fold_left_app. cbn [fold_left].
  destruct (decide (k = key a)) as [-> | Hk].
  - rewrite lookup_insert_eq. intros [= <-]. exists l, [], a.
    split_and!; [done | done | by intros ?%elem_of_nil | done].
  - rewrite lookup_insert_ne by done. intros Hv.
    rewrite fmap_app, elem_of_app in Hin. destruct Hin as [Hin | Hin]; [|set_solver].
    destruct (IH Hin Hv) as (pre & post & x & -> & Hx & Hpost & ->).
    exists pre, (post ++ [a]), x. split_and!; [by rewrite <- app_assoc | done | | done].
    rewrite fmap_app. set_solver.
Qed.

End FoldInsertMore.

Lemma skill_gap_fold (recs : list Rec) (user_skills : list string) :
  skill_gap recs user_skills
  = fold_left (fun gaps r =>
       <[ rec_career r :=
            elements ((list_to_set (rec_skills r) : gset string)
                        ∖ list_to_set (gap_user user_skills)) ]> gaps) recs ∅.
Proof. reflexivity. Qed.

(** X7. The keys of the dict [skill_gap] returns are the careers of the
    recommendations it is given, whatever these are. When several carry one
    career the last of them decides: the gap under the career lists, each
    once, the skills of that recommendation that are not among the user's
    skills lowercased and stripped. The required side is compared as it is
    written, without case folding. *)
Theorem skill_gap_keys (recs : list Rec) (user_skills : list string) :
  (∀ k : string, skill_gap recs user_skills !! k = None ↔ k ∉ rec_career <$> recs) ∧
  (∀ (k : string) (missing : list string),
     skill_gap recs user_skills !! k = Some missing →
     ∃ (pre post : list Rec) (r : Rec),
       recs = pre ++ r :: post ∧ rec_career r = k ∧ (k ∉ rec_career <$> post) ∧
       NoDup missing ∧
       ∀ s : string, s ∈ missing ↔ s ∈ rec_skills r ∧ (s ∉ gap_user user_skills)).
Proof.
  rewrite skill_gap_fold. split.
  - intros k.
    rewrite (fold_insert_none rec_career
               (fun r => elements ((list_to_set (rec_skills r) : gset string)
                                     ∖ list_to_set (gap_user user_skills)))).
    rewrite lookup_empty. naive_solver.
  - intros k missing Hk.
    apply (fold_insert_some rec_career
             (fun r => elements ((list_to_set (rec_skills r) : gset string)
                                   ∖ list_to_set (gap_user user_skills)))) in Hk
      as (pre & post & r & -> & Hr & Hpost & ->).
    exists pre, post, r. split_and!; [done | done | done | apply NoDup_elements |].
    intros s. by rewrite elem_of_elements, elem_of_difference, !elem_of_list_to_set.
Qed.

(** X8. Skills the user adds can only shrink a gap: every gap reported for
    the longer skill list is part of the gap reported under the same career
    for the shorter one, and a skill that left the gap is one of the added
    skills, lowercased and stripped. *)
Theorem skill_gap_shrinks (recs : list Rec) (user_skills learned : list string)
    (k : string) (missing' : list string) :
  skill_gap recs (user_skills ++ learned) !! k = Some missing' →
  ∃ missing : list string,
    skill_gap recs user_skills !! k = Some missing ∧ missing' ⊆ missing ∧
    ∀ s : string, s ∈ missing → s ∉ missing' → s ∈ gap_user learned.
Proof.
  rewrite !skill_gap_fold. intros Hk.
  apply (fold_insert_some rec_career
           (fun r => elements ((list_to_set (rec_skills r) : gset string)
                                 ∖ list_to_set (gap_user (user_skills ++ learned))))) in Hk
    as (pre & post & r & -> & <- & Hpost & ->).
  eexists. split_and!.
  - by apply (fold_insert_last rec_career
             (fun r => elements ((list_to_set (rec_skills r) : gset string)
                                   ∖ list_to_set (gap_user user_skills)))).
  - intros s. rewrite !elem_of_elements, !elem_of_difference, !elem_of_list_to_set.
    unfold gap_user. rewrite fmap_app, elem_of_app. naive_solver.
  - intros s. rewrite !elem_of_elements, !elem_of_difference, !elem_of_list_to_set.
    unfold gap_user. rewrite fmap_app, elem_of_app.
    intros [Hs Hu] Hn. destruct (decide (s ∈ (fun s => str_strip (str_lower s)) <$> learned));
      [done |]. exfalso. apply Hn. split; [done |]. naive_solver.
Qed.

Lemma skill_gap_shrinks_witness :
  ∃ missing : list string,
    skill_gap [data_analyst] ["python"] !! "Data Analyst" = Some missing ∧
    ["statistics"] ⊆ missing ∧
    ∀ s : string, s ∈ missing → s ∉ ["statistics"] → s ∈ gap_user [" SQL "].
Proof.
  apply (skill_gap_shrinks [data_analyst] ["python"] [" SQL "] "Data Analyst" ["statistics"]).
  vm_compute. reflexivity.
Defined.

(** ** The page of the recommendation route *)

Lemma prepare_roadmaps (user_skills : gset string) (cs : list Candidate)
    (ctx : RecommendContext) :
  ctx_roadmaps
    (fold_left
      (fun ctx x =>
         let career := cand_career x in
         let required_skills := cand_reqs x in
         let missing := missing_skills_of user_skills required_skills in
         mkContext
           (ctx_recs ctx ++ [mkRec (c_title career) required_skills])
           (<[ c_title career := missing ]> (ctx_gaps ctx))
           (<[ c_title career := build_roadmap (c_title career) required_skills missing ]>
              (ctx_roadmaps ctx)))
      cs ctx)
  = fold_left (fun g x => <[ cand_title x :=
                   build_roadmap (cand_title x) (cand_reqs x)
                     (missing_skills_of user_skills (cand_reqs x)) ]> g)
              cs (ctx_roadmaps ctx).
Proof.
  revert ctx. induction cs as [|x cs IH]; intros ctx; [done |].
  cbn [fold_left]. by rewrite IH.
Qed.

(** X9. On the page of the recommendation route the dicts [gaps] and
    [roadmaps] have the same keys, the titles of the listed careers; and
    under each title the roadmap is [build_roadmap] of one listed entry of
    that title, its required skills, and the very gap reported under the
    title. *)
Theorem gaps_and_roadmaps_agree (db : DB) (user_id : nat) (user : User) :
  get_user db user_id = Some user →
  ∃ ctx : RecommendContext,
    recommend db user_id = Render ctx ∧
    ∀ title : string,
      match ctx_gaps ctx !! title, ctx_roadmaps ctx !! title with
      | Some missing, Some phases =>
          ∃ reqs : list string,
            mkRec title reqs ∈ ctx_recs ctx ∧
            missing = missing_skills_of (user_skill_set user) reqs ∧
            phases = build_roadmap title reqs missing
      | None, None => title ∉ rec_career <$> ctx_recs ctx
      | _, _ => False
      end.
Proof.
  intros Huser. unfold recommend. rewrite Huser. eexists. split; [reflexivity |].
  set (cs := recommend_candidates db user). set (us := user_skill_set user).
  destruct (prepare_loop us cs (mkContext [] ∅ ∅)) as [Hr Hg].
  pose proof (prepare_roadmaps us cs (mkContext [] ∅ ∅)) as Hm.
  cbn zeta in Hr, Hg. cbn [ctx_recs ctx_gaps ctx_roadmaps app] in Hr, Hg, Hm.
  unfold prepare_recs. intros title. rewrite Hr, Hg, Hm.
  set (gap := fun x : Candidate => missing_skills_of us (cand_reqs x)).
  set (road := fun x : Candidate => build_roadmap (cand_title x) (cand_reqs x)
                                      (missing_skills_of us (cand_reqs x))).
  assert (Htitles : rec_career <$> ((fun x => mkRec (cand_title x) (cand_reqs x)) <$> cs)
                    = cand_title <$> cs).
  { rewrite <- list_fmap_compose. by apply list_fmap_ext. }
  destruct (fold_left (fun g x => <[cand_title x := gap x]> g) cs
              (∅ : gmap string (list string)) !! title) as [missing|] eqn:Hgap.
  - apply (fold_insert_some cand_title gap) in Hgap
      as (pre & post & x & Hcs & Hx & Hpost & ->).
    rewrite Hcs, <- Hx. rewrite <- Hx in Hpost.
    rewrite (fold_insert_last cand_title road), (fold_insert_last cand_title gap) by done.
    exists (cand_reqs x). split_and!; [| done | done].
    apply list_elem_of_fmap. exists x. split; [done |]. set_solver.
  - apply (fold_insert_none cand_title gap) in Hgap as [Hnone _].
    rewrite (proj2 (fold_insert_none cand_title road cs ∅ title)) by done.
    rewrite (proj2 (fold_insert_none cand_title gap cs ∅ title)) by done.
    by rewrite Htitles.
Qed.

Lemma gaps_and_roadmaps_agree_witness :
  ∃ ctx : RecommendContext,
    recommend twin_db 1 = Render ctx ∧
    ∀ title : string,
      match ctx_gaps ctx !! title, ctx_roadmaps ctx !! title with
      | Some missing, Some phases =>
          ∃ reqs : list string,
            mkRec title reqs ∈ ctx_recs ctx ∧
            missing = missing_skills_of (user_skill_set python_user) reqs ∧
            phases = build_roadmap title reqs missing
      | None, None => title ∉ rec_career <$> ctx_recs ctx
      | _, _ => False
      end.
Proof.
  apply (gaps_and_roadmaps_agree twin_db 1 python_user). vm_compute. reflexivity.
Defined.

(** X10. For an existing user the recommendation route lists careers of the
    catalog only, each row of the catalog at most once, so never more
    entries than the catalog has careers; and the list is empty only when
    the catalog is. *)
Theorem recommend_never_empty (db : DB) (user_id : nat) (user : User) :
  get_user db user_id = Some user →
  ∃ (ctx : RecommendContext) (listed : list Career),
    recommend db user_id = Render ctx ∧
    listed `sublist_of` careers db ∧
    rec_career <$> ctx_recs ctx ≡ₚ c_title <$> listed ∧
    length (ctx_recs ctx) ≤ length (careers db) ∧
    (ctx_recs ctx = [] ↔ careers db = []).
Proof.
  intros Huser. unfold recommend. rewrite Huser.
  destruct (prepare_loop (user_skill_set user) (recommend_candidates db user)
              (mkContext [] ∅ ∅)) as [Hr _].
  cbn zeta in Hr. cbn [ctx_recs app] in Hr.
  exists (prepare_recs (user_skill_set user) (recommend_candidates db user)),
         (cand_career <$> unsorted_candidates db user).
  unfold prepare_recs. rewrite Hr.
  assert (Hsub : (cand_career <$> unsorted_candidates db user) `sublist_of` careers db).
  { rewrite unsorted_candidates_spec. cbn zeta.
    destruct (List.filter _ (careers db)) as [|q qs] eqn:Hq.
    - rewrite (fmap_cand_career fallback_reqs (fun _ => f_zero)). apply sublist_take.
    - rewrite <- Hq, fmap_cand_career. apply filter_sublist. }
  assert (Hperm : recommend_candidates db user ≡ₚ unsorted_candidates db user).
  { rewrite recommend_candidates_sorted. apply sort_reverse_perm. }
  split_and!; [done | exact Hsub | | |].
  - rewrite <- !list_fmap_compose, Hperm. done.
  - rewrite length_fmap, Hperm, <- (length_fmap cand_career). by apply sublist_length.
  - split.
    + intros Hnil%fmap_nil_inv. rewrite Hnil in Hperm. symmetry in Hperm.
      apply Permutation_nil_r in Hperm. revert Hperm.
      rewrite unsorted_candidates_spec. cbn zeta.
      destruct (List.filter _ (careers db)) as [|q qs] eqn:Hq; [|done].
      intros Hf%fmap_nil_inv. by destruct (careers db).
    + intros Hnil.
      assert (Hcs : recommend_candidates db user = []); [|by rewrite Hcs].
      apply Permutation_nil_r. rewrite Hperm.
      rewrite unsorted_candidates_spec. cbn zeta. by rewrite Hnil.
Qed.

Lemma recommend_never_empty_witness :
  ∃ (ctx : RecommendContext) (listed : list Career),
    recommend one_career_db 1 = Render ctx ∧
    listed `sublist_of` careers one_career_db ∧
    rec_career <$> ctx_recs ctx ≡ₚ c_title <$> listed ∧
    length (ctx_recs ctx) ≤ length (careers one_career_db) ∧
    (ctx_recs ctx = [] ↔ careers one_career_db = []).
Proof.
  apply (recommend_never_empty one_career_db 1 fresh_user). vm_compute. reflexivity.
Defined.

(** ** Which careers are listed *)

Lemma add_ones_positive (n : nat) :
  0 < n → (Z.of_nat n < 2 ^ 53)%Z →
  ∃ (m : positive) (e : Z), add_ones n = S754_finite false m e.
Proof.
  intros Hpos Hn. rewrite add_ones_exact by done.
  destruct n as [|n]; [lia |]. rewrite float_of_nat_S, float_of_pos_exact by lia. eauto.
Qed.

Lemma career_score_no_overlap (user : User) (career : Career) :
  overlap_of user career = 0 →
  career_score user career = fadd (add_ones (interest_matches user career)) f_zero.
Proof. intros Ho. by rewrite career_score_loop, Ho. Qed.

(** The test of line 175 in terms of the matches themselves. *)
Lemma qualifies_iff_matched (user : User) (career : Career) :
  (Z.of_nat (length (split_csv (u_interests user))) < 2 ^ 53)%Z →
  qualifies (overlap_of user career) (career_score user career) = true ↔ matched user career.
Proof.
  intros Hlen. pose proof (interest_matches_le user career) as Hle.
  unfold matched, qualifies. rewrite orb_true_iff, bool_decide_eq_true.
  destruct (decide (0 < overlap_of user career)) as [Ho | Ho]; [naive_solver |].
  assert (Hz : overlap_of user career = 0) by lia.
  rewrite career_score_no_overlap by done.
  destruct (decide (0 < interest_matches user career)) as [Hm | Hm].
  - destruct (add_ones_positive _ Hm ltac:(lia)) as (m & e & ->). cbn. naive_solver.
  - replace (interest_matches user career) with 0 by lia. cbn. split; [|lia].
    intros [Hf | Hf]; [discriminate Hf | lia].
Qed.

(** X11. The test [score > 0 or overlap > 0] of the route, read on the
    matches themselves (fewer than 2^53 interests): when some career of the
    catalog has an interest of the user in its title or shares a skill with
    the user, the listed careers are exactly those careers; when none has,
    the listed careers are the first five of the catalog, in catalog
    order. *)
Theorem listed_iff_matched (db : DB) (user : User) :
  (Z.of_nat (length (split_csv (u_interests user))) < 2 ^ 53)%Z →
  ((∃ c : Career, c ∈ careers db ∧ matched user c) →
   ∀ c : Career,
     c ∈ cand_career <$> recommend_candidates db user ↔ c ∈ careers db ∧ matched user c) ∧
  ((∀ c : Career, c ∈ careers db → ¬ matched user c) →
   cand_career <$> recommend_candidates db user = take 5 (careers db)).
Proof.
  intros Hlen.
  assert (Hfilter : ∀ c : Career,
            c ∈ List.filter (fun c => qualifies (overlap_of user c) (career_score user c))
                  (careers db) ↔ c ∈ careers db ∧ matched user c).
  { intros c. rewrite list_elem_of_In, filter_In, <- list_elem_of_In.
    by rewrite qualifies_iff_matched. }
  pose proof (unsorted_candidates_spec db user) as Hu. cbn zeta in Hu.
  split.
  - intros (c0 & Hc0) c. rewrite recommend_candidates_sorted, sort_reverse_perm, Hu.
    apply Hfilter in Hc0.
    destruct (List.filter _ (careers db)) as [|q qs] eqn:Hq; [by apply elem_of_nil in Hc0 |].
    rewrite <- Hq in *. by rewrite fmap_cand_career.
  - intros Hnone. rewrite recommend_candidates_sorted.
    destruct (List.filter _ (careers db)) as [|q qs] eqn:Hq.
    + rewrite (sort_reverse_constant cand_score f_zero).
      * by rewrite Hu, (fmap_cand_career fallback_reqs (fun _ => f_zero)).
      * rewrite Hu. by apply Forall_fmap, Forall_forall.
    + exfalso. assert (Hin : q ∈ q :: qs) by left.
      apply Hfilter in Hin as [Hin Hm]. by apply (Hnone q).
Qed.

Lemma listed_iff_matched_witness :
  software_engineer ∈ cand_career <$> recommend_candidates seeded_db programmer ↔
  software_engineer ∈ careers seeded_db ∧ matched programmer software_engineer.
Proof.
  assert (Hlen : (Z.of_nat (length (split_csv (u_interests programmer))) < 2 ^ 53)%Z)
    by (vm_compute; reflexivity).
  apply (proj1 (listed_iff_matched seeded_db programmer Hlen)).
  exists software_engineer. split; [left |]. right. vm_compute. lia.
Defined.

(** Case folding *)
Lemma is_space_lower (c : ascii) : is_space (ascii_lower c) = is_space c.
Proof. by destruct c as [[] [] [] [] [] [] [] []]. Qed.

Lemma ascii_lower_comma (c : ascii) : ascii_lower c = ","%char ↔ c = ","%char.
Proof. destruct c as [[] [] [] [] [] [] [] []]; vm_compute; split; congruence. Qed.

Lemma str_lstrip_lower (s : string) : str_lstrip (str_lower s) = str_lower (str_lstrip s).
Proof.
  induction s as [|c s IH]; [done |]. cbn [str_lower str_lstrip]. rewrite is_space_lower.
  by destruct (is_space c).
Qed.

Lemma str_rstrip_lower (s : string) : str_rstrip (str_lower s) = str_lower (str_rstrip s).
Proof.
  induction s as [|c s IH]; [done |]. cbn [str_lower str_rstrip]. rewrite IH, is_space_lower.
  destruct (str_rstrip s); cbn [str_lower]; [by destruct (is_space c) | done].
Qed.

Lemma str_strip_lower (s : string) : str_strip (str_lower s) = str_lower (str_strip s).
Proof. unfold str_strip. by rewrite str_lstrip_lower, str_rstrip_lower. Qed.

Lemma str_truthy_lower (s : string) : str_truthy (str_lower s) = str_truthy s.
Proof. by destruct s. Qed.

Lemma str_split_lower (s : string) :
  str_split "," (str_lower s) = str_lower <$> str_split "," s.
Proof.
  induction s as [|c s IH]; [done |]. cbn [str_lower str_split]. rewrite IH.
  destruct (decide (c = ","%char)) as [-> | Hc].
  - by rewrite decide_True.
  - rewrite decide_False by (by rewrite ascii_lower_comma).
    by destruct (str_split "," s).
Qed.

Lemma split_csv_lower (value : option string) :
  split_csv (str_lower <$> value) = str_lower <$> split_csv value.
Proof.
  unfold split_csv.
  assert (Hd : default EmptyString (str_lower <$> value)
               = str_lower (default EmptyString value)) by (by destruct value).
  rewrite Hd, str_split_lower. generalize (str_split "," (default EmptyString value)).
  intros l. induction l as [|w l IH]; [done |].
  cbn [fmap list_fmap List.filter List.map].
  rewrite str_strip_lower, str_truthy_lower.
  destruct (str_truthy (str_strip w)); cbn [List.map fmap list_fmap];
    by rewrite ?str_strip_lower, IH.
Qed.

Lemma opt_truthy_lower (o : option string) :
  opt_truthy (str_lower <$> o) = str_lower <$> opt_truthy o.
Proof. destruct o as [[|c s]|]; done. Qed.

Lemma user_skill_names_lower (user : User) :
  user_skill_names (lower_user user) = str_lower <$> user_skill_names user.
Proof.
  unfold user_skill_names, lower_user. cbn [u_skills u_skills_text].
  assert (Hrows : omap (fun s => opt_truthy (us_name s))
                    ((fun s => mkUserSkill (str_lower <$> us_name s)) <$> u_skills user)
                  = str_lower <$> omap (fun s => opt_truthy (us_name s)) (u_skills user)).
  { induction (u_skills user) as [|s l IH]; [done |]. cbn [fmap list_fmap omap list_omap us_name].
    rewrite opt_truthy_lower. destruct (opt_truthy (us_name s)); cbn; by rewrite IH. }
  rewrite Hrows. destruct (omap _ (u_skills user)); [apply split_csv_lower | done].
Qed.

(** X12. The recommendation does not depend on the case the user wrote
    interests and skills in: lowercasing the interests, the free-text skills
    and the names of the stored skills changes neither the user's skill set,
    nor the candidates with their scores and order, nor the entries
    listed. *)
Theorem recommendation_ignores_case (db : DB) (user : User) :
  user_skill_set (lower_user user) = user_skill_set user ∧
  recommend_candidates db (lower_user user) = recommend_candidates db user ∧
  prepare_recs (user_skill_set (lower_user user)) (recommend_candidates db (lower_user user))
  = prepare_recs (user_skill_set user) (recommend_candidates db user).
Proof.
  assert (Hset : user_skill_set (lower_user user) = user_skill_set user).
  { rewrite !user_skill_set_names, user_skill_names_lower, <- list_fmap_compose.
    f_equal. apply list_fmap_ext. intros _ s _. apply str_lower_idemp. }
  assert (Hint : List.map str_lower (split_csv (u_interests (lower_user user)))
                 = List.map str_lower (split_csv (u_interests user))).
  { cbn [lower_user u_interests]. rewrite split_csv_lower.
    change (List.map str_lower ?l) with (str_lower <$> l). rewrite <- list_fmap_compose.
    apply list_fmap_ext. intros _ s _. apply str_lower_idemp. }
  assert (Hcs : recommend_candidates db (lower_user user) = recommend_candidates db user).
  { unfold recommend_candidates. cbv zeta. by rewrite Hset, Hint. }
  by rewrite Hcs, Hset.
Qed.

(** ** Saving a plan: answers and tables *)

Lemma next_id_above (ids : list nat) (x : nat) : x ∈ ids → x < next_id ids.
Proof.
  unfold next_id. induction ids as [|y ids IH]; [by intros ?%elem_of_nil |].
  cbn. intros [-> | Hx]%elem_of_cons; [lia |]. apply IH in Hx. lia.
Qed.

Lemma next_id_fresh (ids : list nat) : next_id ids ∉ ids.
Proof. intros Hin%next_id_above. lia. Qed.

Lemma NoDup_snoc_fresh {A : Type} (key : A -> nat) (l : list A) (x : A) :
  key x = next_id (key <$> l) → NoDup (key <$> l) → NoDup (key <$> l ++ [x]).
Proof.
  intros Hx Hnd. rewrite fmap_app. apply NoDup_app. split_and!; [done | | apply NoDup_singleton].
  intros k Hk ->%list_elem_of_singleton. rewrite Hx in Hk. by apply next_id_fresh in Hk.
Qed.

Lemma persist_steps_ids (db : DB) (plan : Plan) (t : string) (steps : list string)
    (order : nat) :
  NoDup (ps_id <$> plan_steps db) →
  NoDup (ps_id <$> plan_steps (persist_steps db plan t steps order).1).
Proof.
  revert db order. induction steps as [|step steps IH]; intros db order Hnd; [done |].
  cbn [persist_steps]. rewrite add_plan_step_some. apply IH.
  cbn [with_plan_steps plan_steps]. by apply NoDup_snoc_fresh.
Qed.

Lemma persist_phases_ids (db : DB) (plan : Plan) (phases : list Phase) (order : nat) :
  NoDup (ps_id <$> plan_steps db) →
  NoDup (ps_id <$> plan_steps (persist_phases db plan phases order).1).
Proof.
  revert db order. induction phases as [|ph phases IH]; intros db order Hnd; [done |].
  cbn [persist_phases].
  pose proof (persist_steps_ids db plan (ph_title ph) (ph_steps ph) order Hnd) as Hnd'.
  destruct (persist_steps db plan (ph_title ph) (ph_steps ph) order) as [db' order'].
  by apply IH.
Qed.

(** Everything [save_plan] can do, by cases. *)
Lemma save_plan_cases (db : DB) (user_id : nat) (request : Request) :
  (get_user db user_id = None ∧ save_plan db user_id request = (db, NotFound)) ∨
  (is_Some (get_user db user_id) ∧ requested_career request = None ∧
   save_plan db user_id request = (db, failure "Career required")) ∨
  (∃ (user : User) (t : string) (career : Career) (created : list Career) (plan : Plan)
     (rows : list PlanStep) (resp : response),
     get_user db user_id = Some user ∧
     requested_career request = Some t ∧
     c_title career = t ∧
     (career_titled db t = Some career ∧ created = [] ∨
      career_titled db t = None ∧ created = [career] ∧
      career = mkCareer (next_id (c_id <$> careers db)) t [] []) ∧
     plan = mkPlan (next_id (p_id <$> plans db)) (u_id user) (Some (c_id career))
                   ("Roadmap for " +:+ t) ∧
     save_plan db user_id request
       = (mkDB (users db) (careers db ++ created) (plans db ++ [plan])
               (plan_steps db ++ rows) (resource_rows db), resp) ∧
     (NoDup (ps_id <$> plan_steps db) → NoDup (ps_id <$> plan_steps db ++ rows)) ∧
     match multi_getlist "missing" (form request) with
     | [] => rows = [] ∧ resp = Raised "AttributeError"
     | _ :: _ =>
         resp = plan_saved career plan ∧
         Forall (fun st => ps_plan_id st = p_id plan) rows ∧
         length rows = 10 + length (required_of career)
                       + length (multi_getlist "missing" (form request))
     end).
Proof.
  unfold save_plan.
  destruct (get_user db user_id) as [user|] eqn:Huser; [|by left].
  right. destruct (requested_career request) as [t|] eqn:Hreq; [|left; eauto].
  right.
  assert (Hfound : ∃ (career : Career) (created : list Career),
            match List.find (fun c => bool_decide (c_title c = t)) (careers db) with
            | Some career => inr (db, career)
            | None => add_career db (Some t)
            end = inr (mkDB (users db) (careers db ++ created) (plans db) (plan_steps db)
                            (resource_rows db), career) ∧
            c_title career = t ∧
            (career_titled db t = Some career ∧ created = [] ∨
             career_titled db t = None ∧ created = [career] ∧
             career = mkCareer (next_id (c_id <$> careers db)) t [] [])).
  { unfold career_titled. destruct (List.find _ (careers db)) as [career|] eqn:Hfind.
    - exists career, []. rewrite app_nil_r. split_and!; [by destruct db | | by left].
      by apply find_title in Hfind.
    - eexists _, _. split_and!; [reflexivity | done | right; done]. }
  destruct Hfound as (career & created & Hfound & Htitle & Hcases).
  cbv zeta. rewrite Hfound. cbn [add_plan careers plans users plan_steps resource_rows].
  set (plan := mkPlan (next_id (List.map p_id (plans db))) (u_id user) (Some (c_id career))
                 ("Roadmap for " +:+ c_title career)).
  set (db2 := mkDB (users db) (careers db ++ created) (plans db ++ [plan]) (plan_steps db)
                (resource_rows db)).
  destruct (multi_getlist "missing" (form request)) as [|m ms] eqn:Hmissing.
  - exists user, t, career, created, plan, [], (Raised "AttributeError").
    rewrite app_nil_r. split_and!; try done. unfold plan. by rewrite Htitle.
  - set (phases := build_roadmap (c_title career) (required_of career) (m :: ms)).
    destruct (persist_phases_spec db2 plan phases 1) as (rows & Hpersist & Hp & Ht & _).
    pose proof (persist_phases_ids db2 plan phases 1) as Hids.
    rewrite Hpersist in Hids |- *. rewrite add_plan_step_some, with_plan_steps_app.
    eexists user, t, career, created, plan, (rows ++ [_]), _.
    split_and!; [done | done | done | done | | reflexivity | | done | |].
    + unfold plan. by rewrite Htitle.
    + intros Hnd. specialize (Hids Hnd). cbn [fst with_plan_steps plan_steps db2] in Hids.
      rewrite app_assoc. apply NoDup_snoc_fresh; [|done]. cbn [ps_id]. done.
    + apply Forall_app. split; [|by repeat constructor].
      rewrite Forall_forall. intros st Hst.
      apply (list_elem_of_fmap_2 ps_plan_id) in Hst. rewrite Hp in Hst.
      by apply elem_of_replicate in Hst as [-> _].
    + rewrite length_app, <- (length_fmap ps_title rows), Ht. cbn [length].
      unfold phases, flat_titles, build_roadmap. cbn [app List.flat_map ph_steps ph_title].
      rewrite !length_app, !length_map.
      cbn [length projects_phase portfolio_phase apply_phase ph_steps List.map].
      lia.
Qed.

Lemma find_app_l {A : Type} (f : A -> bool) (l l' : list A) (x : A) :
  List.find f l = Some x → List.find f (l ++ l') = Some x.
Proof.
  induction l as [|a l IH]; [done |]. cbn. destruct (f a); [done | exact IH].
Qed.

Lemma find_app_r {A : Type} (f : A -> bool) (l l' : list A) :
  List.find f l = None → List.find f (l ++ l') = List.find f l'.
Proof.
  induction l as [|a l IH]; [done |]. cbn. destruct (f a); [done | exact IH].
Qed.


(** X14. [save_plan] only appends: users and resources are untouched, at
    most one career and at most one plan are added at the end of their
    tables, and every step row added belongs to the plan added. *)
Theorem save_plan_only_appends (db : DB) (user_id : nat) (request : Request) :
  let db' := (save_plan db user_id request).1 in
  users db' = users db ∧
  resource_rows db' = resource_rows db ∧
  ∃ (created : list Career) (added : list Plan) (rows : list PlanStep),
    careers db' = careers db ++ created ∧ length created ≤ 1 ∧
    plans db' = plans db ++ added ∧ length added ≤ 1 ∧
    plan_steps db' = plan_steps db ++ rows ∧
    Forall (fun st => ∃ p : Plan, added = [p] ∧ ps_plan_id st = p_id p) rows.
Proof.
  cbn zeta.
  destruct (save_plan_cases db user_id request)
    as [[Huser ->] | [(_ & Hreq & ->) |
        (user & t & career & created & plan & rows & resp & Huser & Hreq & _ & Hc & _ & -> & _
         & Hresp)]]; cbn [fst users careers plans plan_steps resource_rows].
  - split_and!; [done | done |]. exists [], [], []. rewrite !app_nil_r.
    split_and!; [done | cbn; lia | done | cbn; lia | done | constructor].
  - split_and!; [done | done |]. exists [], [], []. rewrite !app_nil_r.
    split_and!; [done | cbn; lia | done | cbn; lia | done | constructor].
  - split_and!; [done | done |]. exists created, [plan], rows.
    split_and!; [done | | done | done | done |].
    + destruct Hc as [[_ ->] | (_ & -> & _)]; cbn; lia.
    + destruct (multi_getlist "missing" (form request)) as [|m ms].
      * destruct Hresp as [-> _]. constructor.
      * destruct Hresp as (_ & Hp & _). eapply Forall_impl; [exact Hp |]. cbn. eauto.
Qed.

(** X15. [save_plan] finds or creates the career: for an existing user and a
    request naming a career title, the catalog has a career of that title
    afterwards; it is unchanged if it had one before; and any later
    [save_plan] for the same title, by whatever user, adds no career. *)
Theorem save_plan_reuses_career (db : DB) (user_id : nat) (request : Request) (t : string) :
  is_Some (get_user db user_id) →
  requested_career request = Some t →
  let db1 := (save_plan db user_id request).1 in
  is_Some (career_titled db1 t) ∧
  (is_Some (career_titled db t) → careers db1 = careers db) ∧
  ∀ (user_id' : nat) (request' : Request),
    requested_career request' = Some t →
    careers (save_plan db1 user_id' request').1 = careers db1.
Proof.
  intros [user Huser] Hreq. cbn zeta.
  assert (Hsecond : ∀ (d : DB) (u : nat) (r : Request),
            requested_career r = Some t → is_Some (career_titled d t) →
            careers (save_plan d u r).1 = careers d).
  { intros d u r Hr [c Hc].
    destruct (save_plan_cases d u r)
      as [[_ ->] | [(_ & _ & ->) |
          (user' & t' & career & created & plan & rows & resp & _ & Hr' & _ & Hcases & _ & -> & _)]];
      [done | done |].
    cbn [fst careers]. rewrite Hr in Hr'. injection Hr' as <-.
    destruct Hcases as [[_ ->] | (Hnone & _)]; [by rewrite app_nil_r | congruence]. }
  destruct (save_plan_cases db user_id request)
    as [[Hnone _] | [(_ & Hnone & _) |
        (user' & t' & career & created & plan & rows & resp & _ & Hr' & Htitle & Hcases & _
         & Heq & _)]]; [congruence | congruence |].
  rewrite Hreq in Hr'. injection Hr' as <-.
  assert (Hfound : is_Some (career_titled (save_plan db user_id request).1 t)).
  { rewrite Heq. cbn [fst]. unfold career_titled in *. cbn [careers].
    destruct Hcases as [[Hsome ->] | (Hnone & -> & _)].
    - rewrite (find_app_l _ _ _ _ Hsome). eauto.
    - rewrite find_app_r by done. cbn. rewrite bool_decide_eq_true_2 by done. eauto. }
  split_and!; [exact Hfound | | ].
  - intros [c Hc]. rewrite Heq. cbn [fst careers].
    destruct Hcases as [[_ ->] | (Hnone & _)]; [by rewrite app_nil_r | congruence].
  - intros u r Hr. by apply Hsecond.
Qed.

Lemma save_plan_reuses_career_witness :
  is_Some (career_titled (save_plan one_career_db 1 midwife_request).1 "Midwife") ∧
  (is_Some (career_titled one_career_db "Midwife") →
   careers (save_plan one_career_db 1 midwife_request).1 = careers one_career_db) ∧
  ∀ (user_id' : nat) (request' : Request),
    requested_career request' = Some "Midwife" →
    careers (save_plan (save_plan one_career_db 1 midwife_request).1 user_id' request').1
    = careers (save_plan one_career_db 1 midwife_request).1.
Proof.
  apply (save_plan_reuses_career one_career_db 1 midwife_request "Midwife").
  - vm_compute. eauto.
  - vm_compute. reflexivity.
Defined.

(** X16. [save_plan] keeps the primary keys distinct: if no two careers, no
    two plans and no two plan steps share an id before the request, none do
    after it. *)
Theorem save_plan_keeps_keys_unique (db : DB) (user_id : nat) (request : Request) :
  keys_unique db → keys_unique (save_plan db user_id request).1.
Proof.
  intros (Hc & Hp & Hs).
  destruct (save_plan_cases db user_id request)
    as [[_ ->] | [(_ & _ & ->) |
        (user & t & career & created & plan & rows & resp & _ & _ & _ & Hcases & Hplan & -> & Hids
         & _)]]; [done | done |].
  unfold keys_unique. cbn [fst careers plans plan_steps]. split_and!.
  - destruct Hcases as [[_ ->] | (_ & -> & ->)]; [by rewrite app_nil_r |].
    by apply NoDup_snoc_fresh.
  - apply NoDup_snoc_fresh; [by rewrite Hplan | done].
  - by apply Hids.
Qed.

Lemma save_plan_keeps_keys_unique_witness :
  keys_unique (save_plan one_career_db 1 midwife_request).1.
Proof.
  apply (save_plan_keeps_keys_unique one_career_db 1 midwife_request).
  repeat split; cbn; repeat constructor; set_solver.
Defined.

(** X17. A request without a [missing] field, for an existing user and a
    named career, ends in an [AttributeError] (line 229 reads
    [user.user_skills]) after the plan was committed: the plan row stays, for
    that user, titled [Roadmap for <career>] and linked to the career of that
    title, and it has no steps. *)
Theorem save_plan_without_missing (db : DB) (user_id : nat) (request : Request)
    (user : User) (t : string) :
  get_user db user_id = Some user →
  requested_career request = Some t →
  multi_getlist "missing" (form request) = [] →
  ∃ (db' : DB) (career : Career) (plan : Plan),
    save_plan db user_id request = (db', Raised "AttributeError") ∧
    plans db' = plans db ++ [plan] ∧
    p_user_id plan = u_id user ∧
    p_title plan = "Roadmap for " +:+ t ∧
    career_titled db' t = Some career ∧
    p_career_id plan = Some (c_id career) ∧
    plan_steps db' = plan_steps db.
Proof.
  intros Huser Hreq Hmissing.
  destruct (save_plan_cases db user_id request)
    as [[Hnone _] | [(_ & Hnone & _) |
        (user' & t' & career & created & plan & rows & resp & Hu & Hr & Htitle & Hcases & Hplan
         & Heq & _ & Hresp)]]; [congruence | congruence |].
  rewrite Huser in Hu. injection Hu as <-. rewrite Hreq in Hr. injection Hr as <-.
  rewrite Hmissing in Hresp. destruct Hresp as [-> ->].
  eexists _, career, plan. split_and!; [exact Heq | done | by rewrite Hplan | by rewrite Hplan
                                       | | by rewrite Hplan | cbn; by rewrite app_nil_r].
  unfold career_titled in *. cbn [careers].
  destruct Hcases as [[Hsome ->] | (Hnone & -> & _)].
  - by rewrite (find_app_l _ _ _ _ Hsome).
  - rewrite find_app_r by done. cbn. by rewrite bool_decide_eq_true_2.
Qed.

Lemma save_plan_without_missing_witness :
  ∃ (db' : DB) (career : Career) (plan : Plan),
    save_plan one_career_db 1 (mkRequest [("career", "Nurse")] None)
      = (db', Raised "AttributeError") ∧
    plans db' = plans one_career_db ++ [plan] ∧
    p_user_id plan = u_id fresh_user ∧
    p_title plan = "Roadmap for " +:+ "Nurse" ∧
    career_titled db' "Nurse" = Some career ∧
    p_career_id plan = Some (c_id career) ∧
    plan_steps db' = plan_steps one_career_db.
Proof.
  apply (save_plan_without_missing one_career_db 1 (mkRequest [("career", "Nurse")] None)
           fresh_user "Nurse"); vm_compute; reflexivity.
Defined.



(** ** The resource lookup: a career is found *)




(** ** The profile *)

Lemma find_fmap {A B : Type} (f : B -> bool) (g : A -> B) (l : list A) :
  List.find f (g <$> l) = g <$> List.find (fun a => f (g a)) l.
Proof. induction l as [|a l IH]; [done |]. cbn. by destruct (f (g a)). Qed.

Lemma find_ext {A : Type} (f g : A -> bool) (l : list A) :
  (∀ a : A, f a = g a) → List.find f l = List.find g l.
Proof. intros Hfg. induction l as [|a l IH]; [done |]. cbn. by rewrite Hfg, IH. Qed.

Lemma filter_filter_neg {A : Type} (f : A -> bool) (l : list A) :
  List.filter f (List.filter (fun a => negb (f a)) l) = [].
Proof.
  induction l as [|a l IH]; [done |]. cbn. destruct (f a) eqn:Hf; cbn; [done |].
  by rewrite Hf.
Qed.

Lemma filter_all {A : Type} (f : A -> bool) (l : list A) :
  Forall (fun a => f a = true) l → List.filter f l = l.
Proof. induction 1 as [|a l Ha Hl IH]; [done |]. cbn. by rewrite Ha, IH. Qed.

Lemma filter_none {A : Type} (f : A -> bool) (l : list A) :
  Forall (fun a => f a = false) l → List.filter f l = [].
Proof. induction 1 as [|a l Ha Hl IH]; [done |]. cbn. by rewrite Ha. Qed.

Lemma filter_idemp {A : Type} (f : A -> bool) (l : list A) :
  List.filter f (List.filter f l) = List.filter f l.
Proof.
  induction l as [|a l IH]; [done |]. cbn. destruct (f a) eqn:Hf; cbn; by rewrite ?Hf, IH.
Qed.

(** The loop of lines 122-129 appends one row per entry. *)
Lemma store_skills_spec (tb : Tables) (uid : nat) (entries : list string) :
  ∃ rows : list UserSkillRow,
    store_skills tb uid entries
      = mkTables (user_rows tb) (skill_rows tb) (user_skill_rows tb ++ rows) ∧
    Forall (fun r => usr_user_id r = uid) rows ∧
    usr_name <$> rows = Some <$> entries ∧
    usr_skill_id <$> rows
      = (fun s => sr_id <$> skill_named tb (str_lower s)) <$> entries.
Proof.
  revert tb. induction entries as [|s entries IH]; intros tb.
  - exists []. rewrite app_nil_r. by destruct tb.
  - cbn [store_skills add_user_skill].
    set (row := mkUserSkillRow _ uid _ (Some s)).
    destruct (IH (mkTables (user_rows tb) (skill_rows tb) (user_skill_rows tb ++ [row])))
      as (rows & -> & Hu & Hn & Hs).
    exists (row :: rows). cbn [user_rows skill_rows user_skill_rows].
    rewrite <- app_assoc. split_and!; [done | by constructor | cbn; by rewrite Hn |].
    cbn [fmap list_fmap]. by rewrite Hs.
Qed.

(** What a successful POST leaves in the tables. *)
Lemma profile_post (tb : Tables) (session : Session) (form : list (string * string))
    (uid : nat) (user : UserRow) :
  sess_user_id session = Some uid →
  find_user tb uid = Some user →
  str_strip (form_get "name" form) ≠ EmptyString →
  ∃ rows : list UserSkillRow,
    profile tb session POST form
      = mkOutcome
          (mkTables
             (user_rows (set_profile tb uid (str_strip (form_get "name" form))
                           (str_strip (form_get "interests" form))
                           (str_strip (form_get "skills" form))))
             (skill_rows tb)
             (List.filter (fun r => negb (bool_decide (usr_user_id r = uid)))
                          (user_skill_rows tb) ++ rows))
          session [] (Redirect "recommend" (Some uid)) ∧
    Forall (fun r => usr_user_id r = uid) rows ∧
    usr_name <$> rows = Some <$> split_csv (Some (str_strip (form_get "skills" form))) ∧
    usr_skill_id <$> rows
      = (fun s => sr_id <$> skill_named tb (str_lower s))
          <$> split_csv (Some (str_strip (form_get "skills" form))).
Proof.
  intros Hsess Huser Hname. unfold profile. rewrite Hsess, Huser.
  assert (Hid : ur_id user = uid).
  { apply find_some in Huser as [_ Hid]. by apply bool_decide_eq_true in Hid. }
  rewrite Hid. destruct (str_strip (form_get "name" form)) as [|c name] eqn:Hn; [done |].
  cbn [str_truthy negb].
  destruct (store_skills_spec
              (delete_user_skills
                 (set_profile tb uid (String c name) (str_strip (form_get "interests" form))
                    (str_strip (form_get "skills" form))) uid)
              uid (split_csv (Some (str_strip (form_get "skills" form)))))
    as (rows & Hstore & Hu & Hnames & Hskills).
  exists rows. cbv zeta. rewrite Hstore. split_and!; done.
Qed.

Lemma skills_of_after (old rows : list UserSkillRow) (users : list UserRow)
    (skills : list SkillRow) (uid : nat) :
  Forall (fun r => usr_user_id r = uid) rows →
  skills_of (mkTables users skills
               (List.filter (fun r => negb (bool_decide (usr_user_id r = uid))) old ++ rows))
            uid = rows ∧
  ∀ other : nat, other ≠ uid →
    skills_of (mkTables users skills
                 (List.filter (fun r => negb (bool_decide (usr_user_id r = uid))) old ++ rows))
              other
    = skills_of (mkTables users skills old) other.
Proof.
  intros Hrows. unfold skills_of. cbn [user_skill_rows]. split.
  - rewrite List.filter_app.
    rewrite (filter_filter_neg (fun r => bool_decide (usr_user_id r = uid))).
    apply filter_all. eapply Forall_impl; [exact Hrows |]. intros r Hr. cbn.
    by apply bool_decide_eq_true.
  - intros other Hother. rewrite List.filter_app.
    rewrite (filter_none _ rows), app_nil_r.
    + induction old as [|r old IH]; [done |]. cbn [List.filter].
      destruct (decide (usr_user_id r = uid)) as [Hr | Hr].
      * rewrite (bool_decide_eq_true_2 _ Hr). cbn [negb].
        rewrite bool_decide_eq_false_2 by congruence. exact IH.
      * rewrite (bool_decide_eq_false_2 _ Hr). cbn [negb List.filter].
        destruct (bool_decide (usr_user_id r = other)); by rewrite IH.
    + eapply Forall_impl; [exact Hrows |]. intros r Hr. cbn.
      apply bool_decide_eq_false. congruence.
Qed.

(** X20. A profile POST by a logged-in user with a non-empty name redirects
    to the user's recommendations, keeps the session, leaves the skills table
    alone and replaces the user's [UserSkill] rows: afterwards they are, in
    order, one row per entry of [split_csv] of the stripped [skills] field,
    named as the entry is written and linked to the skill whose name is the
    entry lowercased, when there is one. The rows of other users are
    untouched. *)
Theorem profile_replaces_skills (tb : Tables) (session : Session)
    (form : list (string * string)) (uid : nat) (user : UserRow) :
  sess_user_id session = Some uid →
  find_user tb uid = Some user →
  str_strip (form_get "name" form) ≠ EmptyString →
  let out := profile tb session POST form in
  let entries := split_csv (Some (str_strip (form_get "skills" form))) in
  o_reply out = Redirect "recommend" (Some uid) ∧
  o_session out = session ∧
  skill_rows (o_tables out) = skill_rows tb ∧
  usr_name <$> skills_of (o_tables out) uid = Some <$> entries ∧
  usr_skill_id <$> skills_of (o_tables out) uid
    = (fun s => sr_id <$> skill_named tb (str_lower s)) <$> entries ∧
  ∀ other : nat, other ≠ uid → skills_of (o_tables out) other = skills_of tb other.
Proof.
  intros Hsess Huser Hname. cbn zeta.
  destruct (profile_post tb session form uid user Hsess Huser Hname)
    as (rows & -> & Hu & Hn & Hs).
  cbn [o_reply o_session o_tables skill_rows].
  destruct (skills_of_after (user_skill_rows tb) rows
              (user_rows (set_profile tb uid (str_strip (form_get "name" form))
                            (str_strip (form_get "interests" form))
                            (str_strip (form_get "skills" form))))
              (skill_rows tb) uid Hu) as [Hown Hothers].
  rewrite Hown. split_and!; [done | done | done | done | done |].
  intros other Hother. by rewrite Hothers.
Qed.

Lemma profile_replaces_skills_witness :
  o_reply (profile sample_tables ada_session POST ada_form) = Redirect "recommend" (Some 1) ∧
  usr_name <$> skills_of (o_tables (profile sample_tables ada_session POST ada_form)) 1
    = [Some "Python"; Some "SQL"] ∧
  usr_skill_id <$> skills_of (o_tables (profile sample_tables ada_session POST ada_form)) 1
    = [Some 7; None].
Proof.
  assert (Hsess : sess_user_id ada_session = Some 1) by reflexivity.
  assert (Huser : find_user sample_tables 1 = Some ada_row) by (vm_compute; reflexivity).
  assert (Hname : str_strip (form_get "name" ada_form) ≠ EmptyString)
    by (vm_compute; discriminate).
  destruct (profile_replaces_skills sample_tables ada_session ada_form 1 ada_row
              Hsess Huser Hname) as (Hreply & _ & _ & Hnames & Hids & _).
  split_and!; [exact Hreply | exact Hnames | exact Hids].
Defined.

Lemma load_user_id (tb : Tables) (row : UserRow) : u_id (load_user tb row) = ur_id row.
Proof. reflexivity. Qed.

Lemma find_set_profile (tb : Tables) (uid : nat) (name interests skills : string)
    (user : UserRow) :
  find_user tb uid = Some user →
  List.find (fun u => bool_decide (ur_id u = uid))
            (user_rows (set_profile tb uid name interests skills))
  = Some (mkUserRow uid (Some name) (Some interests) (Some skills)
                    (ur_email user) (ur_password_hash user)).
Proof.
  unfold find_user, set_profile. cbn [user_rows].
  induction (user_rows tb) as [|u l IH]; [done |]. cbn [List.find List.map].
  destruct (decide (ur_id u = uid)) as [Hu | Hu].
  - rewrite (bool_decide_eq_true_2 _ Hu). cbn [ur_id].
    rewrite (bool_decide_eq_true_2 _ Hu). intros [= ->]. by rewrite Hu.
  - rewrite (bool_decide_eq_false_2 _ Hu). rewrite (bool_decide_eq_false_2 _ Hu). exact IH.
Qed.

Lemma user_skill_names_rows (uid : nat) (interests txt : option string)
    (rows : list UserSkillRow) (entries : list string) :
  Forall clean_entry entries →
  usr_name <$> rows = Some <$> entries →
  split_csv txt = entries →
  user_skill_names (mkUser uid interests txt ((fun r => mkUserSkill (usr_name r)) <$> rows))
  = entries.
Proof.
  intros Hclean Hnames Htxt. unfold user_skill_names. cbn [u_skills u_skills_text].
  assert (Homap : omap (fun s : UserSkill => opt_truthy (us_name s))
                    ((fun r => mkUserSkill (usr_name r)) <$> rows) = entries).
  { clear Htxt. revert rows Hnames.
    induction Hclean as [|s l (Hs & _) Hl IH]; intros rows Hnames.
    - apply fmap_nil_inv in Hnames. by subst.
    - destruct rows as [|r rows]; [done |]. cbn in Hnames. injection Hnames as Hr Hrows.
      cbn [fmap list_fmap omap list_omap us_name]. rewrite Hr.
      destruct s as [|c s]; [by destruct Hs |]. cbn [opt_truthy str_truthy].
      cbn. f_equal. by apply IH. }
  rewrite Homap. by destruct entries.
Qed.

(** X21. What the profile stores is what the recommendation route reads:
    after a profile POST the route finds the user, with the stripped
    [interests] field as interests and the entries of the stripped [skills]
    field, lowercased, as skill set, and renders the page computed from
    them. *)
Theorem profile_feeds_recommend (tb : Tables) (session : Session)
    (form : list (string * string)) (uid : nat) (user : UserRow) (db : DB) :
  sess_user_id session = Some uid →
  find_user tb uid = Some user →
  str_strip (form_get "name" form) ≠ EmptyString →
  let db' := orm (o_tables (profile tb session POST form)) db in
  ∃ u : User,
    get_user db' uid = Some u ∧
    u_interests u = Some (str_strip (form_get "interests" form)) ∧
    user_skill_names u = split_csv (Some (str_strip (form_get "skills" form))) ∧
    user_skill_set u
      = list_to_set (str_lower <$> split_csv (Some (str_strip (form_get "skills" form)))) ∧
    recommend db' uid = Render (prepare_recs (user_skill_set u) (recommend_candidates db' u)).
Proof.
  intros Hsess Huser Hname. cbn zeta.
  destruct (profile_post tb session form uid user Hsess Huser Hname)
    as (rows & -> & Hu & Hn & _).
  cbn [o_tables]. unfold recommend, get_user, orm. cbn [users].
  rewrite find_fmap.
  rewrite (find_ext _ (fun u => bool_decide (ur_id u = uid))) by done.
  cbn [user_rows]. rewrite (find_set_profile tb uid _ _ _ user Huser).
  cbn [fmap option_fmap option_map]. eexists. split; [reflexivity |].
  unfold load_user at 1 2 3. cbn [ur_id ur_interests ur_skills_text u_interests].
  destruct (skills_of_after (user_skill_rows tb) rows
              (user_rows (set_profile tb uid (str_strip (form_get "name" form))
                            (str_strip (form_get "interests" form))
                            (str_strip (form_get "skills" form))))
              (skill_rows tb) uid Hu) as [Hown _].
  rewrite Hown.
  assert (Hnames : user_skill_names
                     (mkUser uid (Some (str_strip (form_get "interests" form)))
                        (Some (str_strip (form_get "skills" form)))
                        ((fun r => mkUserSkill (usr_name r)) <$> rows))
                   = split_csv (Some (str_strip (form_get "skills" form)))).
  { apply user_skill_names_rows; [apply split_csv_clean | done | done]. }
  split_and!; [done | exact Hnames | by rewrite user_skill_set_names, Hnames |].
  unfold load_user. cbn [ur_id ur_interests ur_skills_text]. by rewrite Hown.
Qed.

Lemma profile_feeds_recommend_witness :
  ∃ u : User,
    get_user (orm (o_tables (profile sample_tables ada_session POST ada_form)) seeded_db) 1
      = Some u ∧
    u_interests u = Some "Data" ∧
    user_skill_names u = ["Python"; "SQL"] ∧
    user_skill_set u = list_to_set (str_lower <$> ["Python"; "SQL"]) ∧
    recommend (orm (o_tables (profile sample_tables ada_session POST ada_form)) seeded_db) 1
      = Render (prepare_recs (user_skill_set u)
                  (recommend_candidates
                     (orm (o_tables (profile sample_tables ada_session POST ada_form))
                          seeded_db) u)).
Proof.
  assert (Hsess : sess_user_id ada_session = Some 1) by reflexivity.
  assert (Huser : find_user sample_tables 1 = Some ada_row) by (vm_compute; reflexivity).
  assert (Hname : str_strip (form_get "name" ada_form) ≠ EmptyString)
    by (vm_compute; discriminate).
  exact (profile_feeds_recommend sample_tables ada_session ada_form 1 ada_row seeded_db
           Hsess Huser Hname).
Defined.

(** X22. The guards of the profile route. The tables change only on a POST
    with a non-empty name by a logged-in user who exists. The session changes
    only when it names a user who does not exist, and is then cleared.
    Without [user_id] in the session the route redirects to the login page
    and does nothing else; so it does after a logout. *)
Theorem profile_guards (tb : Tables) (session : Session) (meth : method)
    (form : list (string * string)) :
  let out := profile tb session meth form in
  (o_tables out = tb ∨
   meth = POST ∧ str_strip (form_get "name" form) ≠ EmptyString ∧
   ∃ uid : nat, sess_user_id session = Some uid ∧ is_Some (find_user tb uid)) ∧
  (o_session out = session ∨
   o_session out = session_clear ∧
   ∃ uid : nat, sess_user_id session = Some uid ∧ find_user tb uid = None) ∧
  (sess_user_id session = None → out = mkOutcome tb session [] (Redirect "login" None)) ∧
  (∀ s : Session,
     profile tb (o_session (logout tb s)) meth form
     = mkOutcome tb session_clear [] (Redirect "login" None)).
Proof.
  cbn zeta. unfold profile.
  destruct (sess_user_id session) as [uid|] eqn:Hsess; [|split_and!; auto].
  destruct (find_user tb uid) as [user|] eqn:Huser.
  - destruct meth.
    + split_and!; auto. done.
    + destruct (str_strip (form_get "name" form)) as [|c name] eqn:Hname.
      * split_and!; auto. done.
      * split_and!; [right | auto | done | done]. split_and!; [done | done |]. eauto.
  - split_and!; [auto | right; eauto | done | done].
Qed.

(** ** The accounts *)

Lemma user_by_email_none (tb : Tables) (email : string) :
  user_by_email tb email = None ↔ Some email ∉ ur_email <$> user_rows tb.
Proof.
  unfold user_by_email. induction (user_rows tb) as [|u l IH]; cbn.
  - split; [by intros _ ?%elem_of_nil | done].
  - rewrite not_elem_of_cons. destruct (decide (ur_email u = Some email)) as [Hu | Hu].
    + rewrite (bool_decide_eq_true_2 _ Hu). split; [done | by intros [? _]].
    + rewrite (bool_decide_eq_false_2 _ Hu). rewrite IH. naive_solver.
Qed.

Lemma add_user_fresh (tb : Tables) (name : option string) (email : string)
    (pwhash : option string) :
  user_by_email tb email = None →
  add_user tb name (Some email) pwhash
  = inr (mkTables
           (user_rows tb ++ [mkUserRow (next_id (ur_id <$> user_rows tb)) name None None
                                       (Some email) pwhash])
           (skill_rows tb) (user_skill_rows tb)).
Proof.
  intros Hnone%user_by_email_none. unfold add_user, email_taken.
  by rewrite bool_decide_eq_false_2.
Qed.

Lemma omap_app_singleton {A B : Type} (f : A -> option B) (l : list A) (x : A) :
  omap f (l ++ [x]) = omap f l ++ match f x with Some b => [b] | None => [] end.
Proof.
  induction l as [|a l IH]; cbn; [by destruct (f x) |]. rewrite IH. by destruct (f a).
Qed.

Lemma elem_of_omap_email (l : list UserRow) (e : string) :
  e ∈ omap ur_email l ↔ Some e ∈ ur_email <$> l.
Proof.
  rewrite list_elem_of_omap, list_elem_of_fmap. naive_solver.
Qed.

Section AccountFacts.
Variable generate_password_hash : string -> string -> string.
Variable check_password_hash : string -> string -> bool.
Hypothesis check_generate :
  ∀ salt password : string,
    check_password_hash (generate_password_hash salt password) password = true.

(** X23. Signing up and then logging in. A signup POST with a name, an
    e-mail address and a password, the address not registered yet, appends
    one user with a fresh id, the stripped name and the stripped, lowercased
    address, and redirects to the login page. A login POST with that address
    and the password then stores the new user's id and name in the session
    and redirects to the profile, provided [check_password_hash] accepts what
    [generate_password_hash] produced. *)
Theorem signup_then_login (tb : Tables) (session : Session)
    (form : list (string * string)) (salt : string) :
  let name := str_strip (form_get "name" form) in
  let email := str_lower (str_strip (form_get "email" form)) in
  let password := form_get "password" form in
  name ≠ EmptyString → email ≠ EmptyString → password ≠ EmptyString →
  user_by_email tb email = None →
  let out := signup generate_password_hash tb session POST form salt in
  o_reply out = Redirect "login" None ∧
  o_session out = session ∧
  ∃ row : UserRow,
    user_rows (o_tables out) = user_rows tb ++ [row] ∧
    ur_name row = Some name ∧ ur_email row = Some email ∧
    (ur_id row ∉ ur_id <$> user_rows tb) ∧
    ∀ (s : Session) (form' : list (string * string)),
      multi_get "email" form' = Some email →
      multi_get "password" form' = Some password →
      login check_password_hash (o_tables out) s POST form'
      = mkOutcome (o_tables out) (mkSession (Some (ur_id row)) (Some (Some name))) []
                  (Redirect "profile" None).
Proof.
  cbn zeta. intros Hname Hemail Hpassword Hfree. unfold signup.
  destruct (str_strip (form_get "name" form)) as [|c1 name] eqn:Hn; [done |].
  destruct (str_lower (str_strip (form_get "email" form))) as [|c2 email] eqn:He; [done |].
  destruct (form_get "password" form) as [|c3 password] eqn:Hp; [done |].
  cbn [str_truthy negb orb]. rewrite Hfree, add_user_fresh by done.
  cbn [o_reply o_session o_tables user_rows]. split_and!; [done | done |].
  eexists. split_and!; [reflexivity | done | done | apply next_id_fresh |].
  intros s form' Hfe Hfp. unfold login. rewrite Hfe, Hfp.
  unfold user_by_email in *. cbn [user_rows]. rewrite find_app_r by done.
  cbn [List.find ur_email]. rewrite bool_decide_eq_true_2 by done.
  cbn [ur_password_hash ur_id ur_name]. by rewrite check_generate.
Qed.

(** X24. [signup] and [register] keep the e-mail addresses unique: if no two
    users share an address before the request, none do after it. Either
    route adds at most one user, with a fresh id, touches no other table and
    not the session, and never reaches the [IntegrityError] handler: the
    address is looked up before the row is added. *)
Theorem accounts_stay_unique (tb : Tables) (session : Session) (meth : method)
    (form : list (string * string)) (salt : string) (out : Outcome) :
  out = signup generate_password_hash tb session meth form salt ∨
  out = register generate_password_hash tb session meth form salt →
  NoDup (omap ur_email (user_rows tb)) →
  NoDup (omap ur_email (user_rows (o_tables out))) ∧
  (∃ added : list UserRow,
     user_rows (o_tables out) = user_rows tb ++ added ∧ length added ≤ 1 ∧
     Forall (fun row => ur_id row ∉ ur_id <$> user_rows tb) added) ∧
  skill_rows (o_tables out) = skill_rows tb ∧
  user_skill_rows (o_tables out) = user_skill_rows tb ∧
  o_session out = session ∧
  ∀ err : IntegrityError, o_reply out ≠ handle_integrity_error err.
Proof.
  intros Hout Hnd.
  assert (Hsame : ∀ (fl : list (string * string)) (r : reply),
            (∀ err, r ≠ handle_integrity_error err) →
            let out := mkOutcome tb session fl r in
            NoDup (omap ur_email (user_rows (o_tables out))) ∧
            (∃ added : list UserRow,
               user_rows (o_tables out) = user_rows tb ++ added ∧ length added ≤ 1 ∧
               Forall (fun row => ur_id row ∉ ur_id <$> user_rows tb) added) ∧
            skill_rows (o_tables out) = skill_rows tb ∧
            user_skill_rows (o_tables out) = user_skill_rows tb ∧
            o_session out = session ∧
            ∀ err : IntegrityError, o_reply out ≠ handle_integrity_error err).
  { intros fl r Hr. cbn. split_and!; [done | | done | done | done | done].
    exists []. rewrite app_nil_r. split_and!; [done | cbn; lia | constructor]. }
  assert (Hadd : ∀ (name : option string) (email : string) (pwhash : option string)
                   (fl : list (string * string)),
            user_by_email tb email = None →
            let out :=
              match add_user tb name (Some email) pwhash with
              | inl err => mkOutcome tb session [] (handle_integrity_error err)
              | inr tb' => mkOutcome tb' session fl (Redirect "login" None)
              end in
            NoDup (omap ur_email (user_rows (o_tables out))) ∧
            (∃ added : list UserRow,
               user_rows (o_tables out) = user_rows tb ++ added ∧ length added ≤ 1 ∧
               Forall (fun row => ur_id row ∉ ur_id <$> user_rows tb) added) ∧
            skill_rows (o_tables out) = skill_rows tb ∧
            user_skill_rows (o_tables out) = user_skill_rows tb ∧
            o_session out = session ∧
            ∀ err : IntegrityError, o_reply out ≠ handle_integrity_error err).
  { intros name email pwhash fl Hfree. cbn zeta. rewrite add_user_fresh by done.
    cbn [o_tables o_session o_reply user_rows skill_rows user_skill_rows].
    split_and!; [| | done | done | done | done].
    - rewrite omap_app_singleton. cbn [ur_email]. apply NoDup_app. split_and!; [done | |].
      + intros e He ->%list_elem_of_singleton. apply elem_of_omap_email in He.
        by apply user_by_email_none in Hfree.
      + apply NoDup_singleton.
    - eexists [_]. split_and!; [done | cbn; lia |]. repeat constructor. cbn [ur_id].
      apply next_id_fresh. }
  destruct Hout as [-> | ->].
  - unfold signup. destruct meth; [by apply Hsame |].
    destruct (_ || _); [by apply Hsame |].
    destruct (user_by_email tb _) eqn:Hfree; [by apply Hsame |]. by apply Hadd.
  - unfold register. destruct meth; [by apply Hsame |].
    destruct (multi_get "name" form); [|by apply Hsame].
    destruct (multi_get "email" form) as [email|]; [|by apply Hsame].
    destruct (multi_get "password" form); [|by apply Hsame].
    destruct (user_by_email tb email) eqn:Hfree; [by apply Hsame |]. by apply Hadd.
Qed.

(** X25. [login] never writes to the tables, and it redirects to the profile
    exactly when the request is a POST whose e-mail address is that of a
    user with a stored hash that [check_password_hash] accepts for the
    password; the session then names that user. In every other case the
    session is left as it was. *)
Theorem login_sound (tb : Tables) (session : Session) (meth : method)
    (form : list (string * string)) :
  let out := login check_password_hash tb session meth form in
  o_tables out = tb ∧
  (o_reply out = Redirect "profile" None ↔
   meth = POST ∧
   ∃ (email password pwhash : string) (user : UserRow),
     multi_get "email" form = Some email ∧
     multi_get "password" form = Some password ∧
     user_by_email tb email = Some user ∧
     ur_password_hash user = Some pwhash ∧
     check_password_hash pwhash password = true ∧
     o_session out = mkSession (Some (ur_id user)) (Some (ur_name user))) ∧
  (o_reply out ≠ Redirect "profile" None → o_session out = session).
Proof.
  cbn zeta. unfold login. destruct meth.
  { split_and!; [done | | done]. split; [done | by intros [? _]]. }
  destruct (multi_get "email" form) as [email|].
  2:{ split_and!; [done | | done]. split; [done |]. by intros (_ & ? & ? & ? & ? & ? & _). }
  destruct (multi_get "password" form) as [password|].
  2:{ split_and!; [done | | done]. split; [done |]. by intros (_ & ? & ? & ? & ? & _ & ? & _). }
  destruct (user_by_email tb email) as [user|] eqn:Huser.
  2:{ split_and!; [done | | done]. split; [done |].
      intros (_ & e & p & h & u & [= <-] & _ & Hu & _). congruence. }
  destruct (ur_password_hash user) as [pwhash|] eqn:Hhash.
  2:{ split_and!; [done | | done]. split; [done |].
      intros (_ & e & p & h & u & [= <-] & _ & Hu & Hh & _). congruence. }
  destruct (check_password_hash pwhash password) eqn:Hcheck.
  - split_and!; [done | | done]. split; [|done]. intros _. split; [done |].
    exists email, password, pwhash, user. done.
  - split_and!; [done | | done]. split; [done |].
    intros (_ & e & p & h & u & [= <-] & [= <-] & Hu & Hh & Hc & _). congruence.
Qed.

End AccountFacts.

Lemma plain_check_generate (salt password : string) :
  plain_check (plain_hash salt password) password = true.
Proof. by apply bool_decide_eq_true. Qed.

Lemma signup_then_login_witness :
  ∃ row : UserRow,
    user_rows (o_tables (signup plain_hash sample_tables session_clear POST grace_form "salt"))
      = user_rows sample_tables ++ [row] ∧
    ur_email row = Some "grace@example.org" ∧
    login plain_check
          (o_tables (signup plain_hash sample_tables session_clear POST grace_form "salt"))
          session_clear POST [("email", "grace@example.org"); ("password", "cobol")]
    = mkOutcome
        (o_tables (signup plain_hash sample_tables session_clear POST grace_form "salt"))
        (mkSession (Some (ur_id row)) (Some (Some "Grace"))) [] (Redirect "profile" None).
Proof.
  destruct (signup_then_login plain_hash plain_check plain_check_generate
              sample_tables session_clear grace_form "salt")
    as (_ & _ & row & Hrows & _ & Hemail & _ & Hlogin).
  - vm_compute. discriminate.
  - vm_compute. discriminate.
  - vm_compute. discriminate.
  - vm_compute. reflexivity.
  - exists row. split_and!; [exact Hrows | exact Hemail |].
    apply Hlogin; reflexivity.
Defined.

Lemma accounts_stay_unique_witness :
  NoDup (omap ur_email
           (user_rows (o_tables (register plain_hash sample_tables session_clear POST
                                   grace_form "salt")))).
Proof.
  apply (accounts_stay_unique plain_hash sample_tables session_clear POST grace_form "salt"
           (register plain_hash sample_tables session_clear POST grace_form "salt")).
  - by right.
  - vm_compute. apply NoDup_singleton.
Defined.

(** ** app_demo.py: the profile leads nowhere *)

Lemma find_all_false {A : Type} (f : A -> bool) (l : list A) :
  (∀ a : A, a ∈ l → f a = false) → List.find f l = None.
Proof.
  induction l as [|a l IH]; [done |]. intros Hall. cbn. rewrite (Hall a) by left.
  apply IH. intros a' Ha'. apply Hall. by right.
Qed.

Lemma get_user_orm (tb : Tables) (db : DB) (uid : nat) :
  get_user (orm tb db) uid = load_user tb <$> find_user tb uid.
Proof.
  unfold get_user, orm, find_user. cbn [users]. rewrite find_fmap.
  by rewrite (find_ext _ (fun u => bool_decide (ur_id u = uid))).
Qed.

(** X26. In app_demo.py a profile POST with a name always adds one user, with
    a fresh id and the three stripped fields, and adds no [UserSkill] row;
    it never leads to a page of recommendations. When the [skills] field has
    an entry the request ends in a [TypeError], the user already committed;
    when it has none, the route redirects to the recommendations of the new
    user, and that request ends in an [AttributeError], as it does for every
    user who exists. *)
Theorem demo_profile_dead_end (tb : Tables) (form : list (string * string)) (db : DB) :
  let name := str_strip (form_get "name" form) in
  let skills := str_strip (form_get "skills" form) in
  let out := DemoPages.profile tb POST form in
  name ≠ EmptyString →
  (∃ user : UserRow,
     user_rows out.1 = user_rows tb ++ [user] ∧
     (ur_id user ∉ ur_id <$> user_rows tb) ∧
     ur_name user = Some name ∧
     ur_interests user = Some (str_strip (form_get "interests" form)) ∧
     ur_skills_text user = Some skills ∧
     user_skill_rows out.1 = user_skill_rows tb ∧
     (split_csv (Some skills) ≠ [] ∧ out.2 = Failed "TypeError" ∨
      split_csv (Some skills) = [] ∧ out.2 = Redirect "recommend" (Some (ur_id user)) ∧
      DemoPages.recommend (orm out.1 db) (ur_id user) = Raised "AttributeError")) ∧
  (∀ (user_id : nat) (ctx : RecommendContext), DemoPages.recommend db user_id ≠ Render ctx).
Proof.
  cbn zeta. intros Hname. split.
  - unfold DemoPages.profile.
    destruct (str_strip (form_get "name" form)) as [|c name] eqn:Hn; [done |].
    cbn [str_truthy negb DemoPages.add_profile].
    set (user := mkUserRow _ _ _ _ None None).
    exists user.
    assert (Hfresh : ur_id user ∉ ur_id <$> user_rows tb) by apply next_id_fresh.
    destruct (split_csv (Some (str_strip (form_get "skills" form)))) as [|s l] eqn:Hs;
      cbn [fst snd user_rows user_skill_rows];
      (split_and!; [done | done | done | done | done | done |]).
    + right. split_and!; [done | done |].
      unfold DemoPages.recommend. rewrite get_user_orm. unfold find_user. cbn [user_rows].
      rewrite find_app_r.
      * cbn [List.find]. by rewrite bool_decide_eq_true_2.
      * apply find_all_false. intros u Hu. apply bool_decide_eq_false. intros Heq.
        apply Hfresh. rewrite <- Heq. by apply list_elem_of_fmap_2.
    + by left.
  - intros user_id ctx. unfold DemoPages.recommend. by destruct (get_user db user_id).
Qed.

Lemma demo_profile_dead_end_witness :
  (DemoPages.profile sample_tables POST ada_form).2 = Failed "TypeError" ∧
  (DemoPages.profile sample_tables POST [("name", "Ada")]).2 = Redirect "recommend" (Some 2).
Proof.
  assert (Hname : str_strip (form_get "name" ada_form) ≠ EmptyString)
    by (vm_compute; discriminate).
  assert (Hname' : str_strip (form_get "name" [("name", "Ada")]) ≠ EmptyString)
    by (vm_compute; discriminate).
  destruct (proj1 (demo_profile_dead_end sample_tables ada_form one_career_db Hname))
    as (user & _ & _ & _ & _ & _ & _ & [[_ Hr] | [Hs _]]); [| vm_compute in Hs; discriminate Hs].
  split; [exact Hr |]. vm_compute. reflexivity.
Defined.

(** ** Seeding the catalog *)

Lemma find_prefix {A : Type} (f : A -> bool) (l l' : list A) (x : A) :
  l `prefix_of` l' → List.find f l = Some x → List.find f l' = Some x.
Proof. intros [k ->] Hx. by apply find_app_l. Qed.

Lemma extends_refl (cat : Catalog) : extends cat cat.
Proof. by repeat split. Qed.

Lemma extends_trans (a b c : Catalog) : extends a b → extends b c → extends a c.
Proof.
  intros (H1 & H2 & H3 & H4) (H1' & H2' & H3' & H4'). repeat split; by etrans.
Qed.

Lemma provide_extends (cat : Catalog) (n : Need) : extends cat (provide cat n).
Proof.
  destruct n as [name | title | title name imp lvl | title url rtype provider]; cbn.
  - unfold get_or_create_skill. destruct (find_skill cat name); [apply extends_refl |].
    repeat split; cbn; try done. by apply prefix_app_r.
  - unfold get_or_create_career. destruct (find_career cat title); [apply extends_refl |].
    repeat split; cbn; try done. by apply prefix_app_r.
  - destruct (find_career cat title) as [c|]; [|apply extends_refl].
    destruct (find_skill cat name) as [s|]; [|apply extends_refl].
    unfold ensure_req. destruct (find_req cat _ _); [apply extends_refl |].
    repeat split; cbn; try done. by apply prefix_app_r.
  - unfold add_resource_safe. destruct (find_resource cat title); [apply extends_refl |].
    repeat split; cbn; try done. by apply prefix_app_r.
Qed.

Lemma provided_extends (cat cat' : Catalog) (n : Need) :
  extends cat cat' → provided cat n → provided cat' n.
Proof.
  intros (Hs & Hc & Hr & Hres).
  destruct n as [name | title | title name imp lvl | title url rtype provider]; cbn.
  - intros [s Hfind]. exists s. by eapply find_prefix.
  - intros [c Hfind]. exists c. by eapply find_prefix.
  - intros (c & s & Hfc & Hfs & [r Hfr]). exists c, s.
    split_and!; [by eapply find_prefix | by eapply find_prefix |].
    exists r. by eapply find_prefix.
  - intros [r Hfind]. exists r. by eapply find_prefix.
Qed.

Lemma provide_provided (cat : Catalog) (n : Need) : provided cat n → provide cat n = cat.
Proof.
  destruct n as [name | title | title name imp lvl | title url rtype provider]; cbn.
  - intros [s Hs]. unfold get_or_create_skill. by rewrite Hs.
  - intros [c Hc]. unfold get_or_create_career. by rewrite Hc.
  - intros (c & s & -> & -> & [r Hr]). unfold ensure_req. by rewrite Hr.
  - intros [r Hr]. unfold add_resource_safe. by rewrite Hr.
Qed.

Lemma find_snoc_hit {A : Type} (f : A -> bool) (l : list A) (x : A) :
  List.find f l = None → f x = true → List.find f (l ++ [x]) = Some x.
Proof. intros Hl Hx. rewrite find_app_r by done. cbn. by rewrite Hx. Qed.

(** Once the career and the skill are there, [provide] provides. *)
Lemma provide_provides (cat : Catalog) (n : Need) :
  match n with
  | NeedReq title name _ _ => is_Some (find_career cat title) ∧ is_Some (find_skill cat name)
  | _ => True
  end →
  provided (provide cat n) n.
Proof.
  destruct n as [name | title | title name imp lvl | title url rtype provider]; cbn.
  - intros _. unfold get_or_create_skill, find_skill.
    destruct (List.find _ (cat_skills cat)) as [s|] eqn:Hs; cbn; [by rewrite Hs |].
    rewrite find_snoc_hit; [done | done |]. by apply bool_decide_eq_true.
  - intros _. unfold get_or_create_career, find_career.
    destruct (List.find _ (cat_careers cat)) as [c|] eqn:Hc; cbn; [by rewrite Hc |].
    rewrite find_snoc_hit; [done | done |]. by apply bool_decide_eq_true.
  - intros [[c Hc] [s Hs]]. rewrite Hc, Hs. exists c, s. unfold ensure_req, find_req.
    destruct (List.find _ (cat_reqs cat)) as [r|] eqn:Hr.
    + split_and!; [done | done |]. rewrite Hr. eauto.
    + split_and!; [done | done |]. cbn [cat_reqs].
      rewrite find_snoc_hit; [done | done |]. cbn. by rewrite !bool_decide_eq_true_2.
  - intros _. unfold add_resource_safe, find_resource.
    destruct (List.find _ (cat_resources cat)) as [r|] eqn:Hr; cbn; [by rewrite Hr |].
    rewrite find_snoc_hit; [done | done |]. by apply bool_decide_eq_true.
Qed.

Lemma fold_provide_extends (needs : list Need) (cat : Catalog) :
  extends cat (fold_left provide needs cat).
Proof.
  revert cat. induction needs as [|n needs IH]; intros cat; [apply extends_refl |].
  cbn [fold_left]. eapply extends_trans; [apply provide_extends | apply IH].
Qed.

Lemma fold_provide_id (needs : list Need) (cat : Catalog) :
  Forall (provided cat) needs → fold_left provide needs cat = cat.
Proof.
  induction 1 as [|n needs Hn Hall IH]; [done |].
  cbn [fold_left]. by rewrite provide_provided.
Qed.

Lemma fold_provide_all (needs seen : list Need) (cat : Catalog) :
  ordered seen needs = true →
  Forall (provided cat) seen →
  Forall (provided (fold_left provide needs cat)) (needs ++ seen).
Proof.
  revert seen cat. induction needs as [|n needs IH]; intros seen cat Hord Hseen; [done |].
  cbn [ordered] in Hord. apply andb_true_iff in Hord as [Hn Hord].
  cbn [fold_left].
  assert (Hnew : provided (provide cat n) n).
  { apply provide_provides. destruct n as [| | title name imp lvl |]; try done.
    apply andb_true_iff in Hn as [Hc%bool_decide_eq_true Hs%bool_decide_eq_true].
    rewrite Forall_forall in Hseen. split; [apply (Hseen _ Hc) | apply (Hseen _ Hs)]. }
  assert (Hseen' : Forall (provided (provide cat n)) (n :: seen)).
  { constructor; [done |]. eapply Forall_impl; [exact Hseen |].
    intros m. apply provided_extends, provide_extends. }
  specialize (IH (n :: seen) (provide cat n) Hord Hseen').
  rewrite Forall_forall in IH |- *. intros m Hm. apply IH. set_solver.
Qed.

(** The loops of the script provide the needs one after the other. *)
Lemma seed_skills_needs (cat : Catalog) (names : list string) :
  seed_skills cat names = fold_left provide (NeedSkill <$> names) cat.
Proof. revert cat. induction names as [|n names IH]; intros cat; [done |]. apply IH. Qed.

Lemma get_or_create_skill_spec (cat : Catalog) (name : string) :
  find_skill (get_or_create_skill cat name).1 name = Some (get_or_create_skill cat name).2 ∧
  cat_careers (get_or_create_skill cat name).1 = cat_careers cat.
Proof.
  unfold get_or_create_skill, find_skill.
  destruct (List.find _ (cat_skills cat)) as [s|] eqn:Hs; cbn; [done |].
  split; [|done]. rewrite find_snoc_hit; [done | done |]. by apply bool_decide_eq_true.
Qed.

Lemma get_or_create_career_spec (cat : Catalog) (title : string) :
  find_career (get_or_create_career cat title).1 title
  = Some (get_or_create_career cat title).2.
Proof.
  unfold get_or_create_career, find_career.
  destruct (List.find _ (cat_careers cat)) as [c|] eqn:Hc; cbn; [done |].
  rewrite find_snoc_hit; [done | done |]. by apply bool_decide_eq_true.
Qed.

Lemma ensure_req_careers (cat : Catalog) (c : CareerRow) (s : SkillRow) (imp : nat)
    (lvl : string) :
  cat_careers (ensure_req cat c s imp lvl) = cat_careers cat.
Proof. unfold ensure_req. by destruct (find_req cat _ _). Qed.

Lemma seed_reqs_needs (cat : Catalog) (c : CareerRow) (title : string)
    (reqs : list ReqSpec) :
  find_career cat title = Some c →
  seed_reqs cat c reqs = fold_left provide (req_needs title reqs) cat.
Proof.
  revert cat. induction reqs as [|[[name imp] lvl] reqs IH]; intros cat Hc; [done |].
  cbn [seed_reqs req_needs List.flat_map app fold_left fst snd].
  destruct (get_or_create_skill_spec cat name) as [Hs Hcareers].
  destruct (get_or_create_skill cat name) as [cat1 s] eqn:Hg. cbn [fst snd] in *.
  change (provide cat (NeedSkill name)) with (get_or_create_skill cat name).1.
  rewrite Hg. cbn [fst]. cbn [provide].
  assert (Hc1 : find_career cat1 title = Some c).
  { unfold find_career. by rewrite Hcareers. }
  rewrite Hc1, Hs. apply IH. unfold find_career. by rewrite ensure_req_careers.
Qed.

Lemma seed_careers_needs (cat : Catalog) (careers : list (string * list ReqSpec)) :
  seed_careers cat careers = fold_left provide (career_needs careers) cat.
Proof.
  revert cat. induction careers as [|[title reqs] careers IH]; intros cat; [done |].
  cbn [seed_careers career_needs List.flat_map fst snd app].
  pose proof (get_or_create_career_spec cat title) as Hc.
  change (fold_left provide (NeedCareer title :: ?l) cat)
    with (fold_left provide l (get_or_create_career cat title).1).
  destruct (get_or_create_career cat title) as [cat1 c]. cbn [fst snd] in *.
  rewrite fold_left_app, <- (seed_reqs_needs cat1 c title reqs Hc). apply IH.
Qed.

Lemma link_skills_needs (cat : Catalog) (r : ResourceRow) (names : list string) :
  link_skills cat r names = fold_left provide (NeedSkill <$> names) cat.
Proof.
  revert cat. induction names as [|n names IH]; intros cat; [done |].
  cbn [link_skills fmap list_fmap fold_left provide].
  destruct (get_or_create_skill cat n) as [cat1 s]. apply IH.
Qed.

Lemma link_careers_needs (cat : Catalog) (r : ResourceRow) (titles : list string) :
  link_careers cat r titles = fold_left provide (NeedCareer <$> titles) cat.
Proof.
  revert cat. induction titles as [|t titles IH]; intros cat; [done |].
  cbn [link_careers fmap list_fmap fold_left provide].
  destruct (get_or_create_career cat t) as [cat1 c]. apply IH.
Qed.

Lemma seed_resources_needs (cat : Catalog) (specs : list ResourceSpec) :
  seed_resources cat specs = fold_left provide (resource_needs specs) cat.
Proof.
  revert cat. induction specs as [|spec specs IH]; intros cat; [done |].
  cbn [seed_resources resource_needs List.flat_map].
  change (fold_left provide ((NeedResource ?t ?u ?ty ?p :: ?l) ++ ?l') cat)
    with (fold_left provide (l ++ l') (add_resource_safe cat t u ty p).1).
  destruct (add_resource_safe cat _ _ _ _) as [cat1 r]. cbn [fst].
  rewrite !fold_left_app, <- (link_skills_needs _ r), <- (link_careers_needs _ r). apply IH.
Qed.

Lemma seed_main_needs (reset : bool) (cat : Catalog) :
  (seed_main reset cat).1
  = fold_left provide seed_needs (if reset then empty_catalog else cat).
Proof.
  unfold seed_main, seed_needs. cbn [fst].
  by rewrite !fold_left_app, seed_skills_needs, seed_careers_needs, seed_resources_needs.
Qed.

Lemma seed_needs_ordered : ordered [] seed_needs = true.
Proof. vm_compute. reflexivity. Qed.

Lemma seed_main_provided (reset : bool) (cat : Catalog) :
  Forall (provided (seed_main reset cat).1) seed_needs.
Proof.
  rewrite seed_main_needs.
  pose proof (fold_provide_all seed_needs [] (if reset then empty_catalog else cat)
                seed_needs_ordered (Forall_nil_2 _)) as Hall.
  by rewrite app_nil_r in Hall.
Qed.

Lemma seed_main_pair (r : bool) (c : Catalog) :
  seed_main r c
  = ((seed_main r c).1,
     (length (cat_careers (seed_main r c).1), length (cat_skills (seed_main r c).1),
      length (cat_reqs (seed_main r c).1))).
Proof. unfold seed_main. cbv zeta. cbn [fst]. reflexivity. Qed.

(** X27. Seeding is idempotent: running [main] again on the catalog a run
    left changes nothing and prints the same counts; and a run with
    [--reset] does what a run on empty tables does. *)
Theorem seeding_idempotent (reset : bool) (cat : Catalog) :
  seed_main false (seed_main reset cat).1 = seed_main reset cat ∧
  seed_main true cat = seed_main false empty_catalog.
Proof.
  split.
  - assert (Hfix : (seed_main false (seed_main reset cat).1).1 = (seed_main reset cat).1).
    { rewrite (seed_main_needs false). apply fold_provide_id, seed_main_provided. }
    rewrite (seed_main_pair false (seed_main reset cat).1), Hfix.
    symmetry. apply seed_main_pair.
  - unfold seed_main. cbv iota. reflexivity.
Qed.

(** X28. What a run of [main] leaves in the catalog: every skill of
    [SKILLS], and for every career of [CAREERS] and every requirement listed
    for it the career, the skill and a row linking the two; every resource of
    [RESOURCES] by its title. Without [--reset] the rows that were there are
    all kept, in place, before the new ones. *)
Theorem seeding_provides (reset : bool) (cat : Catalog) :
  let cat' := (seed_main reset cat).1 in
  (reset = false → extends cat cat') ∧
  (∀ name : string, name ∈ SKILLS → is_Some (find_skill cat' name)) ∧
  (∀ (title : string) (reqs : list ReqSpec) (name : string) (importance : nat)
     (level : string),
     (title, reqs) ∈ CAREERS → (name, importance, level) ∈ reqs →
     ∃ (c : CareerRow) (s : SkillRow),
       find_career cat' title = Some c ∧ find_skill cat' name = Some s ∧
       is_Some (find_req cat' (cr_id c) (sr_id s))) ∧
  (∀ spec : ResourceSpec, spec ∈ RESOURCES → is_Some (find_resource cat' (spec_title spec))).
Proof.
  cbn zeta. pose proof (seed_main_provided reset cat) as Hall.
  rewrite Forall_forall in Hall. split_and!.
  - intros ->. rewrite seed_main_needs. apply fold_provide_extends.
  - intros name Hname. apply (Hall (NeedSkill name)).
    unfold seed_needs. apply elem_of_app. left. by apply list_elem_of_fmap_2.
  - intros title reqs name imp lvl Hcareer Hreq.
    apply (Hall (NeedReq title name imp lvl)).
    unfold seed_needs. apply elem_of_app. right. apply elem_of_app. left.
    unfold career_needs. apply list_elem_of_In, in_flat_map. exists (title, reqs).
    split; [by apply list_elem_of_In |]. right. cbn [fst snd].
    unfold req_needs. apply in_flat_map. exists (name, imp, lvl).
    split; [by apply list_elem_of_In |]. right. left. reflexivity.
  - intros spec Hspec.
    apply (Hall (NeedResource (spec_title spec) (Some (spec_url spec)) (spec_type spec)
                   (spec_provider spec))).
    unfold seed_needs. apply elem_of_app. right. apply elem_of_app. right.
    unfold resource_needs. apply list_elem_of_In, in_flat_map. exists spec.
    split; [by apply list_elem_of_In |]. by left.
Qed.

Lemma find_key_none {A K : Type} `{EqDecision K} (key : A -> K) (l : list A) (k : K) :
  List.find (fun a => bool_decide (key a = k)) l = None → k ∉ key <$> l.
Proof.
  induction l as [|a l IH]; [by intros _ ?%elem_of_nil |]. cbn.
  destruct (decide (key a = k)) as [Ha | Ha].
  - by rewrite bool_decide_eq_true_2.
  - rewrite bool_decide_eq_false_2 by done. intros Hl%IH. set_solver.
Qed.

Lemma find_req_none (cat : Catalog) (cid sid : nat) :
  find_req cat cid sid = None →
  (cid, sid) ∉ (fun r => (rq_career_id r, rq_skill_id r)) <$> cat_reqs cat.
Proof.
  unfold find_req. induction (cat_reqs cat) as [|r l IH]; [by intros _ ?%elem_of_nil |].
  cbn. destruct (decide (rq_career_id r = cid)) as [Hc | Hc];
    destruct (decide (rq_skill_id r = sid)) as [Hs | Hs];
    rewrite ?(bool_decide_eq_true_2 _ Hc), ?(bool_decide_eq_false_2 _ Hc),
            ?(bool_decide_eq_true_2 _ Hs), ?(bool_decide_eq_false_2 _ Hs); cbn;
    try done; intros Hl%IH; rewrite not_elem_of_cons; split; try done; congruence.
Qed.

Lemma NoDup_snoc {A : Type} (l : list A) (x : A) : x ∉ l → NoDup l → NoDup (l ++ [x]).
Proof.
  intros Hx Hl. apply NoDup_app. split_and!; [done | | apply NoDup_singleton].
  by intros y Hy ->%list_elem_of_singleton.
Qed.

Lemma provide_names_unique (cat : Catalog) (n : Need) :
  names_unique cat → names_unique (provide cat n).
Proof.
  intros (Hs & Hc & Hr & Hres).
  destruct n as [name | title | title name imp lvl | title url rtype provider]; cbn.
  - unfold get_or_create_skill, find_skill.
    destruct (List.find _ (cat_skills cat)) eqn:Hfind; [done |].
    split_and!; try done. cbn. rewrite fmap_app. apply NoDup_snoc; [|done].
    by apply find_key_none.
  - unfold get_or_create_career, find_career.
    destruct (List.find _ (cat_careers cat)) eqn:Hfind; [done |].
    split_and!; try done. cbn. rewrite fmap_app. apply NoDup_snoc; [|done].
    by apply find_key_none.
  - destruct (find_career cat title) as [c|]; [|done].
    destruct (find_skill cat name) as [s|]; [|done].
    unfold ensure_req. destruct (find_req cat (cr_id c) (sr_id s)) eqn:Hfind; [done |].
    split_and!; try done. cbn. rewrite fmap_app. apply NoDup_snoc; [|done].
    by apply find_req_none.
  - unfold add_resource_safe, find_resource.
    destruct (List.find _ (cat_resources cat)) eqn:Hfind; [done |].
    split_and!; try done. cbn. rewrite fmap_app. apply NoDup_snoc; [|done].
    by apply find_key_none.
Qed.

(** X29. Seeding adds no duplicate: if no two skills share a name, no two
    careers a title, no two resources a title and no two requirement rows a
    career and a skill, the same holds after [main]; with [--reset] it holds
    whatever the tables held. *)
Theorem seeding_keeps_names_unique (reset : bool) (cat : Catalog) :
  (reset = false → names_unique cat) → names_unique (seed_main reset cat).1.
Proof.
  intros Hcat. rewrite seed_main_needs.
  assert (Hstart : names_unique (if reset then empty_catalog else cat)).
  { destruct reset; [|by apply Hcat]. repeat split; constructor. }
  generalize dependent (if reset then empty_catalog else cat). clear Hcat.
  induction seed_needs as [|n needs IH]; intros c Hc; [done |].
  cbn [fold_left]. apply IH. by apply provide_names_unique.
Qed.

Lemma seeding_keeps_names_unique_witness : names_unique (seed_main true empty_catalog).1.
Proof. apply (seeding_keeps_names_unique true empty_catalog). intros Hr. discriminate Hr. Defined.
